(** * A streaming transcode relay: filename resolution and the /compress handler

    The development embeds the JavaScript of the relay service:

    - [getFileName], the filename resolver (identical in both variants of
      [index.js]);
    - the [/compress] request handler of the disconnect-aware variant (the
      one with [isClientConnected] and [cleanup]), as the state machine made
      of the pieces of the [async] function between its suspension points and
      of the callbacks it registers;
    - the [/compress] request handler of the earlier variant of [index.js],
      which has no flag for the client and no [cleanup], with its own
      callbacks, output options and size headers.

    JavaScript strings are sequences of code units.  Header values reach the
    program decoded as Latin-1 and a URL's [pathname] is serialised in ASCII,
    so a code unit is an 8-bit [ascii] here. *)

From Stdlib Require Import String Ascii List Bool Arith ZArith Lia DecimalString.
Import ListNotations.
Open Scope string_scope.
Open Scope list_scope.

Abbreviation jsstring := (list ascii).
Coercion list_ascii_of_string : string >-> list.

(** ** JavaScript values and control effects used by the program *)

Module Js.

(** Thrown values: [Error] objects, of which the program reads [message]. *)
Inductive exn : Type :=
| TypeError (message : jsstring)
| Error (message : jsstring).

Definition message (e : exn) : jsstring :=
  match e with TypeError m => m | Error m => m end.

(** The outcome of evaluating an expression or a block: a value or a throw. *)
Inductive result (A : Type) : Type :=
| Ok (a : A)
| Throw (e : exn).
Arguments Ok {A} a.
Arguments Throw {A} e.

Definition bind {A B} (r : result A) (f : A -> result B) : result B :=
  match r with Ok a => f a | Throw e => Throw e end.

(** [try { body } catch (error) { handler }] *)
Definition try_catch {A} (body : result A) (handler : exn -> result A) : result A :=
  match body with Ok a => Ok a | Throw e => handler e end.

(** Truthiness of a string, and of a value that is [undefined] or a string. *)
Definition truthy_string (s : jsstring) : bool :=
  match s with [] => false | _ :: _ => true end.

Definition truthy (v : option jsstring) : bool :=
  match v with None => false | Some s => truthy_string s end.

Definition string_eqb (a b : jsstring) : bool :=
  if list_eq_dec ascii_dec a b then true else false.

(** [String.prototype.toLowerCase] on 8-bit code units: A-Z, and the
    Latin-1 capitals 0xC0-0xDE except the multiplication sign 0xD7. *)
Definition lower_unit (c : ascii) : ascii :=
  let n := nat_of_ascii c in
  if (((65 <=? n) && (n <=? 90)) || ((192 <=? n) && (n <=? 222) && negb (n =? 215)))%nat
  then ascii_of_nat (n + 32) else c.

Definition toLowerCase (s : jsstring) : jsstring := map lower_unit s.

(** [Array.prototype.includes] on an array of strings. *)
Definition includes (xs : list jsstring) (x : jsstring) : bool :=
  existsb (string_eqb x) xs.

(** [String.prototype.slice(start, end)] for [0 <= start], [0 <= end]. *)
Definition slice (s : jsstring) (start end_ : nat) : jsstring :=
  firstn (end_ - start) (skipn start s).

End Js.
Import Js.

Notation "x <- r ;; k" := (Js.bind r (fun x => k))
  (at level 61, r at next level, right associativity).

(** ** Regular expressions

    A backtracking matcher in continuation-passing style, for the fragment
    of the pattern language the program uses: literals, [.], character
    classes, sequence, alternation, greedy and lazy [*], capture groups and
    back-references.  No flags are set on the program's patterns. *)

Module RegExp.

Inductive regex : Type :=
| Empty
| Char (c : ascii)
| Any
| Class (cs : list ascii)
| NotClass (cs : list ascii)
| Seq (r1 r2 : regex)
| Alt (r1 r2 : regex)
| Star (greedy : bool) (r : regex)
| Group (n : nat) (r : regex)
| Backref (n : nat).

(** A literal string is the sequence of its characters. *)
Fixpoint Lit (s : jsstring) : regex :=
  match s with
  | [] => Empty
  | c :: s' => Seq (Char c) (Lit s')
  end.

Definition captures := list (nat * jsstring).

Fixpoint capture (n : nat) (c : captures) : option jsstring :=
  match c with
  | [] => None
  | (m, v) :: c' => if (n =? m)%nat then Some v else capture n c'
  end.

Fixpoint groups_of (r : regex) : list nat :=
  match r with
  | Seq r1 r2 | Alt r1 r2 => groups_of r1 ++ groups_of r2
  | Star _ r' => groups_of r'
  | Group n r' => n :: groups_of r'
  | _ => []
  end.

Definition clear (ns : list nat) (c : captures) : captures :=
  filter (fun e => negb (existsb (Nat.eqb (fst e)) ns)) c.

Definition in_class (cs : list ascii) (c : ascii) : bool :=
  existsb (Ascii.eqb c) cs.

(** [.] matches any code unit but a line terminator. *)
Definition line_terminator (c : ascii) : bool :=
  in_class ["010"%char; "013"%char] c.

Fixpoint starts_with (p x : jsstring) : bool :=
  match p, x with
  | [], _ => true
  | a :: p', b :: x' => Ascii.eqb a b && starts_with p' x'
  | _ :: _, [] => false
  end.

(** The state of a match is the input still to be read and the captures;
    a continuation says whether the rest of the pattern matches from there. *)
Definition outcome := option (jsstring * captures).
Definition cont := jsstring -> captures -> outcome.

Definition orelse (a b : outcome) : outcome :=
  match a with Some r => Some r | None => b end.

Definition one (p : ascii -> bool) (x : jsstring) (c : captures) (k : cont) : outcome :=
  match x with
  | [] => None
  | a :: x' => if p a then k x' c else None
  end.

(** [r*] and [r*?]: an iteration that consumes nothing is rejected, so at
    most [length x] iterations can follow from [x]; the captures of [r] are
    cleared on entry to each iteration. *)
Fixpoint repeat_matcher (m : jsstring -> captures -> cont -> outcome) (inner : list nat)
    (greedy : bool) (bound : nat) (x : jsstring) (c : captures) (k : cont) : outcome :=
  match bound with
  | 0 => k x c
  | S bound' =>
      let again :=
        m x (clear inner c)
          (fun y c' =>
             if (length y <? length x)%nat
             then repeat_matcher m inner greedy bound' y c' k
             else None) in
      if greedy then orelse again (k x c) else orelse (k x c) again
  end.

Fixpoint matcher (r : regex) (x : jsstring) (c : captures) (k : cont) {struct r} : outcome :=
  match r with
  | Empty => k x c
  | Char a => one (Ascii.eqb a) x c k
  | Any => one (fun b => negb (line_terminator b)) x c k
  | Class cs => one (in_class cs) x c k
  | NotClass cs => one (fun b => negb (in_class cs b)) x c k
  | Seq r1 r2 => matcher r1 x c (fun y c' => matcher r2 y c' k)
  | Alt r1 r2 => orelse (matcher r1 x c k) (matcher r2 x c k)
  | Star greedy r' =>
      repeat_matcher (matcher r') (groups_of r') greedy (length x) x c k
  | Group n r' =>
      matcher r' x c
        (fun y c' => k y ((n, firstn (length x - length y) x) :: c'))
  | Backref n =>
      match capture n c with
      | None => k x c
      | Some v => if starts_with v x then k (skipn (length v) x) c else None
      end
  end.

(** The array [exec] returns: element 0 is the matched text, element [n]
    the text of group [n] or [undefined]. *)
Record match_array : Type := MatchArray {
  matched : jsstring;
  groups : captures
}.

Definition nth_group (n : nat) (m : match_array) : option jsstring :=
  match n with 0 => Some (matched m) | _ => capture n (groups m) end.

(** [RegExp.prototype.exec] without the global or sticky flag: the match at
    the leftmost position where one exists, [null] when there is none. *)
Fixpoint exec (r : regex) (x : jsstring) : option match_array :=
  match matcher r x [] (fun y c => Some (y, c)) with
  | Some (y, c) => Some (MatchArray (firstn (length x - length y) x) c)
  | None =>
      match x with
      | [] => None
      | _ :: x' => exec r x'
      end
  end.

(** Two properties of matchers: the outcome depends on the continuation
    only through its values, and there is no match when the continuation
    never accepts. *)
Definition extensional (m : jsstring -> captures -> cont -> outcome) : Prop :=
  forall x c k1 k2, (forall y c', k1 y c' = k2 y c') -> m x c k1 = m x c k2.

Definition fails_with (m : jsstring -> captures -> cont -> outcome) : Prop :=
  forall x c, m x c (fun _ _ => None) = None.

(** [s.replace(/[cs]/g, '')]: every code unit of the class is removed. *)
Definition remove_class (cs : list ascii) (s : jsstring) : jsstring :=
  filter (fun a => negb (in_class cs a)) s.

End RegExp.

(** ** Node's [path] module (POSIX flavour, as on the Linux image the
    service is deployed on)

    [basename] and [extname] scan the path from its last code unit to its
    first; [n] is the number of code units still to visit, so the index
    visited is [n - 1].  The sentinel -1 of the indices is [None]. *)

Module path.

Definition CHAR_FORWARD_SLASH : ascii := "/"%char.
Definition CHAR_DOT : ascii := "."%char.

Definition charCodeAt (p : jsstring) (i : nat) : ascii := nth i p Ascii.zero.

Record basename_state : Type := BasenameState {
  b_start : nat;
  b_end : option nat;
  b_matchedSlash : bool
}.

Fixpoint basename_loop (p : jsstring) (n : nat) (st : basename_state) : basename_state :=
  match n with
  | 0 => st
  | S i =>
      if Ascii.eqb (charCodeAt p i) CHAR_FORWARD_SLASH then
        if negb (b_matchedSlash st)
        then BasenameState (i + 1) (b_end st) (b_matchedSlash st)
        else basename_loop p i st
      else
        match b_end st with
        | None => basename_loop p i (BasenameState (b_start st) (Some (i + 1)) false)
        | Some _ => basename_loop p i st
        end
  end.

Definition basename (p : jsstring) : jsstring :=
  let st := basename_loop p (length p) (BasenameState 0 None true) in
  match b_end st with
  | None => []
  | Some e => slice p (b_start st) e
  end.

Record extname_state : Type := ExtnameState {
  startDot : option nat;
  startPart : nat;
  e_end : option nat;
  matchedSlash : bool;
  preDotState : Z
}.

Definition see_unit (code : ascii) (i : nat) (st : extname_state) : extname_state :=
  let st :=
    match e_end st with
    | None => ExtnameState (startDot st) (startPart st) (Some (i + 1)) false (preDotState st)
    | Some _ => st
    end in
  if Ascii.eqb code CHAR_DOT then
    match startDot st with
    | None => ExtnameState (Some i) (startPart st) (e_end st) (matchedSlash st) (preDotState st)
    | Some _ =>
        if negb (preDotState st =? 1)%Z
        then ExtnameState (startDot st) (startPart st) (e_end st) (matchedSlash st) 1%Z
        else st
    end
  else
    match startDot st with
    | Some _ => ExtnameState (startDot st) (startPart st) (e_end st) (matchedSlash st) (-1)%Z
    | None => st
    end.

Fixpoint extname_loop (p : jsstring) (n : nat) (st : extname_state) : extname_state :=
  match n with
  | 0 => st
  | S i =>
      let code := charCodeAt p i in
      if Ascii.eqb code CHAR_FORWARD_SLASH then
        if negb (matchedSlash st)
        then ExtnameState (startDot st) (i + 1) (e_end st) (matchedSlash st) (preDotState st)
        else extname_loop p i st
      else extname_loop p i (see_unit code i st)
  end.

Definition extname (p : jsstring) : jsstring :=
  let st := extname_loop p (length p) (ExtnameState None 0 None true 0%Z) in
  match startDot st, e_end st with
  | Some d, Some e =>
      if (preDotState st =? 0)%Z
         || ((preDotState st =? 1)%Z && (d =? e - 1)%nat && (d =? startPart st + 1)%nat)
      then []
      else slice p d e
  | _, _ => []
  end.

End path.

(** ** The filename resolver: [getFileName] *)

Definition dquote : ascii := "034"%char.
Definition squote : ascii := "039"%char.
Definition newline : ascii := "010"%char.

(** The pattern of the program: the literal [filename], then [[^;=\n]*],
    then [=], then group 1, which is either a quote (group 2, the class of
    the single and the double quote) followed by a lazy [.*?] and the
    back-reference [\2], or else a greedy run [[^;\n]*]. *)
Definition quoted_alternative : RegExp.regex :=
  RegExp.Seq (RegExp.Group 2 (RegExp.Class [squote; dquote]))
    (RegExp.Seq (RegExp.Star false RegExp.Any) (RegExp.Backref 2)).

Definition bare_alternative : RegExp.regex :=
  RegExp.Star true (RegExp.NotClass [";"%char; newline]).

Definition filename_pattern : RegExp.regex :=
  RegExp.Seq (RegExp.Lit "filename")
    (RegExp.Seq (RegExp.Star true (RegExp.NotClass [";"%char; "="%char; newline]))
       (RegExp.Seq (RegExp.Char "="%char)
          (RegExp.Group 1 (RegExp.Alt quoted_alternative bare_alternative)))).

Definition videoExts : list jsstring :=
  [ ".mp4" : jsstring; ".mkv" : jsstring; ".avi" : jsstring;
    ".mov" : jsstring; ".webm" : jsstring; ".flv" : jsstring ].

(** The name taken from the Content-Disposition header, when the first
    [return] of the function is reached: the header is truthy, the pattern
    matches and its first group is truthy. *)
Definition header_token (contentDisposition : option jsstring) : option jsstring :=
  match contentDisposition with
  | Some cd =>
      if truthy_string cd then
        match RegExp.exec filename_pattern cd with
        | Some matches =>
            match RegExp.nth_group 1 matches with
            | Some tok => if truthy_string tok then Some tok else None
            | None => None
            end
        | None => None
        end
      else None
  | None => None
  end.

Section FilenameResolver.

(** [new URL(url).pathname]: the WHATWG URL parser is the platform's; it
    either throws or yields the path. *)
Variable URL_pathname : jsstring -> result jsstring.

(** The body of the [try] block. *)
Definition getFileName_try (contentDisposition : option jsstring) (url : jsstring)
  : result jsstring :=
  match header_token contentDisposition with
  | Some tok => Ok (RegExp.remove_class [squote; dquote] tok)
  | None =>
      urlPath <- URL_pathname url ;;
      let fileName := path.basename urlPath in
      let ext := toLowerCase (path.extname fileName) in
      let fileName :=
        if negb (truthy_string ext) || negb (includes videoExts ext)
        then fileName ++ ".mp4"
        else fileName in
      Ok fileName
  end.

Definition getFileName (contentDisposition : option jsstring) (url : jsstring)
  : result jsstring :=
  try_catch (getFileName_try contentDisposition url) (fun _ => Ok ("video.mp4" : jsstring)).

End FilenameResolver.

(** *** A direct reading of the pattern

    What the pattern extracts, written as a scan of the header value: at
    the first place where [filename] is followed, after code units other
    than [;], [=] and newline, by [=], the value is the quoted text up to
    the matching quote when there is one on the same line, and otherwise the
    run of code units up to the next [;] or newline. *)

(** The longest prefix of code units satisfying [p], and what follows it. *)
Fixpoint span (p : ascii -> bool) (s : jsstring) : jsstring * jsstring :=
  match s with
  | [] => ([], [])
  | a :: s' =>
      if p a then let (run, rest) := span p s' in (a :: run, rest) else ([], s)
  end.

(** The text before the first [q], when no line terminator precedes it. *)
Fixpoint until_quote (q : ascii) (s : jsstring) : option jsstring :=
  match s with
  | [] => None
  | a :: s' =>
      if Ascii.eqb q a then Some []
      else if RegExp.line_terminator a then None
      else option_map (cons a) (until_quote q s')
  end.

Definition bare_value (v : jsstring) : jsstring :=
  fst (span (fun a => negb (RegExp.in_class [";"%char; newline] a)) v).

Definition parameter_value (v : jsstring) : jsstring :=
  match v with
  | q :: t =>
      if RegExp.in_class [squote; dquote] q then
        match until_quote q t with
        | Some inner => q :: inner ++ [q]
        | None => bare_value v
        end
      else bare_value v
  | [] => bare_value v
  end.

Definition parameter_at (s : jsstring) : option jsstring :=
  if RegExp.starts_with "filename" s then
    match snd (span (fun a => negb (RegExp.in_class [";"%char; "="%char; newline] a))
                 (skipn 8 s)) with
    | a :: v => if Ascii.eqb "="%char a then Some (parameter_value v) else None
    | [] => None
    end
  else None.

Fixpoint first_parameter (s : jsstring) : option jsstring :=
  match parameter_at s with
  | Some v => Some v
  | None =>
      match s with
      | [] => None
      | _ :: s' => first_parameter s'
      end
  end.

(** A URL parser for the examples: it accepts [http://] and [https://] URLs
    whose path needs neither normalisation nor escaping, and treats
    everything else as invalid. *)
Fixpoint take_path (s : jsstring) : jsstring :=
  match s with
  | [] => []
  | c :: s' =>
      if RegExp.in_class ["?"%char; "#"%char] c then [] else c :: take_path s'
  end.

Fixpoint skip_authority (s : jsstring) : jsstring :=
  match s with
  | [] => []
  | c :: s' =>
      if RegExp.in_class ["/"%char; "?"%char; "#"%char] c then s else skip_authority s'
  end.

Definition orelse_opt {A} (a b : option A) : option A :=
  match a with Some x => Some x | None => b end.

Definition sample_pathname (url : jsstring) : result jsstring :=
  let after (scheme : jsstring) :=
    if RegExp.starts_with scheme url then Some (skipn (length scheme) url) else None in
  match orelse_opt (after "http://") (after "https://") with
  | Some rest =>
      match rest with
      | [] => Throw (TypeError "Invalid URL")
      | c :: _ =>
          if RegExp.in_class ["/"%char; "?"%char; "#"%char] c
          then Throw (TypeError "Invalid URL")
          else
            match take_path (skip_authority rest) with
            | [] => Ok ("/" : jsstring)
            | p => Ok p
            end
      end
  | None => Throw (TypeError "Invalid URL")
  end.

(** ** The [/compress] handler (disconnect-aware variant)

    The world of one request: the closure variables of the handler, the
    response object, the engine commands created, what the handler is
    waiting for and which listeners it has registered, the effects produced
    so far, and the platform the request runs on. *)

Module Relay.

Definition handle := nat.

(** The life of an engine process. *)
Inductive proc_status : Type := NotStarted | Running | Exited | Killed.

Definition proc_status_eqb (a b : proc_status) : bool :=
  match a, b with
  | NotStarted, NotStarted | Running, Running | Exited, Exited | Killed, Killed => true
  | _, _ => false
  end.

(** A number is an IEEE-754 double, carried by its 64-bit pattern: the
    program never computes on one except to round it for the log, which the
    log line records symbolically. *)
Inductive number : Type := Double (bits : N).

(** The payload of a [progress] event; a field that is [undefined] is [None]. *)
Record progress : Type := Progress { percent : option number }.

(** Reading [progress.percent]: a [TypeError] on an [undefined] payload. *)
Definition get_percent (p : option progress) : result (option number) :=
  match p with
  | Some o => Ok (percent o)
  | None => Throw (TypeError "Cannot read properties of undefined (reading 'percent')")
  end.

(** What the platform decides: URL parsing, whether delivering the kill
    signal to a process in a given state fails, and whether building or
    starting the engine command throws. *)
Record platform : Type := Platform {
  URL_pathname : jsstring -> result jsstring;
  kill_throws : proc_status -> option exn;
  ffmpeg_fault : option exn;
  pipe_fault : option exn
}.

Inductive method : Type := HEAD | GET.

(** The lines written to the console, by call site. *)
Inductive line : Type :=
| log_client_disconnected
| log_started (commandLine : jsstring)
| log_processing (percent : number)   (* Math.round(percent * 100) / 100 *)
| error_ffmpeg (message : jsstring)
| error_ffmpeg_stderr (stderr : jsstring)
| log_terminated_by_disconnect
| log_finished
| error_input_stream (e : exn)
| error_caught (message : jsstring)
| error_killing (e : exn)
(* lines of the earlier variant of the handler *)
| log_percent (percent : option number)
| error_ffmpeg_value (err : exn)
| error_ffmpeg_stderr_value (stderr : option jsstring)
| log_compression_finished.

(** [console.error] as opposed to [console.log]. *)
Definition is_error (l : line) : bool :=
  match l with
  | error_ffmpeg _ | error_ffmpeg_stderr _ | error_input_stream _
  | error_caught _ | error_killing _
  | error_ffmpeg_value _ | error_ffmpeg_stderr_value _ => true
  | _ => false
  end.

Inductive effect : Type :=
| Console (l : line)
| Request (m : method) (url : jsstring) (timeout_ms : nat)
| SetHeader (name value : jsstring)
| Send (status : nat) (body : jsstring)
| Write (chunk : jsstring)
| EndResponse
| Spawn (h : handle) (outputOptions : list jsstring).

(** The response object [res]. *)
Record response : Type := Response {
  statusCode : nat;
  headersSent : bool;
  finished : bool;
  headers : list (jsstring * jsstring)
}.

(** Where the [async] function is suspended. *)
Inductive pending : Type :=
| AwaitProbe (videoUrl : jsstring)
| AwaitOpen (videoUrl originalFileName : jsstring)
| Returned.

Record world : Type := World {
  env : platform;
  (* closure variables *)
  isClientConnected : bool;
  ffmpegCommand : option handle;
  (* control *)
  waiting : pending;
  on_close_registered : bool;
  on_input_registered : bool;
  on_engine_registered : bool;
  (* objects *)
  res : response;
  commands : list proc_status;
  piped : option (handle * bool);
  (* what has happened *)
  out : list effect;
  kills : list (handle * jsstring);
  crashed : option exn
}.

Definition set_connected (b : bool) (w : world) : world :=
  World (env w) b (ffmpegCommand w) (waiting w) (on_close_registered w)
    (on_input_registered w) (on_engine_registered w) (res w) (commands w) (piped w)
    (out w) (kills w) (crashed w).

Definition set_ffmpegCommand (c : option handle) (w : world) : world :=
  World (env w) (isClientConnected w) c (waiting w) (on_close_registered w)
    (on_input_registered w) (on_engine_registered w) (res w) (commands w) (piped w)
    (out w) (kills w) (crashed w).

Definition set_waiting (p : pending) (w : world) : world :=
  World (env w) (isClientConnected w) (ffmpegCommand w) p (on_close_registered w)
    (on_input_registered w) (on_engine_registered w) (res w) (commands w) (piped w)
    (out w) (kills w) (crashed w).

Definition set_listeners (c i e : bool) (w : world) : world :=
  World (env w) (isClientConnected w) (ffmpegCommand w) (waiting w) c i e
    (res w) (commands w) (piped w) (out w) (kills w) (crashed w).

Definition set_res (r : response) (w : world) : world :=
  World (env w) (isClientConnected w) (ffmpegCommand w) (waiting w) (on_close_registered w)
    (on_input_registered w) (on_engine_registered w) r (commands w) (piped w)
    (out w) (kills w) (crashed w).

Definition set_commands (cs : list proc_status) (w : world) : world :=
  World (env w) (isClientConnected w) (ffmpegCommand w) (waiting w) (on_close_registered w)
    (on_input_registered w) (on_engine_registered w) (res w) cs (piped w)
    (out w) (kills w) (crashed w).

Definition set_piped (p : option (handle * bool)) (w : world) : world :=
  World (env w) (isClientConnected w) (ffmpegCommand w) (waiting w) (on_close_registered w)
    (on_input_registered w) (on_engine_registered w) (res w) (commands w) p
    (out w) (kills w) (crashed w).

Definition emit (e : effect) (w : world) : world :=
  World (env w) (isClientConnected w) (ffmpegCommand w) (waiting w) (on_close_registered w)
    (on_input_registered w) (on_engine_registered w) (res w) (commands w) (piped w)
    (out w ++ [e]) (kills w) (crashed w).

Definition note_kill (h : handle) (signal : jsstring) (w : world) : world :=
  World (env w) (isClientConnected w) (ffmpegCommand w) (waiting w) (on_close_registered w)
    (on_input_registered w) (on_engine_registered w) (res w) (commands w) (piped w)
    (out w) (kills w ++ [(h, signal)]) (crashed w).

Definition set_crashed (e : exn) (w : world) : world :=
  World (env w) (isClientConnected w) (ffmpegCommand w) (waiting w) (on_close_registered w)
    (on_input_registered w) (on_engine_registered w) (res w) (commands w) (piped w)
    (out w) (kills w) (Some e).

(** *** Statements: state passing with exceptions *)

Definition M (A : Type) : Type := world -> result A * world.

Definition ret {A} (a : A) : M A := fun w => (Ok a, w).

Definition raise {A} (e : exn) : M A := fun w => (Throw e, w).

Definition seq {A B} (m : M A) (f : A -> M B) : M B :=
  fun w => match m w with
           | (Ok a, w') => f a w'
           | (Throw e, w') => (Throw e, w')
           end.

Definition try_ {A} (body : M A) (handler : exn -> M A) : M A :=
  fun w => match body w with
           | (Ok a, w') => (Ok a, w')
           | (Throw e, w') => handler e w'
           end.

Definition lift {A} (r : result A) : M A := fun w => (r, w).

Definition update (f : world -> world) : M unit := fun w => (Ok tt, f w).

Definition read {A} (f : world -> A) : M A := fun w => (Ok (f w), w).

Definition when (b : bool) (m : M unit) : M unit := if b then m else ret tt.

Notation "m1 ;; m2" := (seq m1 (fun _ => m2))
  (at level 61, right associativity).
Notation "x <~ m1 ;; m2" := (seq m1 (fun x => m2))
  (at level 61, m1 at next level, right associativity).

(** *** The response object *)

Definition ERR_HTTP_HEADERS_SENT : exn :=
  Error "Cannot set headers after they are sent to the client".

(** [res.status(code).send(body)] *)
Definition status_send (code : nat) (body : jsstring) : M unit :=
  fun w =>
    let r := res w in
    let w1 := set_res (Response code (headersSent r) (finished r) (headers r)) w in
    if headersSent r then (Throw ERR_HTTP_HEADERS_SENT, w1)
    else (Ok tt, emit (Send code body) (set_res (Response code true true (headers r)) w1)).

(** Code units a header value may not hold: controls other than TAB, and DEL. *)
Definition invalid_header_unit (c : ascii) : bool :=
  let n := nat_of_ascii c in
  (((n <? 32) && negb (n =? 9)) || (n =? 127))%nat.

(** [res.setHeader(name, value)] *)
Definition setHeader (name value : jsstring) : M unit :=
  fun w =>
    let r := res w in
    if headersSent r then (Throw ERR_HTTP_HEADERS_SENT, w)
    else if existsb invalid_header_unit value
    then (Throw (TypeError "Invalid character in header content"), w)
    else (Ok tt,
          emit (SetHeader name value)
            (set_res (Response (statusCode r) (headersSent r) (finished r)
                        (headers r ++ [(name, value)])) w)).

Definition console (l : line) : M unit := update (emit (Console l)).

(** *** The engine command *)

Definition status_of (h : handle) (w : world) : proc_status :=
  nth h (commands w) NotStarted.

Fixpoint replace_nth {A} (n : nat) (a : A) (l : list A) : list A :=
  match l, n with
  | [], _ => []
  | _ :: l', 0 => a :: l'
  | b :: l', S n' => b :: replace_nth n' a l'
  end.

Definition set_status (h : handle) (st : proc_status) (w : world) : world :=
  set_commands (replace_nth h st (commands w)) w.

Definition outputOptions : list jsstring :=
  [ "-preset fast" : jsstring; "-threads 2" : jsstring; "-cpu-used 4" : jsstring;
    "-crf 30" : jsstring; "-maxrate 1000k" : jsstring; "-bufsize 1500k" : jsstring;
    "-movflags frag_keyframe+empty_moov+faststart" : jsstring; "-g 30" : jsstring;
    "-sc_threshold 0" : jsstring; "-tune fastdecode" : jsstring ].

(** [ffmpeg(response.data).videoCodec(...) ... .format('mp4')]: a new command,
    not started yet, unless building it throws. *)
Definition ffmpeg : M handle :=
  fun w =>
    match ffmpeg_fault (env w) with
    | Some e => (Throw e, w)
    | None => (Ok (length (commands w)), set_commands (commands w ++ [NotStarted]) w)
    end.

(** [command.pipe(res, { end: end_ })]: starts the engine process and feeds
    its output to the response, unless starting it throws. *)
Definition pipe (h : handle) (end_ : bool) : M unit :=
  fun w =>
    match pipe_fault (env w) with
    | Some e => (Throw e, w)
    | None => (Ok tt, emit (Spawn h outputOptions) (set_piped (Some (h, end_)) (set_status h Running w)))
    end.

(** [command.kill(signal)] of the engine library: it forcibly terminates
    the engine process.  A running process is killed; a command whose process
    has not started, has exited or was killed already is left as it is, which
    makes the call safe to repeat; a failure to deliver the signal is thrown
    to the caller.  Every call is recorded in [kills]. *)
Definition kill (h : handle) (signal : jsstring) : M unit :=
  fun w =>
    let w := note_kill h signal w in
    match kill_throws (env w) (status_of h w) with
    | Some e => (Throw e, w)
    | None =>
        match status_of h w with
        | Running => (Ok tt, set_status h Killed w)
        | _ => (Ok tt, w)
        end
    end.

(** *** The handler and its callbacks *)

(** [function cleanup()] *)
Definition cleanup : M unit :=
  c <~ read ffmpegCommand ;;
  match c with
  | Some h =>
      try_ (kill h "SIGKILL") (fun e => console (error_killing e))
  | None => ret tt
  end.

(** [req.on('close', ...)] *)
Definition on_close : M unit :=
  update (set_connected false) ;;
  console log_client_disconnected.

(** [response.data.on('error', ...)] *)
Definition on_input_error (error : exn) : M unit :=
  console (error_input_stream error) ;;
  cleanup ;;
  sent <~ read (fun w => headersSent (res w)) ;;
  when (negb sent) (status_send 500 "Error processing video stream").

(** [.on('start', ...)] *)
Definition on_start (commandLine : jsstring) : M unit :=
  console (log_started commandLine).

Definition defined {A} (v : option A) : bool :=
  match v with Some _ => true | None => false end.

(** [.on('progress', ...)]: the guard is
    [progress && progress.percent !== undefined && isClientConnected]. *)
Definition on_progress (p : option progress) : M unit :=
  if defined p then
    pc <~ lift (get_percent p) ;;
    match pc with
    | Some x =>
        connected <~ read isClientConnected ;;
        when connected (console (log_processing x))
    | None => ret tt
    end
  else ret tt.

(** [.on('error', (err, stdout, stderr) => ...)] *)
Definition on_engine_error (err : exn) (stderr : option jsstring) : M unit :=
  connected <~ read isClientConnected ;;
  (if connected then
     console (error_ffmpeg (message err)) ;;
     match stderr with
     | Some text => when (truthy_string text) (console (error_ffmpeg_stderr text))
     | None => ret tt
     end ;;
     sent <~ read (fun w => headersSent (res w)) ;;
     when (negb sent) (status_send 500 "Compression failed")
   else console log_terminated_by_disconnect) ;;
  cleanup.

(** [.on('end', ...)] *)
Definition on_end : M unit :=
  console log_finished ;;
  cleanup.

(** The [catch (error)] block of the handler. *)
Definition catch_block (error : exn) : M unit :=
  console (error_caught (message error)) ;;
  cleanup ;;
  sent <~ read (fun w => headersSent (res w)) ;;
  when (negb sent) (status_send 500 ("Failed to process video: " ++ message error)).

(** A piece of the [try] block: a throw inside it runs the [catch] block,
    after which the function has returned. *)
Definition in_try (body : M unit) : M unit :=
  update (set_waiting Returned) ;;
  try_ body catch_block.

(** What an upstream request comes back with. *)
Record upstream_headers : Type := UpstreamHeaders {
  content_length : option jsstring;
  content_type : option jsstring;
  content_disposition : option jsstring
}.

Inductive reply : Type :=
| NetworkError (e : exn)
| TimedOut
| Answer (status : nat) (hs : upstream_headers).

Definition decimal (n : nat) : jsstring := NilEmpty.string_of_uint (Nat.to_uint n).

(** [axios.defaults.validateStatus = status => status < 400] *)
Definition validateStatus (status : nat) : bool := (status <? 400)%nat.

(** How the promise of an [axios] request settles for the [await]. *)
Definition axios_settle (timeout_ms : nat) (r : reply) : result upstream_headers :=
  match r with
  | NetworkError e => Throw e
  | TimedOut => Throw (Error ("timeout of " ++ decimal timeout_ms ++ "ms exceeded"))
  | Answer status hs =>
      if validateStatus status then Ok hs
      else Throw (Error ("Request failed with status code " ++ decimal status))
  end.

(** From the arrival of the request to the first [await]. *)
Definition compress (url : option jsstring) : M unit :=
  if negb (truthy url) then status_send 400 "Missing video URL"
  else
    let videoUrl := match url with Some u => u | None => [] end in
    update (set_connected true) ;;
    update (fun w => set_listeners true (on_input_registered w) (on_engine_registered w) w) ;;
    update (set_ffmpegCommand None) ;;
    in_try (update (emit (Request HEAD videoUrl 5000)) ;;
            update (set_waiting (AwaitProbe videoUrl))).

(** From the answer to the HEAD request to the second [await]. *)
Definition after_probe (videoUrl : jsstring) (r : reply) : M unit :=
  in_try (headResponse <~ lift (axios_settle 5000 r) ;;
          P <~ read env ;;
          originalFileName <~
            lift (getFileName (URL_pathname P) (content_disposition headResponse) videoUrl) ;;
          update (emit (Request GET videoUrl 0)) ;;
          update (set_waiting (AwaitOpen videoUrl originalFileName))).

(** From the answer to the GET request to the end of the [try] block. *)
Definition after_open (videoUrl originalFileName : jsstring) (r : reply) : M unit :=
  in_try (response <~ lift (axios_settle 0 r) ;;
          let compressedFileName := "compressed_" ++ originalFileName in
          setHeader "Content-Disposition"
            ("attachment; filename=" ++ [dquote] ++ compressedFileName ++ [dquote]) ;;
          setHeader "Content-Type" "video/mp4" ;;
          update (fun w => set_listeners (on_close_registered w) true (on_engine_registered w) w) ;;
          h <~ ffmpeg ;;
          update (fun w => set_listeners (on_close_registered w) (on_input_registered w) true w) ;;
          update (set_ffmpegCommand (Some h)) ;;
          pipe h true).

(** *** The environment: what can happen to a request *)

Inductive event : Type :=
| ProbeSettled (r : reply)
| OpenSettled (r : reply)
| ClientClose
| InputError (e : exn)
| EngineStart (commandLine : jsstring)
| EngineProgress (p : option progress)
| EngineError (err : exn) (stderr : option jsstring)
| EngineEnd
| EngineData (chunk : jsstring)
| EngineExit
| OutputEnd.

(** The pipe writes a chunk of a running engine to the response; the first
    write sends the headers. *)
Definition forward (chunk : jsstring) : M unit :=
  fun w =>
    match piped w with
    | Some (h, _) =>
        if proc_status_eqb (status_of h w) Running && negb (finished (res w))
        then (Ok tt, emit (Write chunk)
                       (set_res (Response (statusCode (res w)) true (finished (res w))
                                   (headers (res w))) w))
        else (Ok tt, w)
    | None => (Ok tt, w)
    end.

(** The engine process exits on its own. *)
Definition exits : M unit :=
  fun w =>
    match piped w with
    | Some (h, _) =>
        if proc_status_eqb (status_of h w) Running
        then (Ok tt, set_status h Exited w)
        else (Ok tt, w)
    | None => (Ok tt, w)
    end.

(** The output of an engine that is gone ends; a pipe set up with
    [end: true] then ends the response. *)
Definition output_ends : M unit :=
  fun w =>
    match piped w with
    | Some (h, true) =>
        if (proc_status_eqb (status_of h w) Exited || proc_status_eqb (status_of h w) Killed)
           && negb (finished (res w))
        then (Ok tt, emit EndResponse
                       (set_res (Response (statusCode (res w)) true true (headers (res w))) w))
        else (Ok tt, w)
    | _ => (Ok tt, w)
    end.

(** The code an event runs, when a listener or a continuation waits for it. *)
Definition deliver (ev : event) (w : world) : option (M unit) :=
  match ev with
  | ProbeSettled r =>
      match waiting w with AwaitProbe u => Some (after_probe u r) | _ => None end
  | OpenSettled r =>
      match waiting w with AwaitOpen u n => Some (after_open u n r) | _ => None end
  | ClientClose => if on_close_registered w then Some on_close else None
  | InputError e => if on_input_registered w then Some (on_input_error e) else None
  | EngineStart c => if on_engine_registered w then Some (on_start c) else None
  | EngineProgress p => if on_engine_registered w then Some (on_progress p) else None
  | EngineError err stderr =>
      if on_engine_registered w then Some (on_engine_error err stderr) else None
  | EngineEnd => if on_engine_registered w then Some on_end else None
  | EngineData chunk => Some (forward chunk)
  | EngineExit => Some exits
  | OutputEnd => Some output_ends
  end.

(** Running a piece of code to its end; an exception nobody catches takes
    the server process down. *)
Definition settle (m : M unit) (w : world) : world :=
  match m w with
  | (Ok _, w') => w'
  | (Throw e, w') => set_crashed e w'
  end.

Definition step (w : world) (ev : event) : world :=
  match crashed w with
  | Some _ => w
  | None =>
      match deliver ev w with
      | Some m => settle m w
      | None => w
      end
  end.

Definition run (w : world) (evs : list event) : world := fold_left step evs w.

(** The state before the handler is called. *)
Definition fresh (P : platform) : world :=
  World P true None Returned false false false (Response 200 false false [])
    [] None [] [] None.

(** A request for [/compress] with the given [url] query parameter. *)
Definition serve (P : platform) (url : option jsstring) : world :=
  settle (compress url) (fresh P).

(** The engine processes alive. *)
Definition alive (w : world) : nat :=
  length (filter (fun st => proc_status_eqb st Running) (commands w)).

(** *** Vocabulary of the properties *)

(** The ways a request ends: natural completion, an error of the engine,
    an error of the input stream, and the [catch] block, which upstream
    fetch errors and every other exception of the [try] block reach. *)
Inductive termination_path : M unit -> Prop :=
| natural_completion : termination_path on_end
| engine_error (err : exn) (stderr : option jsstring) :
    termination_path (on_engine_error err stderr)
| input_stream_error (e : exn) : termination_path (on_input_error e)
| caught_exception (e : exn) : termination_path (catch_block e).

Definition is_send (e : effect) : bool :=
  match e with Send _ _ => true | _ => false end.

Definition is_request (e : effect) : bool :=
  match e with Request _ _ _ => true | _ => false end.

Definition is_spawn (e : effect) : bool :=
  match e with Spawn _ _ => true | _ => false end.

(** What touches the response: its headers, status and body. *)
Definition on_response (e : effect) : bool :=
  match e with
  | SetHeader _ _ | Send _ _ | Write _ | EndResponse => true
  | _ => false
  end.

Definition console_lines (es : list effect) : list line :=
  flat_map (fun e => match e with Console l => [l] | _ => [] end) es.

(** The probe throws, times out, or answers with a status of 400 or more. *)
Definition probe_fails (r : reply) : bool :=
  match r with
  | NetworkError _ | TimedOut => true
  | Answer status _ => (400 <=? status)%nat
  end.

Definition is_probe_settled (ev : event) : bool :=
  match ev with ProbeSettled _ => true | _ => false end.

(** The world [cleanup] leaves. *)
Definition cleaned (w : world) : world := snd (cleanup w).

(** The world the guarded answer
    [if (!res.headersSent) res.status(code).send(body)] leaves. *)
Definition answered (code : nat) (body : jsstring) (w : world) : world :=
  if headersSent (res w) then w
  else emit (Send code body) (set_res (Response code true true (headers (res w))) w).

(** The world after the optional line for the diagnostic output of the
    engine: [if (stderr) console.error('FFmpeg stderr:', stderr)]. *)
Definition stderr_logged (stderr : option jsstring) (w : world) : world :=
  match stderr with
  | Some text => if truthy_string text then emit (Console (error_ffmpeg_stderr text)) w else w
  | None => w
  end.

(** The commands [cleanup] leaves: the one held in [ffmpegCommand] is
    killed when it was running and the signal could be delivered. *)
Definition commands_after_cleanup (w : world) : list proc_status :=
  match ffmpegCommand w with
  | Some h =>
      match kill_throws (env w) (status_of h w), status_of h w with
      | None, Running => replace_nth h Killed (commands w)
      | _, _ => commands w
      end
  | None => commands w
  end.

Definition kills_after_cleanup (w : world) : list (handle * jsstring) :=
  kills w ++ match ffmpegCommand w with
             | Some h => [(h, "SIGKILL" : jsstring)]
             | None => []
             end.

(** The world without the record of the calls of [kill]: that record is
    kept for the properties only, everything else can be observed. *)
Definition forget_kills (w : world) : world :=
  World (env w) (isClientConnected w) (ffmpegCommand w) (waiting w) (on_close_registered w)
    (on_input_registered w) (on_engine_registered w) (res w) (commands w) (piped w)
    (out w) [] (crashed w).

(** The contract of the engine library: [kill] is safe on a process that
    is not running. *)
Definition safe_when_down (P : platform) : Prop :=
  forall st, st <> Running -> kill_throws P st = None.

(** What holds of the world of a request at every moment: nothing has
    crashed; while the function is suspended nothing has been sent and no
    command exists; and there is either no command at all, or the single
    command held in [ffmpegCommand], with its listeners registered and its
    output piped to the response unless starting it failed and the response
    was ended. *)
Definition consistent (w : world) : Prop :=
  crashed w = None
  /\ (waiting w <> Returned ->
      on_input_registered w = false /\ headersSent (res w) = false /\ commands w = [])
  /\ ((commands w = [] /\ ffmpegCommand w = None /\ piped w = None
       /\ on_engine_registered w = false)
      \/ exists st,
           commands w = [st] /\ ffmpegCommand w = Some 0
           /\ on_engine_registered w = true /\ waiting w = Returned
           /\ (piped w = Some (0, true)
               \/ (piped w = None /\ st = NotStarted /\ finished (res w) = true))).

(** A statement run from a world satisfying [Pre] ends normally in a world
    satisfying [Post], or throws in a world satisfying [Exc]. *)
Definition triple {A} (Pre : world -> Prop) (m : M A)
    (Post : A -> world -> Prop) (Exc : exn -> world -> Prop) : Prop :=
  forall w, Pre w ->
    match m w with
    | (Ok a, w') => Post a w'
    | (Throw e, w') => Exc e w'
    end.

(** The worlds inside the last piece of the [try] block: nothing has
    crashed or been sent, nothing is awaited or piped, and the commands, the
    variable [ffmpegCommand] and the registration of the engine listeners
    are as given. *)
Definition shape (cs : list proc_status) (cmd : option handle) (engine : bool)
    (w : world) : Prop :=
  crashed w = None /\ waiting w = Returned /\ headersSent (res w) = false
  /\ piped w = None /\ commands w = cs /\ ffmpegCommand w = cmd
  /\ on_engine_registered w = engine.

(** What a request has done to the response, to the engine and upstream. *)
Definition footprint (w : world)
  : response * list proc_status * list (handle * jsstring)
    * list effect * list effect * list effect :=
  (res w, commands w, kills w,
   filter on_response (out w), filter is_request (out w), filter is_spawn (out w)).

(** The handler is suspended on the probe: only the listener for the
    disconnection of the client may be registered. *)
Definition awaiting_probe (videoUrl : jsstring) (w : world) : Prop :=
  waiting w = AwaitProbe videoUrl /\ on_input_registered w = false
  /\ on_engine_registered w = false /\ piped w = None /\ ffmpegCommand w = None.

(** A request that is over without an engine: nothing is awaited, no
    listener of the input stream or of the engine is registered, nothing is
    piped. *)
Definition inert (w : world) : Prop :=
  waiting w = Returned /\ on_input_registered w = false
  /\ on_engine_registered w = false /\ piped w = None /\ commands w = [].

(** *** The response seen from its trace *)

(** What one effect does to a response object; [None] when the response
    refuses it: a header set or an answer sent once the headers are out, a
    write or an end once the response has ended. *)
Definition replay_effect (r : response) (e : effect) : option response :=
  match e with
  | SetHeader name value =>
      if headersSent r then None
      else Some (Response (statusCode r) (headersSent r) (finished r)
                   (headers r ++ [(name, value)]))
  | Send code _ =>
      if headersSent r then None else Some (Response code true true (headers r))
  | Write _ =>
      if finished r then None
      else Some (Response (statusCode r) true (finished r) (headers r))
  | EndResponse =>
      if finished r then None else Some (Response (statusCode r) true true (headers r))
  | _ => Some r
  end.

(** The response object a trace leads to from [r], when every effect of
    the trace was accepted. *)
Definition replay (r : response) (es : list effect) : option response :=
  fold_left (fun acc e => match acc with Some r' => replay_effect r' e | None => None end)
    es (Some r).

(** The response object is the one its trace leads to from a new response. *)
Definition orderly (w : world) : Prop :=
  replay (Response 200 false false []) (out w) = Some (res w).

(** The body of a streamed response: its chunks and its end. *)
Definition is_body (e : effect) : bool :=
  match e with Write _ | EndResponse => true | _ => false end.

(** *** What a request asks for *)

(** What a request asks of the upstream server and of the engine. *)
Definition upstream (es : list effect) : list effect :=
  filter (fun e => is_request e || is_spawn e) es.

(** The two requests and the engine of a request for [videoUrl], in the
    order of the handler. *)
Definition upstream_plan (videoUrl : jsstring) : list effect :=
  [Request HEAD videoUrl 5000; Request GET videoUrl 0; Spawn 0 outputOptions].

(** The function has returned with the first [k] steps of the plan done. *)
Definition at_stage (k : nat) (videoUrl : jsstring) (w : world) : Prop :=
  waiting w = Returned /\ upstream (out w) = firstn k (upstream_plan videoUrl).

(** The steps done are the ones the suspension point accounts for. *)
Definition on_plan (videoUrl : jsstring) (w : world) : Prop :=
  match waiting w with
  | AwaitProbe u => u = videoUrl /\ upstream (out w) = firstn 1 (upstream_plan videoUrl)
  | AwaitOpen u _ => u = videoUrl /\ upstream (out w) = firstn 2 (upstream_plan videoUrl)
  | Returned => exists k, upstream (out w) = firstn k (upstream_plan videoUrl)
  end.

(** [req.query.url] once it passed the check. *)
Definition videoUrl_of (url : option jsstring) : jsstring :=
  match url with Some u => u | None => [] end.

(** *** The start of the engine *)

Definition is_open_settled (ev : event) : bool :=
  match ev with OpenSettled _ => true | _ => false end.

(** The handler is suspended on the opening of the stream: as on the
    probe, only the listener for the disconnection of the client may be
    registered. *)
Definition awaiting_open (videoUrl originalFileName : jsstring) (w : world) : Prop :=
  waiting w = AwaitOpen videoUrl originalFileName /\ on_input_registered w = false
  /\ on_engine_registered w = false /\ piped w = None /\ ffmpegCommand w = None.

(** The value of the [Content-Disposition] header of the answer. *)
Definition disposition (originalFileName : jsstring) : jsstring :=
  "attachment; filename=" ++ [dquote] ++ ("compressed_" ++ originalFileName) ++ [dquote].

(** *** The lines about the engine *)

(** The lines that report on the engine to a connected client's log: its
    progress, its error and its diagnostic output. *)
Definition is_engine_report (e : effect) : bool :=
  match e with
  | Console (log_processing _) | Console (error_ffmpeg _)
  | Console (error_ffmpeg_stderr _) => true
  | _ => false
  end.

Definition engine_reports (es : list effect) : list effect := filter is_engine_report es.

(** The client is gone and the lines about the engine are [reports]. *)
Definition silent (reports : list effect) (w : world) : Prop :=
  isClientConnected w = false /\ engine_reports (out w) = reports.

(** *** The calls of [kill] *)

(** Every call of [kill] so far was [kill('SIGKILL')] on command 0, the
    variable [ffmpegCommand] holds that command or none, and no call was made
    while it held none. *)
Definition kills_accounted (w : world) : Prop :=
  Forall (fun k => k = (0, "SIGKILL" : jsstring)) (kills w)
  /\ match ffmpegCommand w with
     | None => kills w = []
     | Some h => h = 0
     end.

(** *** The [catch] block and [cleanup] *)

(** The line the [catch] block writes. *)
Definition is_caught (e : effect) : bool :=
  match e with Console (error_caught _) => true | _ => false end.

(** How many times the [catch] block has run. *)
Definition caught (w : world) : nat := length (filter is_caught (out w)).

(** [cleanup] was called once between [w] and [w']: [kill('SIGKILL')] was
    called on the command held in [ffmpegCommand], when there is one. *)
Definition cleanup_called (w w' : world) : Prop :=
  kills w' = kills w ++ match ffmpegCommand w' with
                        | Some h => [(h, "SIGKILL" : jsstring)]
                        | None => []
                        end.

(** The calls of [kill] and the runs of the [catch] block so far. *)
Definition tally (K : list (handle * jsstring)) (c : nat) (w : world) : Prop :=
  kills w = K /\ caught w = c.

(** Since the tally [K], [c], either nothing of the two happened, or the
    [catch] block ran once and called [cleanup]. *)
Definition settled_since (K : list (handle * jsstring)) (c : nat) (w : world) : Prop :=
  tally K c w
  \/ (caught w = S c
      /\ kills w = K ++ match ffmpegCommand w with
                        | Some h => [(h, "SIGKILL" : jsstring)]
                        | None => []
                        end).

(** *** Where the headers of a response come from *)

(** The headers have not been sent, or an answer sent them and ended the
    response, or the pipe sent them for an engine that was started. *)
Definition headers_accounted (w : world) : Prop :=
  headersSent (res w) = false
  \/ finished (res w) = true
  \/ (piped w = Some (0, true) /\ status_of 0 w <> NotStarted).

(** Nothing has been sent yet. *)
Definition unsent (w : world) : Prop := headersSent (res w) = false.

End Relay.

(** ** The earlier variant of the handler

    The other [index.js] has the same [getFileName] and the same check of
    the [url] parameter, but it keeps no flag for the client, holds no
    reference to the command and has no [cleanup]; its requests have no
    timeout, and it announces the size of the input when the probe gave it. *)

Module Basic.

Import Relay.

(** [response.data.on('error', ...)] *)
Definition on_input_error (error : exn) : M unit :=
  console (error_input_stream error) ;;
  sent <~ read (fun w => headersSent (res w)) ;;
  when (negb sent) (status_send 500 "Error processing video stream").

(** [.on('progress', ...)]: [progress.percent] is read without a guard. *)
Definition on_progress (p : option progress) : M unit :=
  pc <~ lift (get_percent p) ;;
  console (log_percent pc).

(** [.on('error', (err, stdout, stderr) => ...)] *)
Definition on_engine_error (err : exn) (stderr : option jsstring) : M unit :=
  console (error_ffmpeg_value err) ;;
  console (error_ffmpeg_stderr_value stderr) ;;
  sent <~ read (fun w => headersSent (res w)) ;;
  when (negb sent) (status_send 500 "Compression failed").

(** [.on('end', ...)] *)
Definition on_end : M unit := console log_compression_finished.

(** The [catch (error)] block. *)
Definition catch_block (error : exn) : M unit :=
  console (error_caught (message error)) ;;
  sent <~ read (fun w => headersSent (res w)) ;;
  when (negb sent) (status_send 500 ("Failed to process video: " ++ message error)).

(** The callbacks that end a request in this variant. *)
Inductive termination_path : M unit -> Prop :=
| natural_completion : termination_path on_end
| engine_error (err : exn) (stderr : option jsstring) :
    termination_path (on_engine_error err stderr)
| input_stream_error (e : exn) : termination_path (on_input_error e)
| caught_exception (e : exn) : termination_path (catch_block e).

(** *** The handler of this variant *)

Definition outputOptions : list jsstring :=
  [ "-preset fast" : jsstring; "-threads 2" : jsstring; "-tile-columns 2" : jsstring;
    "-frame-parallel 1" : jsstring; "-cpu-used 4" : jsstring; "-crf 30" : jsstring;
    "-maxrate 1500k" : jsstring; "-bufsize 2000k" : jsstring;
    "-movflags frag_keyframe+empty_moov+faststart" : jsstring; "-g 30" : jsstring;
    "-sc_threshold 0" : jsstring; "-tune fastdecode" : jsstring ].

(** [command.pipe(res, { end: end_ })], with the output options of this
    variant. *)
Definition pipe (h : handle) (end_ : bool) : M unit :=
  fun w =>
    match pipe_fault (env w) with
    | Some e => (Throw e, w)
    | None =>
        (Ok tt, emit (Spawn h outputOptions) (set_piped (Some (h, end_)) (set_status h Running w)))
    end.

(** A piece of the [try] block, with the [catch] block of this variant. *)
Definition in_try {A} (body : M A) (otherwise : A) : M A :=
  update (set_waiting Returned) ;;
  try_ body (fun e => catch_block e ;; ret otherwise).

(** From the arrival of the request to the first [await]: no listener is
    registered on the request, and the HEAD request has no timeout. *)
Definition compress (url : option jsstring) : M unit :=
  if negb (truthy url) then status_send 400 "Missing video URL"
  else
    let videoUrl := match url with Some u => u | None => [] end in
    in_try (update (emit (Request HEAD videoUrl 0)) ;;
            update (set_waiting (AwaitProbe videoUrl))) tt.

(** From the answer to the HEAD request to the second [await]; the value
    is the handler's local [contentLength]. *)
Definition after_probe (videoUrl : jsstring) (r : reply) : M (option jsstring) :=
  in_try (headResponse <~ lift (axios_settle 0 r) ;;
          P <~ read env ;;
          originalFileName <~
            lift (getFileName (URL_pathname P) (content_disposition headResponse) videoUrl) ;;
          update (emit (Request GET videoUrl 0)) ;;
          update (set_waiting (AwaitOpen videoUrl originalFileName)) ;;
          ret (content_length headResponse)) None.

(** The state of a request of this variant: the world, and the local
    [contentLength] the handler keeps across the second [await]. *)
Record state : Type := State { base : world; contentLength : option jsstring }.

Section Handler.

(** [Math.floor(contentLength * 0.7)] as it is written into the header:
    the product is taken on doubles, after the conversion of the header text
    to a number, and is left to the platform. *)
Variable estimate : jsstring -> jsstring.

(** [if (contentLength) { ... }] *)
Definition size_headers (contentLength : option jsstring) : M unit :=
  match contentLength with
  | Some len =>
      when (truthy_string len)
        (setHeader "X-Original-Size" len ;;
         setHeader "X-Estimated-Size" (estimate len))
  | None => ret tt
  end.

(** From the answer to the GET request to the end of the [try] block. *)
Definition after_open (videoUrl originalFileName : jsstring)
    (contentLength : option jsstring) (r : reply) : M unit :=
  in_try (response <~ lift (axios_settle 0 r) ;;
          let compressedFileName := "compressed_" ++ originalFileName in
          setHeader "Content-Disposition"
            ("attachment; filename=" ++ [dquote] ++ compressedFileName ++ [dquote]) ;;
          setHeader "Content-Type" "video/mp4" ;;
          size_headers contentLength ;;
          update (fun w => set_listeners (on_close_registered w) true (on_engine_registered w) w) ;;
          h <~ ffmpeg ;;
          update (fun w => set_listeners (on_close_registered w) (on_input_registered w) true w) ;;
          pipe h true) tt.

(** A callback leaves [contentLength] as it is. *)
Definition keep (contentLength : option jsstring) (m : M unit) : M (option jsstring) :=
  m ;; ret contentLength.

(** The code an event runs; the disconnection of the client has no
    listener in this variant. *)
Definition deliver (ev : event) (s : state) : option (M (option jsstring)) :=
  let w := base s in
  let len := contentLength s in
  match ev with
  | ProbeSettled r =>
      match waiting w with AwaitProbe u => Some (after_probe u r) | _ => None end
  | OpenSettled r =>
      match waiting w with
      | AwaitOpen u n => Some (keep len (after_open u n len r))
      | _ => None
      end
  | ClientClose => None
  | InputError e =>
      if on_input_registered w then Some (keep len (on_input_error e)) else None
  | EngineStart c => if on_engine_registered w then Some (keep len (on_start c)) else None
  | EngineProgress p =>
      if on_engine_registered w then Some (keep len (on_progress p)) else None
  | EngineError err stderr =>
      if on_engine_registered w then Some (keep len (on_engine_error err stderr)) else None
  | EngineEnd => if on_engine_registered w then Some (keep len on_end) else None
  | EngineData chunk => Some (keep len (forward chunk))
  | EngineExit => Some (keep len exits)
  | OutputEnd => Some (keep len output_ends)
  end.

Definition settle (m : M (option jsstring)) (s : state) : state :=
  match m (base s) with
  | (Ok len, w') => State w' len
  | (Throw e, w') => State (set_crashed e w') (contentLength s)
  end.

Definition step (s : state) (ev : event) : state :=
  match crashed (base s) with
  | Some _ => s
  | None =>
      match deliver ev s with
      | Some m => settle m s
      | None => s
      end
  end.

Definition run (s : state) (evs : list event) : state := fold_left step evs s.

End Handler.

(** A request for [/compress] with the given [url] query parameter. *)
Definition serve (P : platform) (url : option jsstring) : state :=
  State (Relay.settle (compress url) (fresh P)) None.


(** Command [h] is running and the calls of [kill] are [K]. *)
Definition still_running (h : handle) (K : list (handle * jsstring)) (w : world) : Prop :=
  status_of h w = Running /\ kills w = K.

(** A statement that keeps [Q], whether it ends normally or throws. *)
Definition keeps {A} (Q : world -> Prop) (m : M A) : Prop :=
  triple Q m (fun _ => Q) (fun _ => Q).

End Basic.

(** A header parameter value in double quotes. *)
Definition quoted (s : jsstring) : jsstring := [dquote] ++ s ++ [dquote].

(** ** Vocabulary of the properties *)

(** [s.endsWith(suffix)] *)
Definition ends_with (s suffix : jsstring) : bool :=
  RegExp.starts_with (rev suffix) (rev s).

(** The name ends in one of the recognised video extensions. *)
Definition video_extension (name : jsstring) : bool :=
  existsb (ends_with name) videoExts.

(** The resolver returned a non-empty name with a video extension. *)
Definition video_name (r : result jsstring) : bool :=
  match r with
  | Ok name => truthy_string name && video_extension name
  | Throw _ => false
  end.

Definition is_quote (c : ascii) : bool := RegExp.in_class [squote; dquote] c.

(** ** Sample inputs for the examples *)

Module Sample.

Import Relay.

(** A platform on which nothing fails. *)
Definition cooperative : platform :=
  Platform sample_pathname (fun _ => None) None None.

(** A platform on which the kill signal cannot be delivered. *)
Definition refusing : platform :=
  Platform sample_pathname (fun _ => Some (Error "kill EPERM")) None None.

Definition url : jsstring := "http://example.com/media/movie.webm".

Definition found : reply :=
  Answer 200 (UpstreamHeaders (Some ("1048576" : jsstring)) (Some ("video/webm" : jsstring)) None).

Definition unavailable : reply :=
  Answer 503 (UpstreamHeaders None None None).

(** The request is served up to the first bytes of the answer. *)
Definition streaming : list event :=
  [ProbeSettled found; OpenSettled found; EngineStart "ffmpeg -i pipe:0";
   EngineProgress None; EngineData "ftyp"].

(** The client then goes away and the engine reports its end by an error. *)
Definition interrupted : list event :=
  streaming ++ [ClientClose; EngineData "moof"].

Definition killed : exn := Error "ffmpeg was killed with signal SIGKILL".

(** A platform on which building the engine command throws. *)
Definition unbuildable : platform :=
  Platform sample_pathname (fun _ => None) (Some (Error "Invalid size specified")) None.

(** A platform on which starting the engine command throws. *)
Definition unstartable : platform :=
  Platform sample_pathname (fun _ => None) None
    (Some (Error "Only one output stream is supported")).

End Sample.

(** * Properties *)

(** ** Scanning paths *)

Section PathFacts.

Import path.

Lemma firstn_snoc {A} (d : A) : forall (l : list A) k,
  k < length l -> firstn (S k) l = firstn k l ++ [nth k l d].
Proof.
  induction l as [|a l IH]; intros k Hk; simpl in Hk.
  - lia.
  - destruct k as [|k]; [reflexivity|].
    change (firstn (S (S k)) (a :: l)) with (a :: firstn (S k) l).
    rewrite IH by lia. reflexivity.
Qed.

Lemma nth_after_skipn {A} (d : A) : forall (l : list A) s k,
  nth k (skipn s l) d = nth (s + k) l d.
Proof.
  induction l as [|a l IH]; intros s k.
  - rewrite skipn_nil. destruct k, s; reflexivity.
  - destruct s as [|s]; [reflexivity|]. simpl. apply IH.
Qed.

(** A non-empty slice ends with the code unit just before its end index. *)
Lemma slice_snoc (p : jsstring) (s e : nat) :
  s < e -> e <= length p ->
  exists l, slice p s e = l ++ [charCodeAt p (e - 1)].
Proof.
  intros Hse He. unfold slice, charCodeAt.
  destruct (e - s) as [|k] eqn:Hk; [lia|].
  exists (firstn k (skipn s p)).
  rewrite (firstn_snoc Ascii.zero) by (rewrite length_skipn; lia).
  rewrite nth_after_skipn. do 3 f_equal. lia.
Qed.

Lemma slice_to_the_end (p : jsstring) (s : nat) :
  slice p s (length p) = skipn s p.
Proof.
  unfold slice. rewrite <- (length_skipn s p). apply firstn_all.
Qed.

(** Once the end of the component is found, the scan of [basename] keeps
    it; the start it reports is the initial one or lies in the part scanned. *)
Lemma basename_loop_end_found (p : jsstring) : forall n st e,
  b_end st = Some e ->
  b_end (basename_loop p n st) = Some e
  /\ (b_start (basename_loop p n st) = b_start st \/ b_start (basename_loop p n st) <= n).
Proof.
  induction n as [|i IH]; intros st e He; simpl.
  - auto.
  - destruct (Ascii.eqb (charCodeAt p i) CHAR_FORWARD_SLASH).
    + destruct (negb (b_matchedSlash st)); simpl.
      * split; [assumption | right; lia].
      * destruct (IH st e He) as [H1 [H2|H2]]; auto.
    + rewrite He. destruct (IH st e He) as [H1 [H2|H2]]; auto.
Qed.

Lemma basename_loop_scan (p : jsstring) : forall n st,
  b_end st = None -> b_matchedSlash st = true ->
  b_end (basename_loop p n st) = None
  \/ exists e, b_end (basename_loop p n st) = Some e
       /\ 1 <= e <= n
       /\ charCodeAt p (e - 1) <> CHAR_FORWARD_SLASH
       /\ (b_start (basename_loop p n st) = b_start st
           \/ b_start (basename_loop p n st) < e).
Proof.
  induction n as [|i IH]; intros st He Hm; simpl.
  - auto.
  - destruct (Ascii.eqb_spec (charCodeAt p i) CHAR_FORWARD_SLASH) as [Hc|Hc].
    + rewrite Hm. simpl.
      destruct (IH st He Hm) as [H|(e & H1 & H2 & H3 & H4)]; [auto|].
      right. exists e. repeat split; auto; lia.
    + rewrite He. right. exists (i + 1).
      destruct (basename_loop_end_found p i
                  (BasenameState (b_start st) (Some (i + 1)) false) (i + 1) eq_refl)
        as [H1 H2].
      simpl in H2. split; [assumption|]. split; [lia|]. split.
      * replace (i + 1 - 1) with i by lia. assumption.
      * destruct H2; [left; assumption | right; lia].
Qed.

(** The last component of a path is empty or ends with a code unit that is
    not a separator. *)
Lemma basename_shape (p : jsstring) :
  basename p = [] \/ exists l c, basename p = l ++ [c] /\ c <> CHAR_FORWARD_SLASH.
Proof.
  unfold basename.
  destruct (basename_loop_scan p (length p) (BasenameState 0 None true) eq_refl eq_refl)
    as [H|(e & H1 & H2 & H3 & H4)].
  - rewrite H. auto.
  - rewrite H1. right. simpl in H4.
    destruct (slice_snoc p (b_start (basename_loop p (length p) (BasenameState 0 None true))) e)
      as [l Hl]; [lia | lia |].
    exists l, (charCodeAt p (e - 1)). auto.
Qed.

Lemma see_unit_end (c : ascii) (i : nat) (st : extname_state) :
  e_end (see_unit c i st) = match e_end st with Some e => Some e | None => Some (i + 1) end.
Proof.
  unfold see_unit.
  destruct (e_end st) eqn:He; destruct (Ascii.eqb c CHAR_DOT);
    cbn [startDot e_end preDotState];
    try rewrite He;
    repeat match goal with
           | |- context [match ?x with _ => _ end] => destruct x
           end; cbn [e_end]; try rewrite He; reflexivity.
Qed.

Lemma extname_loop_end_found (p : jsstring) : forall n st e,
  e_end st = Some e -> e_end (extname_loop p n st) = Some e.
Proof.
  induction n as [|i IH]; intros st e He; simpl; [assumption|].
  destruct (Ascii.eqb (charCodeAt p i) CHAR_FORWARD_SLASH).
  - destruct (negb (matchedSlash st)); [assumption | apply IH; assumption].
  - apply IH. rewrite see_unit_end, He. reflexivity.
Qed.

(** The extension of a name that does not end with a separator is empty
    or a suffix of the name. *)
Lemma extname_suffix (l : jsstring) (c : ascii) :
  c <> CHAR_FORWARD_SLASH ->
  extname (l ++ [c]) = [] \/ exists stem, l ++ [c] = stem ++ extname (l ++ [c]).
Proof.
  intros Hc. unfold extname.
  set (p := l ++ [c]).
  assert (Hlen : length p = S (length l)) by (unfold p; rewrite length_app; simpl; lia).
  assert (Hend : e_end (extname_loop p (length p) (ExtnameState None 0 None true 0%Z))
                 = Some (length p)).
  { rewrite Hlen. cbn [extname_loop].
    assert (Hlast : charCodeAt p (length l) = c).
    { unfold charCodeAt, p. rewrite app_nth2 by lia. rewrite Nat.sub_diag. reflexivity. }
    rewrite Hlast. destruct (Ascii.eqb_spec c CHAR_FORWARD_SLASH) as [|_]; [contradiction|].
    apply extname_loop_end_found. rewrite see_unit_end. simpl. f_equal. lia. }
  destruct (startDot _) as [d|]; [|auto].
  rewrite Hend.
  destruct (_ || _); [auto|].
  right. exists (firstn d p). rewrite slice_to_the_end. symmetry. apply firstn_skipn.
Qed.

Lemma extname_of_empty : extname [] = [].
Proof. reflexivity. Qed.

(** The extension of the last component of a path is empty or a suffix of
    that component. *)
Lemma extname_basename_suffix (p : jsstring) :
  extname (basename p) = []
  \/ exists stem, basename p = stem ++ extname (basename p).
Proof.
  destruct (basename_shape p) as [H|(l & c & H & Hc)]; rewrite H.
  - left. apply extname_of_empty.
  - apply extname_suffix. assumption.
Qed.

End PathFacts.

(** ** The matcher

    The bound on the iterations of a star is never what stops them: any
    larger bound gives the same outcome. *)

Section MatcherFacts.

Import RegExp.

Lemma one_ext (p : ascii -> bool) : extensional (one p).
Proof.
  intros x c k1 k2 H. destruct x as [|a x]; simpl; [reflexivity|].
  destruct (p a); [apply H | reflexivity].
Qed.

Lemma repeat_matcher_ext m inner greedy :
  extensional m -> forall bound, extensional (repeat_matcher m inner greedy bound).
Proof.
  intros Hm. induction bound as [|b IH]; intros x c k1 k2 H; simpl; [apply H|].
  rewrite (H x c).
  rewrite (Hm x (clear inner c) _
             (fun y c' => if (length y <? length x)%nat
                          then repeat_matcher m inner greedy b y c' k2 else None)).
  - reflexivity.
  - intros y c'. destruct (length y <? length x)%nat; [apply IH, H | reflexivity].
Qed.

Lemma matcher_ext (r : regex) : extensional (matcher r).
Proof.
  induction r as [ |a| |cs|cs|r1 IH1 r2 IH2|r1 IH1 r2 IH2|g r IH|n r IH|n];
    intros x c k1 k2 H; simpl.
  - apply H.
  - apply one_ext, H.
  - apply one_ext, H.
  - apply one_ext, H.
  - apply one_ext, H.
  - apply IH1. intros y c'. apply IH2, H.
  - rewrite (IH1 x c k1 k2 H), (IH2 x c k1 k2 H). reflexivity.
  - apply repeat_matcher_ext; assumption.
  - apply IH. intros y c'. apply H.
  - destruct (capture n c); [|apply H].
    destruct (starts_with l x); [apply H | reflexivity].
Qed.

Lemma repeat_matcher_fails m inner greedy :
  extensional m -> fails_with m -> forall bound, fails_with (repeat_matcher m inner greedy bound).
Proof.
  intros Hext Hm. induction bound as [|b IH]; intros x c; simpl; [reflexivity|].
  rewrite (Hext x (clear inner c) _ (fun _ _ => None)).
  - rewrite Hm. destruct greedy; reflexivity.
  - intros y c'. destruct (length y <? length x)%nat; [apply IH | reflexivity].
Qed.

(** A pattern matches only through its continuation. *)
Lemma matcher_fails (r : regex) : fails_with (matcher r).
Proof.
  induction r as [ |a| |cs|cs|r1 IH1 r2 IH2|r1 IH1 r2 IH2|g r IH|n r IH|n];
    intros x c; simpl.
  - reflexivity.
  - destruct x as [|b x]; simpl; [|destruct (Ascii.eqb a b)]; reflexivity.
  - destruct x as [|b x]; simpl; [|destruct (negb (line_terminator b))]; reflexivity.
  - destruct x as [|b x]; simpl; [|destruct (in_class cs b)]; reflexivity.
  - destruct x as [|b x]; simpl; [|destruct (negb (in_class cs b))]; reflexivity.
  - rewrite (matcher_ext r1 x c _ (fun _ _ => None)); [apply IH1|].
    intros y c'. apply IH2.
  - rewrite IH1, IH2. reflexivity.
  - apply repeat_matcher_fails; [apply matcher_ext | assumption].
  - apply IH.
  - destruct (capture n c); [|reflexivity].
    destruct (starts_with l x); reflexivity.
Qed.

Lemma repeat_matcher_one_more m inner greedy :
  extensional m -> fails_with m ->
  forall bound x c k,
    length x <= bound ->
    repeat_matcher m inner greedy (S bound) x c k = repeat_matcher m inner greedy bound x c k.
Proof.
  intros Hext Hm. induction bound as [|b IH]; intros x c k Hlen.
  - destruct x; [|simpl in Hlen; lia].
    cbn [repeat_matcher].
    rewrite (Hext [] (clear inner c) _ (fun _ _ => None)) by reflexivity.
    rewrite Hm. destruct greedy; [reflexivity|]. destruct (k [] c); reflexivity.
  - cbn [repeat_matcher] in *.
    rewrite (Hext x (clear inner c) _
               (fun y c' => if (length y <? length x)%nat
                            then repeat_matcher m inner greedy b y c' k else None)).
    + reflexivity.
    + intros y c'. destruct (Nat.ltb_spec (length y) (length x)); [|reflexivity].
      apply IH. lia.
Qed.

(** [r*] with any bound that covers the input is [r*]. *)
Lemma star_bound_adequate (greedy : bool) (r : regex) (x : jsstring) (c : captures)
    (k : cont) (bound : nat) :
  length x <= bound ->
  repeat_matcher (matcher r) (groups_of r) greedy bound x c k = matcher (Star greedy r) x c k.
Proof.
  intros H. cbn [matcher].
  induction H as [|b Hle IH]; [reflexivity|].
  rewrite repeat_matcher_one_more; auto using matcher_ext, matcher_fails.
Qed.

(** *** The shapes the program's pattern is made of *)

Lemma clear_nothing (c : captures) : clear [] c = c.
Proof.
  unfold clear. induction c as [|e c IH]; simpl in *; [reflexivity|]. f_equal. assumption.
Qed.

Lemma orelse_none (a : outcome) : orelse a None = a.
Proof. destruct a; reflexivity. Qed.

Lemma matcher_literal (l x : jsstring) (c : captures) (k : cont) :
  matcher (Lit l) x c k = if starts_with l x then k (skipn (length l) x) c else None.
Proof.
  revert x. induction l as [|a l IH]; intros x; simpl; [reflexivity|].
  destruct x as [|b x]; simpl; [reflexivity|].
  destruct (Ascii.eqb a b); simpl; [apply IH | reflexivity].
Qed.

(** One step of a greedy star over a negated class. *)
Lemma greedy_run_step (cs : list ascii) (a : ascii) (x : jsstring) (c : captures) (k : cont) :
  matcher (Star true (NotClass cs)) (a :: x) c k
  = if negb (in_class cs a)
    then orelse (matcher (Star true (NotClass cs)) x c k) (k (a :: x) c)
    else k (a :: x) c.
Proof.
  cbn [matcher groups_of length repeat_matcher one]. rewrite clear_nothing.
  destruct (negb (in_class cs a)); [|reflexivity].
  rewrite (proj2 (Nat.ltb_lt (length x) (S (length x)))) by lia. reflexivity.
Qed.

Lemma greedy_run_end (cs : list ascii) (c : captures) (k : cont) :
  matcher (Star true (NotClass cs)) [] c k = k [] c.
Proof. reflexivity. Qed.

(** One step of a lazy star over [.]. *)
Lemma lazy_any_step (a : ascii) (x : jsstring) (c : captures) (k : cont) :
  matcher (Star false Any) (a :: x) c k
  = orelse (k (a :: x) c)
      (if negb (line_terminator a) then matcher (Star false Any) x c k else None).
Proof.
  cbn [matcher groups_of length repeat_matcher one]. rewrite clear_nothing.
  destruct (negb (line_terminator a)); [|reflexivity].
  rewrite (proj2 (Nat.ltb_lt (length x) (S (length x)))) by lia. reflexivity.
Qed.

Lemma lazy_any_end (c : captures) (k : cont) :
  matcher (Star false Any) [] c k = k [] c.
Proof. reflexivity. Qed.

Lemma span_app (p : ascii -> bool) (s : jsstring) :
  s = fst (span p s) ++ snd (span p s).
Proof.
  induction s as [|a s IH]; simpl; [reflexivity|].
  destruct (p a); [|reflexivity].
  destruct (span p s) as [run rest]. simpl in *. f_equal. assumption.
Qed.

(** A greedy run followed by something that cannot start inside the run
    ends where the run ends. *)
Lemma greedy_run_then (cs : list ascii) (k : cont) :
  (forall a y c, in_class cs a = false -> k (a :: y) c = None) ->
  forall x c,
    matcher (Star true (NotClass cs)) x c k
    = k (snd (span (fun a => negb (in_class cs a)) x)) c.
Proof.
  intros Hk. induction x as [|a x IH]; intros c; [reflexivity|].
  rewrite greedy_run_step. cbn [span].
  destruct (in_class cs a) eqn:Ha; cbn [negb]; [reflexivity|].
  rewrite (Hk a x c Ha), orelse_none, IH.
  destruct (span _ x) as [run rest]. reflexivity.
Qed.

(** A greedy run followed by something that always matches takes the
    whole run. *)
Lemma greedy_run_last (cs : list ascii) (k : cont) :
  (forall y c, k y c <> None) ->
  forall x c,
    matcher (Star true (NotClass cs)) x c k
    = k (snd (span (fun a => negb (in_class cs a)) x)) c.
Proof.
  intros Hk. induction x as [|a x IH]; intros c; [reflexivity|].
  rewrite greedy_run_step. cbn [span].
  destruct (in_class cs a) eqn:Ha; cbn [negb]; [reflexivity|].
  rewrite IH. destruct (span _ x) as [run rest]. cbn [snd].
  specialize (Hk rest c). destruct (k rest c); [reflexivity | contradiction].
Qed.

Lemma until_quote_split (q : ascii) : forall t inner,
  until_quote q t = Some inner ->
  t = inner ++ q :: skipn (S (length inner)) t.
Proof.
  induction t as [|a t IH]; intros inner H; simpl in H; [discriminate|].
  destruct (Ascii.eqb_spec q a) as [->|Hqa].
  - injection H as <-. reflexivity.
  - destruct (line_terminator a); [discriminate|].
    destruct (until_quote q t) as [inner'|] eqn:Hu; [|discriminate].
    injection H as <-. cbn [length app skipn]. f_equal. apply IH. reflexivity.
Qed.

(** The lazy [.*?] up to the back-reference stops at the first closing
    quote on the line. *)
Lemma lazy_until_backref (q : ascii) (K : cont) (c : captures) :
  capture 2 c = Some [q] ->
  (forall y c', K y c' <> None) ->
  forall t,
    matcher (Star false Any) t c (fun y c' => matcher (Backref 2) y c' K)
    = match until_quote q t with
      | Some inner => K (skipn (S (length inner)) t) c
      | None => None
      end.
Proof.
  intros Hc HK.
  assert (Hback : forall x, matcher (Backref 2) x c K
                            = if starts_with [q] x then K (skipn 1 x) c else None).
  { intros x. cbn [matcher]. rewrite Hc. reflexivity. }
  induction t as [|a t IH].
  - rewrite lazy_any_end, Hback. reflexivity.
  - rewrite lazy_any_step, Hback. cbn [starts_with until_quote skipn].
    destruct (Ascii.eqb q a); cbn [andb length skipn].
    + specialize (HK t c). destruct (K t c); [reflexivity | contradiction].
    + cbn [orelse]. destruct (line_terminator a); cbn [negb]; [reflexivity|].
      rewrite IH. destruct (until_quote q t); reflexivity.
Qed.

Lemma firstn_but_rest {A} (run rest : list A) :
  firstn (length (run ++ rest) - length rest) (run ++ rest) = run.
Proof.
  rewrite length_app.
  replace (length run + length rest - length rest) with (length run + 0) by lia.
  rewrite firstn_app_2. simpl. apply app_nil_r.
Qed.

Lemma span_firstn (p : ascii -> bool) (v : jsstring) :
  firstn (length v - length (snd (span p v))) v = fst (span p v).
Proof.
  pose proof (span_app p v) as H. destruct (span p v) as [run rest].
  simpl in *. subst v. apply firstn_but_rest.
Qed.

Lemma quoted_firstn (q : ascii) (t inner : jsstring) :
  until_quote q t = Some inner ->
  firstn (length (q :: t) - length (skipn (S (length inner)) t)) (q :: t)
  = q :: inner ++ [q].
Proof.
  intros H. apply until_quote_split in H.
  set (rest := skipn (S (length inner)) t) in *. clearbody rest. subst t.
  replace (q :: inner ++ q :: rest) with ((q :: inner ++ [q]) ++ rest)
    by (simpl; rewrite <- app_assoc; reflexivity).
  apply firstn_but_rest.
Qed.

Lemma matcher_seq (r1 r2 : regex) (x : jsstring) (c : captures) (k : cont) :
  matcher (Seq r1 r2) x c k = matcher r1 x c (fun y c' => matcher r2 y c' k).
Proof. reflexivity. Qed.

Lemma matcher_alt (r1 r2 : regex) (x : jsstring) (c : captures) (k : cont) :
  matcher (Alt r1 r2) x c k = orelse (matcher r1 x c k) (matcher r2 x c k).
Proof. reflexivity. Qed.

Lemma matcher_group (n : nat) (r : regex) (x : jsstring) (c : captures) (k : cont) :
  matcher (Group n r) x c k
  = matcher r x c (fun y c' => k y ((n, firstn (length x - length y) x) :: c')).
Proof. reflexivity. Qed.

Lemma matcher_class (cs : list ascii) (x : jsstring) (c : captures) (k : cont) :
  matcher (Class cs) x c k
  = match x with
    | [] => None
    | a :: x' => if in_class cs a then k x' c else None
    end.
Proof. reflexivity. Qed.

Lemma matcher_char (a : ascii) (x : jsstring) (c : captures) (k : cont) :
  matcher (Char a) x c k
  = match x with
    | [] => None
    | b :: x' => if Ascii.eqb a b then k x' c else None
    end.
Proof. reflexivity. Qed.

(** What group 1 captures. *)
Lemma value_captured (v : jsstring) (c : captures) :
  exists y c',
    matcher (Group 1 (Alt quoted_alternative bare_alternative)) v c
      (fun y c' => Some (y, c')) = Some (y, c')
    /\ capture 1 c' = Some (parameter_value v).
Proof.
  rewrite matcher_group.
  set (K := fun (y : jsstring) (c' : captures) =>
              Some (y, (1, firstn (length v - length y) v) :: c')).
  assert (HK : forall y c', K y c' <> None) by (intros; discriminate).
  assert (Hbare : exists y c',
             matcher bare_alternative v c K = Some (y, c')
             /\ capture 1 c' = Some (bare_value v)).
  { unfold bare_alternative. rewrite (greedy_run_last _ K HK). unfold K, bare_value.
    eexists. eexists. split; [reflexivity|]. cbn [capture Nat.eqb]. f_equal.
    apply span_firstn. }
  rewrite matcher_alt.
  unfold quoted_alternative at 1. rewrite matcher_seq, matcher_group, matcher_class.
  unfold parameter_value.
  destruct v as [|q t]; [exact Hbare|].
  destruct (in_class [squote; dquote] q); [|exact Hbare].
  rewrite matcher_seq.
  replace (length (q :: t) - length t) with 1 by (cbn [length]; lia). cbn [firstn].
  rewrite (lazy_until_backref q K ((2, [q]) :: c) eq_refl HK).
  destruct (until_quote q t) as [inner|] eqn:Hu; [|exact Hbare].
  unfold K at 1. cbn [orelse]. eexists. eexists. split; [reflexivity|].
  cbn [capture Nat.eqb]. f_equal.
  apply quoted_firstn. assumption.
Qed.

(** The pattern at one position. *)
Lemma pattern_at (x : jsstring) :
  match parameter_at x with
  | Some v => exists y c,
                matcher filename_pattern x [] (fun y c => Some (y, c)) = Some (y, c)
                /\ capture 1 c = Some v
  | None => matcher filename_pattern x [] (fun y c => Some (y, c)) = None
  end.
Proof.
  unfold filename_pattern, parameter_at.
  rewrite matcher_seq, matcher_literal.
  destruct (starts_with "filename" x); [|reflexivity].
  change (length (list_ascii_of_string "filename")) with 8.
  rewrite matcher_seq, greedy_run_then.
  2: { intros a y c Ha. rewrite matcher_seq, matcher_char.
       destruct (Ascii.eqb_spec "="%char a) as [<-|]; [discriminate Ha | reflexivity]. }
  rewrite matcher_seq, matcher_char.
  destruct (snd (span _ (skipn 8 x))) as [|a v]; [reflexivity|].
  destruct (Ascii.eqb "="%char a); [|reflexivity].
  apply (value_captured v []).
Qed.

(** The pattern extracts what the direct reading extracts. *)
Lemma exec_filename_pattern (x : jsstring) :
  match exec filename_pattern x with
  | Some m => nth_group 1 m
  | None => None
  end = first_parameter x.
Proof.
  induction x as [|a x IH].
  - cbn [exec first_parameter]. generalize (pattern_at []).
    destruct (parameter_at []) as [v|].
    + intros (y & c & -> & Hc). exact Hc.
    + intros ->. reflexivity.
  - cbn [exec first_parameter]. generalize (pattern_at (a :: x)).
    destruct (parameter_at (a :: x)) as [v|].
    + intros (y & c & -> & Hc). exact Hc.
    + intros ->. exact IH.
Qed.

End MatcherFacts.

Lemma header_token_direct (cd : jsstring) :
  header_token (Some cd)
  = if truthy_string cd then
      match first_parameter cd with
      | Some tok => if truthy_string tok then Some tok else None
      | None => None
      end
    else None.
Proof.
  unfold header_token. destruct (truthy_string cd); [|reflexivity].
  rewrite <- exec_filename_pattern.
  destruct (RegExp.exec filename_pattern cd); reflexivity.
Qed.

(** ** The filename resolver *)

Section ResolverFacts.

Variable URL_pathname : jsstring -> result jsstring.

Lemma starts_with_app (x y : jsstring) : RegExp.starts_with x (x ++ y) = true.
Proof.
  induction x as [|a x IH]; simpl; [reflexivity|].
  rewrite Ascii.eqb_refl. assumption.
Qed.

Lemma ends_with_app (stem suffix : jsstring) : ends_with (stem ++ suffix) suffix = true.
Proof. unfold ends_with. rewrite rev_app_distr. apply starts_with_app. Qed.

Lemma includes_In (xs : list jsstring) (x : jsstring) : includes xs x = true -> In x xs.
Proof.
  unfold includes. intros H. apply existsb_exists in H as (y & Hy & Heq).
  unfold string_eqb in Heq. destruct (list_eq_dec ascii_dec x y); [subst; assumption | discriminate].
Qed.

(** A name whose tail lower-cases to a recognised extension has, once
    lower-cased, a video extension. *)
Lemma video_extension_nocase (stem ext : jsstring) :
  In (toLowerCase ext) videoExts -> video_extension (toLowerCase (stem ++ ext)) = true.
Proof.
  intros H. unfold video_extension. apply existsb_exists.
  exists (toLowerCase ext). split; [assumption|].
  unfold toLowerCase. rewrite map_app. apply ends_with_app.
Qed.

(** The name built from the URL path. *)
Lemma url_name_is_video_name (urlPath : jsstring) :
  let fileName := path.basename urlPath in
  let ext := toLowerCase (path.extname fileName) in
  let name := if negb (truthy_string ext) || negb (includes videoExts ext)
              then fileName ++ ".mp4" else fileName in
  name <> [] /\ video_extension (toLowerCase name) = true.
Proof.
  cbv zeta.
  destruct (negb _ || negb _) eqn:Hc.
  - split.
    + intros H. apply app_eq_nil in H as [_ H]. discriminate.
    + apply video_extension_nocase. simpl. auto.
  - apply orb_false_elim in Hc as [H1 H2].
    apply negb_false_iff in H1, H2. apply includes_In in H2.
    destruct (extname_basename_suffix urlPath) as [He|[stem He]].
    + rewrite He in H1. discriminate.
    + split.
      * intros Hnil. rewrite Hnil in He. symmetry in He.
        apply app_eq_nil in He as [_ He]. rewrite Hnil, He in H1. discriminate.
      * rewrite He at 1. apply video_extension_nocase. assumption.
Qed.

Lemma remove_class_spec (cs : list ascii) (s : jsstring) (c : ascii) :
  In c (RegExp.remove_class cs s) <-> In c s /\ RegExp.in_class cs c = false.
Proof.
  unfold RegExp.remove_class. rewrite filter_In, negb_true_iff. reflexivity.
Qed.

(** What the resolver returns, by the branch taken. *)
Lemma getFileName_cases (cd : option jsstring) (url : jsstring) :
  getFileName URL_pathname cd url =
  Ok match header_token cd with
     | Some tok => RegExp.remove_class [squote; dquote] tok
     | None =>
         match URL_pathname url with
         | Ok urlPath =>
             let fileName := path.basename urlPath in
             let ext := toLowerCase (path.extname fileName) in
             if negb (truthy_string ext) || negb (includes videoExts ext)
             then fileName ++ ".mp4" else fileName
         | Throw _ => "video.mp4" : jsstring
         end
     end.
Proof.
  unfold getFileName, getFileName_try.
  destruct (header_token cd); [reflexivity|].
  destruct (URL_pathname url); reflexivity.
Qed.

(** C7, as amended: the resolver always returns a name.  When the header
    gives a name that holds a code unit other than a quote (the value of the
    first [filename] parameter found by reading the header from the left),
    the resolver returns that name without its quotes, whatever its
    extension: it is not empty, and nothing is appended to it.  When the
    header gives no name (no header, no such parameter, or an empty value),
    the name is non-empty and ends, letter case aside, in one of the
    recognised video extensions. *)
Theorem getFileName_video_name (cd : option jsstring) (url : jsstring) :
  exists name,
    getFileName URL_pathname cd url = Ok name
    /\ (forall header tok,
          cd = Some header -> first_parameter header = Some tok ->
          (exists c, In c tok /\ is_quote c = false) ->
          name = RegExp.remove_class [squote; dquote] tok /\ name <> [])
    /\ ((cd = None
         \/ exists header,
              cd = Some header
              /\ (first_parameter header = None \/ first_parameter header = Some [])) ->
        name <> [] /\ video_extension (toLowerCase name) = true).
Proof.
  rewrite getFileName_cases. eexists. split; [reflexivity|].
  assert (Hurl : (match URL_pathname url with
                  | Ok urlPath =>
                      let fileName := path.basename urlPath in
                      let ext := toLowerCase (path.extname fileName) in
                      if negb (truthy_string ext) || negb (includes videoExts ext)
                      then fileName ++ ".mp4" else fileName
                  | Throw _ => "video.mp4" : jsstring
                  end) <> []
                 /\ video_extension
                      (toLowerCase
                         (match URL_pathname url with
                          | Ok urlPath =>
                              let fileName := path.basename urlPath in
                              let ext := toLowerCase (path.extname fileName) in
                              if negb (truthy_string ext) || negb (includes videoExts ext)
                              then fileName ++ ".mp4" else fileName
                          | Throw _ => "video.mp4" : jsstring
                          end)) = true).
  { destruct (URL_pathname url) as [urlPath|e].
    - apply url_name_is_video_name.
    - split; [discriminate | reflexivity]. }
  split.
  - intros header tok -> Hp (c & Hc & Hq).
    rewrite header_token_direct.
    destruct header as [|a header]; [discriminate|]. cbn [truthy_string]. rewrite Hp.
    destruct tok as [|b tok]; [contradiction|]. cbn [truthy_string].
    split; [reflexivity|].
    intros Hnil.
    assert (Hin : In c (RegExp.remove_class [squote; dquote] (b :: tok))).
    { apply remove_class_spec. split; assumption. }
    rewrite Hnil in Hin. contradiction.
  - intros [->|(header & -> & Hp)]; [exact Hurl|].
    rewrite header_token_direct.
    destruct (truthy_string header); [|exact Hurl].
    destruct Hp as [-> | ->]; exact Hurl.
Qed.

(** C8: the resolver never throws, whatever the header value and the URL;
    whenever the body of its [try] block throws, and so whenever the URL has
    to be parsed and does not parse, it returns the fixed name video.mp4. *)
Theorem getFileName_never_throws (cd : option jsstring) (url : jsstring) :
  exists name,
    getFileName URL_pathname cd url = Ok name
    /\ (forall e, getFileName_try URL_pathname cd url = Throw e ->
                  name = ("video.mp4" : jsstring))
    /\ (forall e, header_token cd = None -> URL_pathname url = Throw e ->
                  name = ("video.mp4" : jsstring)).
Proof.
  unfold getFileName.
  destruct (getFileName_try URL_pathname cd url) as [name|e0] eqn:Htry; simpl.
  - exists name. split; [reflexivity|]. split.
    + intros e He. discriminate.
    + intros e Hh Hu. unfold getFileName_try in Htry. rewrite Hh, Hu in Htry. discriminate.
  - eexists. split; [reflexivity|]. split; reflexivity.
Qed.

(** C10: when a filename token is taken from the header, the resolver
    returns that token with every single and double quote removed, wherever
    it occurs, and nothing else changed: no quote is left in the name, every
    other code unit of the token is kept, and no extension is appended. *)
Theorem getFileName_header_name (cd : option jsstring) (url tok : jsstring) :
  header_token cd = Some tok ->
  exists name,
    getFileName URL_pathname cd url = Ok name
    /\ name = filter (fun c => negb (is_quote c)) tok
    /\ ~ In squote name /\ ~ In dquote name
    /\ (forall c, In c name <-> In c tok /\ c <> squote /\ c <> dquote).
Proof.
  intros Htok. rewrite getFileName_cases, Htok. eexists. split; [reflexivity|].
  split; [reflexivity|].
  assert (Hq : forall c, RegExp.in_class [squote; dquote] c = false
                         <-> c <> squote /\ c <> dquote).
  { intros c. unfold RegExp.in_class. simpl.
    destruct (Ascii.eqb_spec c squote), (Ascii.eqb_spec c dquote); simpl;
      split; intros H; try discriminate; try tauto; try (split; assumption). }
  split; [|split].
  - intros H. apply remove_class_spec in H as [_ H]. apply Hq in H. tauto.
  - intros H. apply remove_class_spec in H as [_ H]. apply Hq in H. tauto.
  - intros c. rewrite remove_class_spec, Hq. reflexivity.
Qed.

End ResolverFacts.

(** *** The resolver on concrete inputs *)

Example header_quoted_name :
  getFileName sample_pathname (Some ("attachment; filename=" ++ quoted "x.mkv"))
    "http://example.com/a/b"
  = Ok ("x.mkv" : jsstring).
Proof. vm_compute. reflexivity. Qed.

Example url_without_extension :
  getFileName sample_pathname None "http://example.com/media/clip"
  = Ok ("clip.mp4" : jsstring).
Proof. vm_compute. reflexivity. Qed.

Example url_with_video_extension :
  getFileName sample_pathname None "http://example.com/media/movie.webm?dl=1"
  = Ok ("movie.webm" : jsstring).
Proof. vm_compute. reflexivity. Qed.

Example url_with_other_extension :
  getFileName sample_pathname (Some ("inline" : jsstring)) "http://example.com/report.pdf"
  = Ok ("report.pdf.mp4" : jsstring).
Proof. vm_compute. reflexivity. Qed.

Example url_malformed :
  getFileName sample_pathname None "not a url" = Ok ("video.mp4" : jsstring).
Proof. vm_compute. reflexivity. Qed.

Example header_extended_parameter :
  getFileName sample_pathname (Some ("attachment; filename*=UTF-8''clip.mp4" : jsstring))
    "http://example.com/a"
  = Ok ("UTF-8clip.mp4" : jsstring).
Proof. vm_compute. reflexivity. Qed.

(** C7 as stated fails: a name taken from the header keeps its own
    extension and may even be empty, and a name taken from the URL keeps the
    letter case of its extension. *)
Lemma getFileName_video_name_counterexample :
  getFileName sample_pathname (Some ("attachment; filename=" ++ quoted "report.pdf"))
    "http://example.com/clip.mp4" = Ok ("report.pdf" : jsstring)
  /\ video_name (getFileName sample_pathname
                   (Some ("attachment; filename=" ++ quoted "report.pdf"))
                   "http://example.com/clip.mp4") = false
  /\ getFileName sample_pathname (Some ("attachment; filename=" ++ quoted []))
       "http://example.com/clip.mp4" = Ok []
  /\ video_name (getFileName sample_pathname (Some ("attachment; filename=" ++ quoted []))
                   "http://example.com/clip.mp4") = false
  /\ video_name (getFileName sample_pathname None "http://example.com/movie.WEBM") = false.
Proof. vm_compute. repeat split; reflexivity. Qed.

Lemma getFileName_video_name_witness :
  exists name,
    getFileName sample_pathname (Some ("attachment; filename=" ++ quoted "report.pdf"))
      "http://example.com/clip.mp4" = Ok name
    /\ name = ("report.pdf" : jsstring) /\ name <> [].
Proof.
  destruct (getFileName_video_name sample_pathname
              (Some ("attachment; filename=" ++ quoted "report.pdf"))
              "http://example.com/clip.mp4") as (name & Hname & Hheader & _).
  exists name. split; [exact Hname|].
  apply (Hheader ("attachment; filename=" ++ quoted "report.pdf") (quoted "report.pdf") eq_refl).
  - vm_compute. reflexivity.
  - exists "r"%char. split; [right; left; reflexivity | reflexivity].
Defined.

Lemma getFileName_header_name_witness :
  header_token (Some ("attachment; filename=it's-" ++ quoted "my" ++ "-clip.pdf; size=3"))
  = Some ("it's-" ++ quoted "my" ++ "-clip.pdf")
  /\ exists name,
       getFileName sample_pathname
         (Some ("attachment; filename=it's-" ++ quoted "my" ++ "-clip.pdf; size=3"))
         "http://example.com/clip" = Ok name
       /\ name = filter (fun c => negb (is_quote c)) ("it's-" ++ quoted "my" ++ "-clip.pdf")
       /\ ~ In squote name /\ ~ In dquote name
       /\ (forall c, In c name <->
                     In c ("it's-" ++ quoted "my" ++ "-clip.pdf")
                     /\ c <> squote /\ c <> dquote).
Proof.
  split.
  - vm_compute. reflexivity.
  - apply (getFileName_header_name sample_pathname
             (Some ("attachment; filename=it's-" ++ quoted "my" ++ "-clip.pdf; size=3"))
             "http://example.com/clip"
             ("it's-" ++ quoted "my" ++ "-clip.pdf")).
    vm_compute. reflexivity.
Defined.

Example header_name_quotes_inside :
  getFileName sample_pathname
    (Some ("attachment; filename=it's-" ++ quoted "my" ++ "-clip.pdf; size=3"))
    "http://example.com/clip"
  = Ok ("its-my-clip.pdf" : jsstring).
Proof. vm_compute. reflexivity. Qed.

Lemma getFileName_never_throws_witness :
  exists name,
    getFileName sample_pathname (Some ("attachment" : jsstring)) "not a url" = Ok name
    /\ (forall e, getFileName_try sample_pathname (Some ("attachment" : jsstring)) "not a url"
                  = Throw e -> name = ("video.mp4" : jsstring))
    /\ (forall e, header_token (Some ("attachment" : jsstring)) = None ->
                  sample_pathname "not a url" = Throw e ->
                  name = ("video.mp4" : jsstring)).
Proof.
  apply (getFileName_never_throws sample_pathname (Some ("attachment" : jsstring)) "not a url").
Defined.

(** ** The resolver read as a scan of the header *)

Section ResolverScan.

Variable URL_pathname : jsstring -> result jsstring.

Lemma first_parameter_here (s : jsstring) (v : jsstring) :
  parameter_at s = Some v -> first_parameter s = Some v.
Proof. intros H. destruct s; cbn [first_parameter]; rewrite H; reflexivity. Qed.

Lemma first_parameter_skips (pre s : jsstring) :
  ~ In "f"%char pre -> first_parameter (pre ++ s) = first_parameter s.
Proof.
  induction pre as [|a pre IH]; intros Hf; [reflexivity|].
  cbn [app first_parameter].
  assert (Ha : parameter_at (a :: pre ++ s) = None).
  { unfold parameter_at. cbn [list_ascii_of_string RegExp.starts_with].
    destruct (Ascii.eqb_spec "f"%char a) as [<-|_]; [|reflexivity].
    exfalso. apply Hf. left. reflexivity. }
  rewrite Ha. apply IH. intros H. apply Hf. right. assumption.
Qed.

Lemma until_quote_found (q : ascii) (name post : jsstring) :
  (forall c, In c name -> c <> q /\ RegExp.line_terminator c = false) ->
  until_quote q (name ++ q :: post) = Some name.
Proof.
  induction name as [|a name IH]; intros H; cbn [app until_quote].
  - rewrite Ascii.eqb_refl. reflexivity.
  - destruct (H a (or_introl eq_refl)) as [Ha Hlt].
    destruct (Ascii.eqb_spec q a) as [->|_]; [contradiction|].
    rewrite Hlt, IH; [reflexivity|].
    intros c Hc. apply H. right. assumption.
Qed.

Lemma remove_class_none (cs : list ascii) (s : jsstring) :
  (forall c, In c s -> RegExp.in_class cs c = false) -> RegExp.remove_class cs s = s.
Proof.
  induction s as [|a s IH]; intros H; [reflexivity|].
  unfold RegExp.remove_class in *. cbn [filter].
  rewrite (H a (or_introl eq_refl)). cbn [negb]. f_equal.
  apply IH. intros c Hc. apply H. right. assumption.
Qed.

Lemma span_all (p : ascii -> bool) (run rest : jsstring) :
  (forall c, In c run -> p c = true) ->
  match rest with [] => True | c :: _ => p c = false end ->
  span p (run ++ rest) = (run, rest).
Proof.
  induction run as [|a run IH]; intros Hrun Hrest; cbn [app].
  - destruct rest as [|c rest]; [reflexivity|]. cbn [span]. rewrite Hrest. reflexivity.
  - cbn [span]. rewrite (Hrun a (or_introl eq_refl)), IH; [reflexivity| |assumption].
    intros c Hc. apply Hrun. right. assumption.
Qed.

(** The parameter read at a place where [filename=] stands. *)
Lemma parameter_at_filename (v : jsstring) :
  parameter_at ("filename=" ++ v) = Some (parameter_value v).
Proof. reflexivity. Qed.

Lemma header_token_after (pre v : jsstring) :
  ~ In "f"%char pre ->
  header_token (Some (pre ++ "filename=" ++ v))
  = if truthy_string (parameter_value v) then Some (parameter_value v) else None.
Proof.
  intros Hf. rewrite header_token_direct.
  assert (Ht : truthy_string (pre ++ "filename=" ++ v) = true).
  { destruct pre; reflexivity. }
  rewrite Ht, first_parameter_skips by assumption.
  rewrite (first_parameter_here _ _ (parameter_at_filename v)). reflexivity.
Qed.

(** X1: the resolver on a header, read as a scan.  The name comes from
    the first place in the header where [filename], then code units other
    than [;], [=] and newline, then [=] stand: it is the text that follows up
    to the matching quote when it opens with a quote that is closed on the
    same line, and otherwise up to the next [;] or newline, with its quotes
    removed.  When there is no such place, or that text is empty, the header
    is ignored and the URL decides. *)
Theorem getFileName_by_scan (cd url : jsstring) :
  getFileName URL_pathname (Some cd) url
  = match first_parameter cd with
    | Some tok =>
        if truthy_string tok
        then Ok (RegExp.remove_class [squote; dquote] tok)
        else getFileName URL_pathname None url
    | None => getFileName URL_pathname None url
    end.
Proof.
  rewrite !getFileName_cases, header_token_direct.
  destruct cd as [|a cd].
  - reflexivity.
  - cbn [truthy_string]. destruct (first_parameter (a :: cd)) as [tok|]; [|reflexivity].
    destruct (truthy_string tok); reflexivity.
Qed.

(** X2: a quoted filename parameter comes back as it was written.  For a
    header made of any text without the letter f, then [filename=], then a
    name between two quotes of the same kind, then anything, the resolver
    returns the name, provided the name holds no quote and no line
    terminator.  An empty name between quotes comes back empty. *)
Theorem quoted_name_round_trip (q : ascii) (pre name post url : jsstring) :
  is_quote q = true ->
  ~ In "f"%char pre ->
  (forall c, In c name -> is_quote c = false /\ RegExp.line_terminator c = false) ->
  getFileName URL_pathname (Some (pre ++ "filename=" ++ q :: name ++ q :: post)) url
  = Ok name.
Proof.
  intros Hq Hpre Hname.
  assert (Hv : parameter_value (q :: name ++ q :: post) = q :: name ++ [q]).
  { unfold parameter_value. unfold is_quote in Hq. rewrite Hq.
    rewrite until_quote_found; [reflexivity|].
    intros c Hc. destruct (Hname c Hc) as [Hcq Hlt]. split; [|assumption].
    intros ->. unfold is_quote in Hcq. congruence. }
  rewrite getFileName_cases, header_token_after, Hv by assumption.
  cbn [truthy_string]. f_equal. unfold is_quote in Hq.
  unfold RegExp.remove_class. cbn [filter]. rewrite Hq. cbn [negb].
  rewrite filter_app. cbn [filter]. rewrite Hq. cbn [negb]. rewrite app_nil_r.
  apply remove_class_none. intros c Hc. apply Hname. assumption.
Qed.

(** X3: a bare filename parameter comes back as it was written.  For a
    header made of any text without the letter f, then [filename=], then a
    non-empty name, then nothing or a [;] or a newline and anything, the
    resolver returns the name, provided the name holds no quote, no [;] and
    no newline. *)
Theorem bare_name_round_trip (pre name post url : jsstring) :
  ~ In "f"%char pre ->
  name <> [] ->
  (forall c, In c name -> is_quote c = false /\ c <> ";"%char /\ c <> newline) ->
  match post with
  | [] => True
  | c :: _ => c = ";"%char \/ c = newline
  end ->
  getFileName URL_pathname (Some (pre ++ "filename=" ++ name ++ post)) url = Ok name.
Proof.
  intros Hpre Hne Hname Hpost.
  assert (Hv : parameter_value (name ++ post) = name).
  { assert (Hbare : bare_value (name ++ post) = name).
    { unfold bare_value. rewrite (span_all _ name post); [reflexivity| |].
      - intros c Hc. destruct (Hname c Hc) as (_ & H1 & H2).
        unfold RegExp.in_class. cbn [existsb].
        destruct (Ascii.eqb_spec c ";"%char); [contradiction|].
        destruct (Ascii.eqb_spec c newline); [contradiction|]. reflexivity.
      - destruct post as [|c post]; [exact I|].
        destruct Hpost as [->| ->]; reflexivity. }
    unfold parameter_value.
    destruct name as [|a name]; [contradiction|]. cbn [app] in *.
    destruct (Hname a (or_introl eq_refl)) as [Ha _]. unfold is_quote in Ha.
    rewrite Ha. exact Hbare. }
  rewrite getFileName_cases, header_token_after, Hv by assumption.
  destruct name as [|a name]; [contradiction|]. cbn [truthy_string]. f_equal.
  apply remove_class_none. intros c Hc. apply Hname. assumption.
Qed.

End ResolverScan.

(** ** Names taken from the URL *)

Section UrlNames.

Import path.

Variable URL_pathname : jsstring -> result jsstring.

Lemma In_firstn_nth {A} (d : A) (c : A) : forall (l : list A) k,
  In c (firstn k l) -> exists i, i < k /\ i < length l /\ nth i l d = c.
Proof.
  induction l as [|a l IH]; intros k H.
  - rewrite firstn_nil in H. contradiction.
  - destruct k as [|k]; [contradiction|]. cbn [firstn] in H.
    destruct H as [<-|H].
    + exists 0. cbn [length nth]. repeat split; lia.
    + destruct (IH k H) as (i & Hi & Hl & Hn).
      exists (S i). cbn [length nth]. repeat split; try lia. assumption.
Qed.

Lemma In_slice (p : jsstring) (s e : nat) (c : ascii) :
  In c (slice p s e) -> exists j, s <= j < e /\ c = charCodeAt p j.
Proof.
  unfold slice, charCodeAt. intros H.
  apply (In_firstn_nth Ascii.zero) in H as (i & Hi & _ & Hn).
  rewrite nth_after_skipn in Hn. exists (s + i). split; [lia | congruence].
Qed.

(** After the end of the component is found, the scan stops at the first
    separator: no separator lies between the start and the end it reports. *)
Lemma basename_loop_clean (p : jsstring) : forall n st e,
  b_end st = Some e -> b_matchedSlash st = false ->
  (forall j, n <= j < e -> charCodeAt p j <> CHAR_FORWARD_SLASH) ->
  b_end (basename_loop p n st) = Some e
  /\ ((b_start (basename_loop p n st) = b_start st
       /\ forall j, j < e -> charCodeAt p j <> CHAR_FORWARD_SLASH)
      \/ forall j, b_start (basename_loop p n st) <= j < e ->
                   charCodeAt p j <> CHAR_FORWARD_SLASH).
Proof.
  induction n as [|i IH]; intros st e He Hm Hclean; cbn [basename_loop].
  - split; [assumption|]. left. split; [reflexivity|]. intros j Hj. apply Hclean. lia.
  - destruct (Ascii.eqb_spec (charCodeAt p i) CHAR_FORWARD_SLASH) as [Hc|Hc].
    + rewrite Hm. cbn [negb b_end b_start]. split; [assumption|].
      right. intros j Hj. apply Hclean. lia.
    + rewrite He. apply IH; try assumption.
      intros j Hj. destruct (Nat.eq_dec j i) as [->|]; [assumption|]. apply Hclean. lia.
Qed.

Lemma basename_loop_range (p : jsstring) : forall n st,
  b_end st = None -> b_matchedSlash st = true ->
  b_end (basename_loop p n st) = None
  \/ exists e, b_end (basename_loop p n st) = Some e
       /\ ((b_start (basename_loop p n st) = b_start st
            /\ forall j, j < e -> charCodeAt p j <> CHAR_FORWARD_SLASH)
           \/ forall j, b_start (basename_loop p n st) <= j < e ->
                        charCodeAt p j <> CHAR_FORWARD_SLASH).
Proof.
  induction n as [|i IH]; intros st He Hm; cbn [basename_loop].
  - left. assumption.
  - destruct (Ascii.eqb_spec (charCodeAt p i) CHAR_FORWARD_SLASH) as [Hc|Hc].
    + rewrite Hm. cbn [negb]. apply IH; assumption.
    + rewrite He. right. exists (i + 1).
      apply (basename_loop_clean p i (BasenameState (b_start st) (Some (i + 1)) false)
               (i + 1) eq_refl eq_refl).
      intros j Hj. replace j with i by lia. assumption.
Qed.

(** The last component of a path holds no separator. *)
Lemma basename_no_slash (p : jsstring) : ~ In CHAR_FORWARD_SLASH (basename p).
Proof.
  unfold basename.
  destruct (basename_loop_range p (length p) (BasenameState 0 None true) eq_refl eq_refl)
    as [H|(e & H & Hrange)].
  - rewrite H. intros [].
  - rewrite H. intros Hin. apply In_slice in Hin as (j & Hj & Hc).
    cbn [b_start] in Hrange.
    destruct Hrange as [[_ Hall]|Hall]; apply (Hall j); try lia; congruence.
Qed.

Lemma basename_loop_slashes (p : jsstring) : forall n st,
  b_matchedSlash st = true ->
  (forall j, j < n -> charCodeAt p j = CHAR_FORWARD_SLASH) ->
  basename_loop p n st = st.
Proof.
  induction n as [|i IH]; intros st Hm Hall; cbn [basename_loop]; [reflexivity|].
  rewrite (Hall i) by lia. rewrite Ascii.eqb_refl, Hm. cbn [negb].
  apply IH; [assumption|]. intros j Hj. apply Hall. lia.
Qed.

Lemma basename_of_slashes (p : jsstring) :
  (forall c, In c p -> c = CHAR_FORWARD_SLASH) -> basename p = [].
Proof.
  intros H. unfold basename. rewrite basename_loop_slashes; [reflexivity|reflexivity|].
  intros j Hj. apply H. unfold charCodeAt. apply nth_In. assumption.
Qed.

(** X4: a name taken from the URL never holds a path separator: when the
    header gives no name and the URL parses, the name returned, with or
    without the appended [.mp4], contains no [/]. *)
Theorem url_name_has_no_separator (cd : option jsstring) (url urlPath name : jsstring) :
  header_token cd = None ->
  URL_pathname url = Ok urlPath ->
  getFileName URL_pathname cd url = Ok name ->
  ~ In "/"%char name.
Proof.
  intros Hh Hu. rewrite getFileName_cases, Hh, Hu. cbv zeta.
  intros Hname. injection Hname as <-.
  destruct (negb _ || negb _).
  - rewrite in_app_iff. intros [H|H].
    + exact (basename_no_slash urlPath H).
    + cbn in H. intuition discriminate.
  - apply basename_no_slash.
Qed.

(** X5: a URL whose path has no last component (an empty path or one made
    of separators only, as for the root of a site) gives the name [.mp4]. *)
Theorem url_without_component (cd : option jsstring) (url urlPath : jsstring) :
  header_token cd = None ->
  URL_pathname url = Ok urlPath ->
  (forall c, In c urlPath -> c = "/"%char) ->
  getFileName URL_pathname cd url = Ok (".mp4" : jsstring).
Proof.
  intros Hh Hu Hall. rewrite getFileName_cases, Hh, Hu. cbv zeta.
  rewrite (basename_of_slashes urlPath Hall). reflexivity.
Qed.

End UrlNames.

Lemma quoted_name_round_trip_witness :
  getFileName sample_pathname
    (Some ("attachment; " ++ "filename=" ++ dquote :: "my clip cut.mkv" ++ dquote :: "; size=3"))
    "http://example.com/other.mp4"
  = Ok ("my clip cut.mkv" : jsstring).
Proof.
  refine (quoted_name_round_trip sample_pathname dquote "attachment; " "my clip cut.mkv"
            "; size=3" "http://example.com/other.mp4" eq_refl _ _).
  - cbn. intuition discriminate.
  - intros c Hc. cbn in Hc.
    repeat (destruct Hc as [<-|Hc]; [split; reflexivity|]). contradiction.
Defined.

Lemma bare_name_round_trip_witness :
  getFileName sample_pathname
    (Some ("attachment; " ++ "filename=" ++ "clip one.mkv" ++ "; size=3"))
    "http://example.com/other.mp4"
  = Ok ("clip one.mkv" : jsstring).
Proof.
  refine (bare_name_round_trip sample_pathname "attachment; " "clip one.mkv" "; size=3"
            "http://example.com/other.mp4" _ _ _ _).
  - cbn. intuition discriminate.
  - discriminate.
  - intros c Hc. cbn in Hc.
    repeat (destruct Hc as [<-|Hc]; [repeat split; discriminate|]). contradiction.
  - left. reflexivity.
Defined.

Lemma url_name_has_no_separator_witness :
  ~ In "/"%char ("clip.mp4" : jsstring).
Proof.
  refine (url_name_has_no_separator sample_pathname None
            "http://example.com/media/2024/clip?x=1" "/media/2024/clip" "clip.mp4" _ _ _);
    vm_compute; reflexivity.
Defined.

Lemma url_without_component_witness :
  getFileName sample_pathname (Some ("inline" : jsstring)) "http://example.com//"
  = Ok (".mp4" : jsstring).
Proof.
  refine (url_without_component sample_pathname (Some ("inline" : jsstring))
            "http://example.com//" "//" _ _ _).
  - vm_compute. reflexivity.
  - vm_compute. reflexivity.
  - intros c Hc. cbn in Hc. repeat (destruct Hc as [<-|Hc]; [reflexivity|]). contradiction.
Defined.
(** ** The request handler *)

Module RelayFacts.

Import Relay.

Ltac unfold_ops :=
  unfold on_close, on_input_error, on_start, on_progress, on_engine_error, on_end,
    catch_block, cleanup, kill, pipe, ffmpeg, setHeader, status_send, console,
    forward, exits, output_ends, in_try, seq, try_, lift, update, read, when, ret,
    emit, set_connected, set_ffmpegCommand, set_waiting, set_listeners, set_res,
    set_commands, set_piped, set_status, note_kill, set_crashed, status_of, get_percent,
    defined in *.

(** Case analysis on the innermost test the goal is stuck on. *)
Ltac split_on x :=
  lazymatch x with
  | context [match _ with _ => _ end] => fail
  | (?a, _) => split_on a
  | _ => destruct x eqn:?
  end.

Ltac split_match :=
  match goal with
  | |- context [match ?x with _ => _ end] => split_on x
  end.

Ltac split_matches := simpl; repeat (split_match; simpl in *).

(** *** Cleanup *)

(** What [cleanup] does, in one equation: nothing without a command;
    otherwise it calls [kill] on the command and logs what [kill] throws. *)
Lemma cleaned_unfold (w : world) :
  cleaned w =
  match ffmpegCommand w with
  | None => w
  | Some h =>
      let w1 := note_kill h "SIGKILL" w in
      match kill_throws (env w) (status_of h w) with
      | Some e => emit (Console (error_killing e)) w1
      | None =>
          match status_of h w with
          | Running => set_status h Killed w1
          | _ => w1
          end
      end
  end.
Proof.
  unfold cleaned. unfold_ops. destruct w; split_matches; reflexivity.
Qed.

Lemma cleanup_unfold (w : world) : cleanup w = (Ok tt, cleaned w).
Proof.
  unfold cleaned. unfold_ops. destruct w; split_matches; reflexivity.
Qed.

Lemma cleanup_never_throws (w : world) : exists w', cleanup w = (Ok tt, w').
Proof. rewrite cleanup_unfold. eexists. reflexivity. Qed.

(** [cleanup] on a command whose process is not running, under the
    contract of [kill]: only the call is recorded. *)
Lemma cleanup_when_down (w : world) (h : handle) :
  ffmpegCommand w = Some h ->
  status_of h w <> Running ->
  kill_throws (env w) (status_of h w) = None ->
  cleanup w = (Ok tt, note_kill h "SIGKILL" w).
Proof.
  intros Hc Hs Hk. rewrite cleanup_unfold, cleaned_unfold, Hc. cbv zeta. rewrite Hk.
  destruct (status_of h w); congruence.
Qed.

Lemma forget_note_kill (h : handle) (s : jsstring) (w : world) :
  forget_kills (note_kill h s w) = forget_kills w.
Proof. reflexivity. Qed.

(** C6: calling the termination action [cleanup] never raises, the first
    time or the second; when the first call was effective (it left the
    process not running), the second call has no observable effect; and the
    same holds of a call after the process has completed on its own.  The
    absence of effect rests on the contract of [kill] on a process that is
    not running. *)
Theorem cleanup_idempotent (w : world) :
  exists w1 w2,
    cleanup w = (Ok tt, w1)
    /\ cleanup w1 = (Ok tt, w2)
    /\ (safe_when_down (env w) ->
        ((forall h, ffmpegCommand w = Some h -> status_of h w1 <> Running) ->
         forget_kills w2 = forget_kills w1)
        /\ ((forall h, ffmpegCommand w = Some h -> status_of h w = Exited) ->
            forget_kills w1 = forget_kills w)).
Proof.
  destruct (cleanup_never_throws w) as [w1 H1].
  destruct (cleanup_never_throws w1) as [w2 H2].
  exists w1, w2. split; [assumption|]. split; [assumption|].
  intros Hsafe.
  assert (Hsame : ffmpegCommand w1 = ffmpegCommand w /\ env w1 = env w).
  { rewrite cleanup_unfold, cleaned_unfold in H1. injection H1 as <-.
    destruct w; unfold_ops; split_matches; auto. }
  destruct Hsame as [Hcmd Henv].
  split.
  - intros Hdown. destruct (ffmpegCommand w) as [h|] eqn:Hc.
    + rewrite (cleanup_when_down w1 h) in H2.
      * injection H2 as <-. apply forget_note_kill.
      * assumption.
      * apply Hdown. reflexivity.
      * rewrite Henv. apply Hsafe. apply Hdown. reflexivity.
    + rewrite cleanup_unfold, cleaned_unfold, Hcmd in H2. injection H2 as <-. reflexivity.
  - intros Hexit. destruct (ffmpegCommand w) as [h|] eqn:Hc.
    + rewrite (cleanup_when_down w h) in H1.
      * injection H1 as <-. apply forget_note_kill.
      * assumption.
      * rewrite (Hexit h eq_refl). discriminate.
      * apply Hsafe. rewrite (Hexit h eq_refl). discriminate.
    + rewrite cleanup_unfold, cleaned_unfold, Hc in H1. injection H1 as <-. reflexivity.
Qed.

(** *** The progress callback *)

(** What the progress callback does, by the payload it receives. *)
Lemma on_progress_cases (w : world) (p : option progress) :
  exists w',
    on_progress p w = (Ok tt, w')
    /\ (w' = w
        \/ exists x, p = Some (Progress (Some x)) /\ isClientConnected w = true
                     /\ w' = emit (Console (log_processing x)) w).
Proof.
  destruct p as [[[x|]]|]; unfold_ops; simpl.
  - destruct (isClientConnected w) eqn:Hc; eexists; (split; [reflexivity|]).
    + right. exists x. rewrite Hc. auto.
    + left. reflexivity.
  - eexists. split; [reflexivity | left; reflexivity].
  - eexists. split; [reflexivity | left; reflexivity].
Qed.

(** C9: the progress callback never throws, whether the payload is
    missing, lacks its [percent] field or is complete; it leaves the
    response, the engine and every variable of the handler as they are, at
    most writing one line to the console; and delivering a progress event
    never takes the server down. *)
Theorem progress_never_throws (w : world) (p : option progress) :
  exists w',
    on_progress p w = (Ok tt, w')
    /\ (w' = w
        \/ exists x, p = Some (Progress (Some x)) /\ isClientConnected w = true
                     /\ w' = emit (Console (log_processing x)) w)
    /\ crashed (step w (EngineProgress p)) = crashed w
    /\ commands (step w (EngineProgress p)) = commands w
    /\ res (step w (EngineProgress p)) = res w.
Proof.
  destruct (on_progress_cases w p) as (w' & Hrun & Hw').
  exists w'. split; [assumption|]. split; [assumption|].
  unfold step, deliver, settle.
  destruct (crashed w) eqn:Hcr; [rewrite Hcr; auto|].
  destruct (on_engine_registered w); [|rewrite Hcr; auto].
  rewrite Hrun.
  destruct Hw' as [->|(x & _ & _ & ->)]; simpl; auto.
Qed.

(** *** The callbacks in closed form *)

Lemma seq_cleanup {A} (k : unit -> M A) (w : world) :
  seq cleanup k w = k tt (cleaned w).
Proof. unfold seq. rewrite cleanup_unfold. reflexivity. Qed.

Lemma guarded_answer (code : nat) (body : jsstring) (w : world) :
  (sent <~ read (fun w => headersSent (res w)) ;; when (negb sent) (status_send code body)) w
  = (Ok tt, answered code body w).
Proof.
  unfold answered. unfold_ops. destruct (headersSent (res w)) eqn:H; simpl.
  - reflexivity.
  - rewrite H. reflexivity.
Qed.

Lemma on_end_unfold (w : world) :
  on_end w = (Ok tt, cleaned (emit (Console log_finished) w)).
Proof. unfold on_end, console, update, seq at 1. apply cleanup_unfold. Qed.

Lemma catch_block_unfold (e : exn) (w : world) :
  catch_block e w =
  (Ok tt, answered 500 ("Failed to process video: " ++ message e)
            (cleaned (emit (Console (error_caught (message e))) w))).
Proof.
  unfold catch_block, console, update, seq at 1. rewrite seq_cleanup.
  apply guarded_answer.
Qed.

Lemma on_input_error_unfold (e : exn) (w : world) :
  on_input_error e w =
  (Ok tt, answered 500 "Error processing video stream"
            (cleaned (emit (Console (error_input_stream e)) w))).
Proof.
  unfold on_input_error, console, update, seq at 1. rewrite seq_cleanup.
  apply guarded_answer.
Qed.

Lemma on_engine_error_unfold (err : exn) (stderr : option jsstring) (w : world) :
  on_engine_error err stderr w =
  (Ok tt,
   cleaned (if isClientConnected w
            then answered 500 "Compression failed"
                   (stderr_logged stderr (emit (Console (error_ffmpeg (message err))) w))
            else emit (Console log_terminated_by_disconnect) w)).
Proof.
  unfold on_engine_error, seq at 1, read.
  destruct (isClientConnected w).
  - unfold seq at 1, seq at 1, console, update.
    assert (Hs : forall w0,
               (match stderr with
                | Some text => when (truthy_string text) (console (error_ffmpeg_stderr text))
                | None => ret tt
                end) w0 = (Ok tt, stderr_logged stderr w0)).
    { intros w0. unfold stderr_logged. destruct stderr as [text|]; [|reflexivity].
      destruct (truthy_string text); reflexivity. }
    unfold seq at 1. rewrite Hs. rewrite guarded_answer. apply cleanup_unfold.
  - unfold seq at 1, console, update. apply cleanup_unfold.
Qed.

Lemma on_close_unfold (w : world) :
  on_close w = (Ok tt, emit (Console log_client_disconnected) (set_connected false w)).
Proof. reflexivity. Qed.

(** *** The invariant of a request *)

#[local] Opaque invalid_header_unit axios_settle getFileName.

Ltac eval_world :=
  cbn beta iota zeta delta
    [emit set_connected set_ffmpegCommand set_waiting
     set_listeners set_res set_commands set_piped set_status note_kill set_crashed
     status_of replace_nth nth
     env isClientConnected ffmpegCommand waiting on_close_registered
     on_input_registered on_engine_registered res commands piped out kills crashed
     statusCode headersSent finished headers] in *.

Ltac unfold_world := unfold answered, stderr_logged in *; eval_world.

(** The text of a constant string plays no part in these proofs. *)
Ltac forget_strings :=
  repeat match goal with
         | |- context [list_ascii_of_string ?s] =>
             let text := fresh "text" in
             generalize (list_ascii_of_string s); intro text
         end.

Ltac unfold_body :=
  unfold settle, after_probe, after_open, in_try, setHeader, pipe, ffmpeg,
    forward, exits, output_ends, seq, try_, lift, update, read, when, ret in *;
  forget_strings;
  unfold_world.

Ltac finish_consistent :=
  unfold consistent; simpl;
  split; [reflexivity|];
  split; [intros; try congruence; auto|];
  first [ left; repeat split; congruence
        | right; eexists; repeat split; try reflexivity;
          first [ left; reflexivity | right; repeat split; congruence ] ].

Ltac open_consistent w H :=
  let Hcr := fresh "Hcr" in
  let Hwait := fresh "Hwait" in
  let Hcmd := fresh "Hcmd" in
  let st := fresh "st" in
  let Hp := fresh "Hp" in
  destruct H as (Hcr & Hwait & Hcmd);
  destruct w as [wP wconn wcmd wt wlc wli wle [rcode rsent rfin rhs] wcs wpp wo wks wcr];
  simpl in *; subst wcr;
  destruct Hcmd as [(-> & -> & -> & ->)|(st & -> & -> & -> & -> & [->|(-> & -> & Hp)])].

Lemma consistent_emit (e : effect) (w : world) : consistent w -> consistent (emit e w).
Proof. intros H. exact H. Qed.

Lemma consistent_set_connected (b : bool) (w : world) :
  consistent w -> consistent (set_connected b w).
Proof. intros H. exact H. Qed.

Lemma consistent_stderr_logged (stderr : option jsstring) (w : world) :
  consistent w -> consistent (stderr_logged stderr w).
Proof.
  intros H. unfold stderr_logged. destruct stderr as [t|]; [|assumption].
  destruct (truthy_string t); assumption.
Qed.

Lemma consistent_cleaned (w : world) : consistent w -> consistent (cleaned w).
Proof.
  intros H. rewrite cleaned_unfold. open_consistent w H; unfold_world; split_matches;
    try finish_consistent.
Qed.

Lemma consistent_answered (code : nat) (body : jsstring) (w : world) :
  consistent w -> waiting w = Returned -> consistent (answered code body w).
Proof.
  intros H Hw. open_consistent w H; try subst wt; unfold_world; split_matches;
    finish_consistent.
Qed.

Lemma waiting_cleaned (w : world) : waiting (cleaned w) = waiting w.
Proof. rewrite cleaned_unfold. destruct w; unfold_world; split_matches; reflexivity. Qed.

Lemma consistent_catch_block (e : exn) (w : world) :
  consistent w -> waiting w = Returned -> consistent (settle (catch_block e) w).
Proof.
  intros H Hw. unfold settle. rewrite catch_block_unfold.
  apply consistent_answered.
  - apply consistent_cleaned, consistent_emit, H.
  - rewrite waiting_cleaned. exact Hw.
Qed.

Lemma registered_means_returned (w : world) :
  consistent w ->
  on_input_registered w = true \/ on_engine_registered w = true ->
  waiting w = Returned.
Proof.
  intros (_ & Hwait & Hcmd) Hreg.
  destruct (waiting w) eqn:Hw; [| |reflexivity].
  all: destruct Hwait as (Hi & _ & Hc); [discriminate|].
  all: destruct Hreg as [Hreg|Hreg]; [congruence|].
  all: destruct Hcmd as [(_ & _ & _ & He)|(st & Hst & _)]; congruence.
Qed.

Ltac split_body :=
  simpl;
  repeat (first [rewrite catch_block_unfold; forget_strings | split_match]; simpl in *).

Ltac known_suspended Hwait :=
  let Hi := fresh "Hi" in
  let Hs := fresh "Hs" in
  destruct Hwait as (Hi & Hs & _); [discriminate|]; simpl in Hi, Hs; subst.

Lemma consistent_after_probe (w : world) (u : jsstring) (r : reply) :
  consistent w -> waiting w = AwaitProbe u -> consistent (settle (after_probe u r) w).
Proof.
  intros H Hw. open_consistent w H; try discriminate. subst wt. known_suspended Hwait.
  unfold_body; split_body.
  all: try finish_consistent.
Qed.

(** The [catch] block when the command was built and starting it failed. *)
Lemma consistent_catch_unstarted (code : nat) (body : jsstring) (e : effect) (w : world) :
  shape [NotStarted] (Some 0) true w ->
  consistent (answered code body (cleaned (emit e w))).
Proof.
  intros (Hcr & Hw & Hs & Hp & Hc & Hf & He). rewrite cleaned_unfold.
  destruct w as [wP wconn wcmd wt wlc wli wle [rcode rsent rfin rhs] wcs wpp wo wks wcr].
  simpl in *. subst. unfold_world. simpl.
  destruct (kill_throws wP NotStarted); simpl; finish_consistent.
Qed.

Lemma consistent_catch_no_command (code : nat) (body : jsstring) (e : effect) (w : world) :
  shape [] None false w ->
  consistent (answered code body (cleaned (emit e w))).
Proof.
  intros (Hcr & Hw & Hs & Hp & Hc & Hf & He). rewrite cleaned_unfold.
  destruct w as [wP wconn wcmd wt wlc wli wle [rcode rsent rfin rhs] wcs wpp wo wks wcr].
  simpl in *. subst. unfold_world. simpl. finish_consistent.
Qed.

(** **** Rules for statements *)

Lemma triple_seq {A B} (Pre : world -> Prop) (m : M A) (Mid : A -> world -> Prop)
    (k : A -> M B) (Post : B -> world -> Prop) (Exc : exn -> world -> Prop) :
  triple Pre m Mid Exc ->
  (forall a, triple (Mid a) (k a) Post Exc) ->
  triple Pre (seq m k) Post Exc.
Proof.
  intros Hm Hk w Hw. unfold seq. specialize (Hm w Hw).
  destruct (m w) as [[a|e] w']; [apply Hk; assumption | assumption].
Qed.

Lemma triple_try {A} (Pre : world -> Prop) (body : M A) (Caught : exn -> world -> Prop)
    (handler : exn -> M A) (Post : A -> world -> Prop) (Exc : exn -> world -> Prop) :
  triple Pre body Post Caught ->
  (forall e, triple (Caught e) (handler e) Post Exc) ->
  triple Pre (try_ body handler) Post Exc.
Proof.
  intros Hb Hh w Hw. unfold try_. specialize (Hb w Hw).
  destruct (body w) as [[a|e] w']; [assumption | apply Hh; assumption].
Qed.

Lemma triple_update (Pre : world -> Prop) (f : world -> world)
    (Post : unit -> world -> Prop) (Exc : exn -> world -> Prop) :
  (forall w, Pre w -> Post tt (f w)) -> triple Pre (update f) Post Exc.
Proof. intros H w Hw. apply H, Hw. Qed.

Lemma triple_lift {A} (Pre : world -> Prop) (r : result A)
    (Post : A -> world -> Prop) (Exc : exn -> world -> Prop) :
  (forall w, Pre w -> match r with Ok a => Post a w | Throw e => Exc e w end) ->
  triple Pre (lift r) Post Exc.
Proof. intros H w Hw. unfold lift. specialize (H w Hw). destruct r; assumption. Qed.

(** **** The statements of the last piece of the [try] block *)

Ltac open_shape w H :=
  let Hcr := fresh "Hcr" in
  destruct H as (Hcr & ? & ? & ? & ? & ? & ?);
  destruct w as [wP wconn wcmd wt wlc wli wle [rcode rsent rfin rhs] wcs wpp wo wks wcr];
  simpl in *; subst.

Lemma setHeader_shape cs cmd engine (name value : jsstring) :
  triple (shape cs cmd engine) (setHeader name value)
    (fun _ => shape cs cmd engine) (fun _ => shape cs cmd engine).
Proof.
  intros w H. open_shape w H. unfold setHeader. simpl.
  destruct (existsb invalid_header_unit value); simpl; repeat split.
Qed.

Lemma ffmpeg_shape :
  triple (shape [] None false) ffmpeg
    (fun h w => h = 0 /\ shape [NotStarted] None false w) (fun _ => shape [] None false).
Proof.
  intros w H. open_shape w H. unfold ffmpeg. simpl.
  destruct (ffmpeg_fault wP); simpl; repeat split.
Qed.

Lemma pipe_shape :
  triple (shape [NotStarted] (Some 0) true) (pipe 0 true)
    (fun _ => consistent) (fun _ => shape [NotStarted] (Some 0) true).
Proof.
  intros w H. open_shape w H. unfold pipe. simpl.
  destruct (pipe_fault wP); simpl; [repeat split|].
  unfold_world. finish_consistent.
Qed.

Lemma catch_block_shape (e : exn) :
  triple (fun w => shape [] None false w \/ shape [NotStarted] (Some 0) true w)
    (catch_block e) (fun _ => consistent) (fun _ _ => False).
Proof.
  intros w H. rewrite catch_block_unfold.
  destruct H as [H|H].
  - apply consistent_catch_no_command, H.
  - apply consistent_catch_unstarted, H.
Qed.

Lemma consistent_after_open (w : world) (u n : jsstring) (r : reply) :
  consistent w -> waiting w = AwaitOpen u n -> consistent (settle (after_open u n r) w).
Proof.
  intros H Hw.
  assert (Ht : triple (fun w => consistent w /\ waiting w = AwaitOpen u n)
                 (after_open u n r) (fun _ => consistent) (fun _ _ => False)).
  { clear w H Hw. unfold after_open, in_try.
    apply triple_seq with (Mid := fun _ => shape [] None false).
    { apply triple_update. intros w (H & Hw).
      open_consistent w H; try discriminate. subst wt. known_suspended Hwait.
      repeat split. }
    intros _. apply triple_try
      with (Caught := fun _ w => shape [] None false w \/ shape [NotStarted] (Some 0) true w);
      [|apply catch_block_shape].
    apply triple_seq with (Mid := fun _ => shape [] None false).
    { apply triple_lift. intros w H. destruct (axios_settle 0 r); auto. }
    intros _. apply triple_seq with (Mid := fun _ => shape [] None false).
    { intros w H. generalize (setHeader_shape [] None false
        "Content-Disposition"
        ("attachment; filename=" ++ [dquote] ++ ("compressed_" ++ n) ++ [dquote]) w H).
      destruct (setHeader _ _ w) as [[[]|e] w']; auto. }
    intros _. apply triple_seq with (Mid := fun _ => shape [] None false).
    { intros w H. generalize (setHeader_shape [] None false
        "Content-Type" "video/mp4" w H).
      destruct (setHeader _ _ w) as [[[]|e] w']; auto. }
    intros _. apply triple_seq with (Mid := fun _ => shape [] None false).
    { apply triple_update. intros w H. exact H. }
    intros _. apply triple_seq
      with (Mid := fun h w => h = 0 /\ shape [NotStarted] None false w).
    { intros w H. generalize (ffmpeg_shape w H).
      destruct (ffmpeg w) as [[h|e] w']; auto. }
    intros h. apply triple_seq
      with (Mid := fun _ w => h = 0 /\ shape [NotStarted] None true w).
    { apply triple_update. intros w (Hh & H). split; [assumption|].
      open_shape w H. repeat split. }
    intros _. apply triple_seq
      with (Mid := fun _ w => h = 0 /\ shape [NotStarted] (Some 0) true w).
    { apply triple_update. intros w (Hh & H). split; [assumption|]. subst h.
      open_shape w H. repeat split. }
    intros _ w (Hh & H). subst h. generalize (pipe_shape w H).
    destruct (pipe 0 true w) as [[[]|e] w']; auto. }
  specialize (Ht w (conj H Hw)). unfold settle.
  destruct (after_open u n r w) as [[a|e] w']; [assumption | contradiction].
Qed.

Lemma consistent_step (w : world) (ev : event) :
  consistent w -> consistent (step w ev).
Proof.
  intros H. unfold step. rewrite (proj1 H).
  destruct ev; unfold deliver.
  - destruct (waiting w) eqn:Hw; try assumption.
    apply consistent_after_probe; assumption.
  - destruct (waiting w) eqn:Hw; try assumption.
    apply consistent_after_open; assumption.
  - destruct (on_close_registered w); [|assumption].
    unfold settle. rewrite on_close_unfold. exact H.
  - destruct (on_input_registered w) eqn:Hr; [|assumption].
    unfold settle. rewrite on_input_error_unfold.
    apply consistent_answered.
    + apply consistent_cleaned, consistent_emit, H.
    + rewrite waiting_cleaned. apply (registered_means_returned w H). auto.
  - destruct (on_engine_registered w); [|assumption]. exact H.
  - destruct (on_engine_registered w); [|assumption].
    destruct (on_progress_cases w p) as (w' & Hrun & [->|(x & _ & _ & ->)]);
      unfold settle; rewrite Hrun; exact H.
  - destruct (on_engine_registered w) eqn:Hr; [|assumption].
    unfold settle. rewrite on_engine_error_unfold.
    apply consistent_cleaned.
    destruct (isClientConnected w); [|exact H].
    apply consistent_answered.
    + apply consistent_stderr_logged, consistent_emit, H.
    + assert (Hw := registered_means_returned w H (or_intror Hr)).
      unfold stderr_logged. destruct stderr as [t|]; [|assumption].
      destruct (truthy_string t); assumption.
  - destruct (on_engine_registered w); [|assumption].
    unfold settle. rewrite on_end_unfold.
    apply consistent_cleaned, consistent_emit, H.
  - open_consistent w H; unfold_body; split_matches; finish_consistent.
  - open_consistent w H; unfold_body; split_matches; finish_consistent.
  - open_consistent w H; unfold_body; split_matches; finish_consistent.
Qed.

Lemma consistent_serve (P : platform) (url : option jsstring) : consistent (serve P url).
Proof.
  unfold serve, compress, fresh.
  destruct (truthy url); simpl.
  - unfold_body. split_body. all: finish_consistent.
  - unfold settle. unfold_ops. simpl. finish_consistent.
Qed.

Lemma run_snoc (w : world) (evs : list event) (ev : event) :
  run w (evs ++ [ev]) = step (run w evs) ev.
Proof. unfold run. rewrite fold_left_app. reflexivity. Qed.

Lemma run_app (w : world) (evs1 evs2 : list event) :
  run w (evs1 ++ evs2) = run (run w evs1) evs2.
Proof. unfold run. apply fold_left_app. Qed.

Lemma consistent_run (w : world) (evs : list event) :
  consistent w -> consistent (run w evs).
Proof.
  revert w. induction evs as [|ev evs IH]; intros w H; simpl; [assumption|].
  apply IH, consistent_step, H.
Qed.

(** Every state a request goes through is consistent. *)
Lemma consistent_reachable (P : platform) (url : option jsstring) (evs : list event) :
  consistent (run (serve P url) evs).
Proof. apply consistent_run, consistent_serve. Qed.

(** *** Termination *)

Lemma cleaned_fields (w : world) :
  kills (cleaned w) = kills_after_cleanup w
  /\ commands (cleaned w) = commands_after_cleanup w
  /\ env (cleaned w) = env w /\ res (cleaned w) = res w
  /\ ffmpegCommand (cleaned w) = ffmpegCommand w /\ piped (cleaned w) = piped w
  /\ isClientConnected (cleaned w) = isClientConnected w.
Proof.
  rewrite cleaned_unfold. unfold kills_after_cleanup, commands_after_cleanup.
  destruct w as [wP wconn wcmd wt wlc wli wle wr wcs wpp wo wks wcr].
  unfold_world. destruct wcmd as [h|]; simpl.
  - destruct (kill_throws wP (nth h wcs NotStarted)); simpl; [repeat split|].
    destruct (nth h wcs NotStarted); simpl; repeat split.
  - rewrite app_nil_r. repeat split.
Qed.

Lemma answered_fields (code : nat) (body : jsstring) (w : world) :
  kills (answered code body w) = kills w
  /\ commands (answered code body w) = commands w
  /\ env (answered code body w) = env w
  /\ ffmpegCommand (answered code body w) = ffmpegCommand w
  /\ piped (answered code body w) = piped w
  /\ isClientConnected (answered code body w) = isClientConnected w.
Proof. unfold answered. destruct (headersSent (res w)); repeat split. Qed.

Lemma stderr_logged_fields (stderr : option jsstring) (w : world) :
  kills (stderr_logged stderr w) = kills w
  /\ commands (stderr_logged stderr w) = commands w
  /\ env (stderr_logged stderr w) = env w
  /\ ffmpegCommand (stderr_logged stderr w) = ffmpegCommand w
  /\ piped (stderr_logged stderr w) = piped w
  /\ res (stderr_logged stderr w) = res w
  /\ isClientConnected (stderr_logged stderr w) = isClientConnected w.
Proof.
  unfold stderr_logged. destruct stderr as [t|]; [|repeat split].
  destruct (truthy_string t); repeat split.
Qed.

(** Whatever line was logged or answer sent before it, [cleanup] sees the
    same command. *)
Lemma after_cleanup_same (w1 w2 : world) :
  kills w1 = kills w2 -> commands w1 = commands w2 -> env w1 = env w2 ->
  ffmpegCommand w1 = ffmpegCommand w2 ->
  kills_after_cleanup w1 = kills_after_cleanup w2
  /\ commands_after_cleanup w1 = commands_after_cleanup w2.
Proof.
  intros Hk Hc He Hf. unfold kills_after_cleanup, commands_after_cleanup, status_of.
  rewrite Hk, Hc, He, Hf. split; reflexivity.
Qed.

(** Every way a request ends runs [cleanup] once, and never throws. *)
Lemma termination_path_cleans (m : M unit) (w : world) :
  termination_path m ->
  exists w', m w = (Ok tt, w')
    /\ kills w' = kills_after_cleanup w
    /\ commands w' = commands_after_cleanup w
    /\ env w' = env w.
Proof.
  intros [ |err stderr|e|e].
  - rewrite on_end_unfold. eexists. split; [reflexivity|].
    destruct (cleaned_fields (emit (Console log_finished) w)) as (Hk & Hc & He & _).
    rewrite Hk, Hc, He. repeat split.
  - rewrite on_engine_error_unfold. eexists. split; [reflexivity|].
    match goal with |- context [cleaned ?x] => set (w1 := x) end.
    destruct (cleaned_fields w1) as (Hk & Hc & He & _). rewrite Hk, Hc, He.
    assert (H1 : kills w1 = kills w /\ commands w1 = commands w /\ env w1 = env w
                 /\ ffmpegCommand w1 = ffmpegCommand w).
    { unfold w1. destruct (isClientConnected w); [|repeat split].
      destruct (answered_fields 500 "Compression failed"
                  (stderr_logged stderr (emit (Console (error_ffmpeg (message err))) w)))
        as (-> & -> & -> & -> & _).
      destruct (stderr_logged_fields stderr (emit (Console (error_ffmpeg (message err))) w))
        as (-> & -> & -> & -> & _).
      repeat split. }
    destruct H1 as (H1 & H2 & H3 & H4).
    destruct (after_cleanup_same w1 w H1 H2 H3 H4) as [-> ->]. auto.
  - rewrite on_input_error_unfold. eexists. split; [reflexivity|].
    match goal with |- context [answered ?c ?b ?x] =>
      destruct (answered_fields c b x) as (-> & -> & -> & _) end.
    destruct (cleaned_fields (emit (Console (error_input_stream e)) w)) as (Hk & Hc & He & _).
    rewrite Hk, Hc, He. repeat split.
  - rewrite catch_block_unfold. eexists. split; [reflexivity|].
    match goal with |- context [answered ?c ?b ?x] =>
      destruct (answered_fields c b x) as (-> & -> & -> & _) end.
    destruct (cleaned_fields (emit (Console (error_caught (message e))) w)) as (Hk & Hc & He & _).
    rewrite Hk, Hc, He. repeat split.
Qed.

Lemma consistent_commands (w : world) :
  consistent w ->
  (commands w = [] /\ ffmpegCommand w = None)
  \/ exists st, commands w = [st] /\ ffmpegCommand w = Some 0.
Proof.
  intros (_ & _ & [(H1 & H2 & _)|(st & H1 & H2 & _)]); [left; auto | right; eauto].
Qed.


(** *** An error of the engine *)

Lemma sends_snoc (es : list effect) (e : effect) :
  filter is_send (es ++ [e]) = filter is_send es ++ (if is_send e then [e] else []).
Proof. rewrite filter_app. simpl. destruct (is_send e); reflexivity. Qed.

Lemma console_lines_snoc (es : list effect) (e : effect) :
  console_lines (es ++ [e])
  = console_lines es ++ match e with Console l => [l] | _ => [] end.
Proof. unfold console_lines. rewrite flat_map_app. simpl. rewrite app_nil_r. reflexivity. Qed.


(** *** Requests that never reach the engine *)

#[local] Transparent axios_settle.

Ltac open_world w :=
  destruct w as [wP wconn wcmd wt wlc wli wle [rcode rsent rfin rhs] wcs wpp wo wks wcr];
  simpl in *; subst.

Lemma filter_snoc_out (f : effect -> bool) (es : list effect) (e : effect) :
  f e = false -> filter f (es ++ [e]) = filter f es.
Proof. intros H. rewrite filter_app. simpl. rewrite H. apply app_nil_r. Qed.

(** Once a request is over without an engine, whatever happens leaves its
    footprint as it is; at most the disconnection of the client is noted. *)
Lemma inert_step (w : world) (ev : event) :
  inert w ->
  inert (step w ev) /\ footprint (step w ev) = footprint w
  /\ (on_close_registered w = false -> step w ev = w).
Proof.
  intros (Hw & Hi & He & Hp & Hc). unfold step.
  destruct (crashed w) eqn:Hcr; [repeat split; auto|].
  open_world w.
  destruct ev; unfold deliver; simpl; try (repeat split; auto; fail).
  destruct wlc; [|repeat split; auto].
  unfold settle. rewrite on_close_unfold. unfold footprint. unfold_world.
  rewrite !filter_snoc_out by reflexivity.
  repeat split; auto. discriminate.
Qed.

Lemma inert_run (w : world) (evs : list event) :
  inert w ->
  inert (run w evs) /\ footprint (run w evs) = footprint w
  /\ (on_close_registered w = false -> run w evs = w).
Proof.
  revert w. induction evs as [|ev evs IH]; intros w H; simpl; [auto|].
  destruct (inert_step w ev H) as (H1 & H2 & H3).
  destruct (IH _ H1) as (H4 & H5 & H6).
  split; [assumption|]. split; [congruence|].
  intros Hc. rewrite (H3 Hc) in *. auto.
Qed.

(** While the probe is awaited, whatever happens other than its answer
    leaves the footprint as it is. *)
Lemma awaiting_probe_step (u : jsstring) (w : world) (ev : event) :
  awaiting_probe u w -> is_probe_settled ev = false ->
  awaiting_probe u (step w ev) /\ footprint (step w ev) = footprint w.
Proof.
  intros (Hw & Hi & He & Hp & Hc) Hev. unfold step.
  destruct (crashed w) eqn:Hcr; [repeat split; auto|].
  open_world w.
  destruct ev; try discriminate; unfold deliver; simpl; try (repeat split; auto; fail).
  destruct wlc; [|repeat split; auto].
  unfold settle. rewrite on_close_unfold. unfold footprint. unfold_world.
  rewrite !filter_snoc_out by reflexivity.
  repeat split; auto.
Qed.

Lemma awaiting_probe_run (u : jsstring) (w : world) (evs : list event) :
  awaiting_probe u w -> Forall (fun ev => is_probe_settled ev = false) evs ->
  awaiting_probe u (run w evs) /\ footprint (run w evs) = footprint w.
Proof.
  revert w. induction evs as [|ev evs IH]; intros w H Hall; simpl; [auto|].
  inversion Hall as [|? ? Hev Hrest]; subst.
  destruct (awaiting_probe_step u w ev H Hev) as (H1 & H2).
  destruct (IH _ H1 Hrest) as (H3 & H4).
  split; [assumption | congruence].
Qed.

(** C5: a request whose [url] parameter is missing (or empty) is answered
    with status 400 and nothing else ever happens for it: no request is sent
    upstream, no engine command is created, whatever events follow. *)
Theorem missing_url_rejected (P : platform) (url : option jsstring) (evs : list event) :
  truthy url = false ->
  let w := run (serve P url) evs in
  statusCode (res w) = 400
  /\ out w = [Send 400 ("Missing video URL" : jsstring)]
  /\ filter is_request (out w) = []
  /\ commands w = [] /\ kills w = [] /\ crashed w = None.
Proof.
  intros Hurl w.
  assert (H0 : serve P url
               = emit (Send 400 "Missing video URL")
                   (set_res (Response 400 true true []) (fresh P))).
  { unfold serve, compress. rewrite Hurl. reflexivity. }
  assert (Hin : inert (serve P url)) by (rewrite H0; repeat split).
  destruct (inert_run (serve P url) evs Hin) as (_ & _ & Hsame).
  unfold w. rewrite Hsame by (rewrite H0; reflexivity).
  rewrite H0. repeat split.
Qed.


(** C4: when the probe fails (it throws, times out, or answers with a
    status of 400 or more), the request is answered with status 500; that
    answer is the only thing ever written to the response, so no header and
    no body byte precedes it; the HEAD request is the only request sent
    upstream; and no engine command is ever created, started or killed,
    whatever events follow. *)
Theorem probe_failure (P : platform) (url : option jsstring) (r : reply)
    (before after : list event) :
  truthy url = true ->
  probe_fails r = true ->
  Forall (fun ev => is_probe_settled ev = false) before ->
  let w := run (serve P url) (before ++ ProbeSettled r :: after) in
  exists videoUrl e,
    url = Some videoUrl /\ axios_settle 5000 r = Throw e
    /\ statusCode (res w) = 500
    /\ filter on_response (out w)
       = [Send 500 ("Failed to process video: " ++ message e)]
    /\ filter is_request (out w) = [Request HEAD videoUrl 5000]
    /\ filter is_spawn (out w) = []
    /\ commands w = [] /\ kills w = [] /\ crashed w = None.
Proof.
  intros Hurl Hfail Hbefore w.
  destruct url as [u|]; [|discriminate]. exists u.
  assert (He : exists e, axios_settle 5000 r = Throw e).
  { destruct r as [e| |status hs]; cbv [axios_settle]; [eauto | eauto |].
    unfold validateStatus. cbv [probe_fails] in Hfail.
    apply Nat.leb_le in Hfail. destruct (Nat.ltb_spec status 400); [lia | eauto]. }
  destruct He as [e He]. exists e.
  split; [reflexivity|]. split; [assumption|].
  (* the request arrives *)
  assert (H0 : serve P (Some u)
               = set_waiting (AwaitProbe u)
                   (emit (Request HEAD u 5000)
                      (set_listeners true false false (fresh P)))).
  { unfold serve, compress. rewrite Hurl. reflexivity. }
  assert (Ha0 : awaiting_probe u (serve P (Some u))) by (rewrite H0; repeat split).
  destruct (awaiting_probe_run u _ before Ha0 Hbefore) as (Ha1 & Hf1).
  (* the probe fails *)
  set (w1 := run (serve P (Some u)) before) in *.
  assert (Hcr1 : crashed w1 = None).
  { apply (consistent_reachable P (Some u) before). }
  assert (Hstep : inert (step w1 (ProbeSettled r))
                  /\ footprint (step w1 (ProbeSettled r))
                     = (Response 500 true true [], [], [],
                        [Send 500 ("Failed to process video: " ++ message e)],
                        [Request HEAD u 5000], [])
                  /\ crashed (step w1 (ProbeSettled r)) = None).
  { assert (Hc1 := consistent_reachable P (Some u) before). fold w1 in Hc1.
    destruct Hc1 as (_ & Hwait & _).
    destruct Ha1 as (Hw & Hi & Hen & Hp & Hcmd).
    rewrite H0 in Hf1. unfold footprint in Hf1. simpl in Hf1.
    injection Hf1 as Hres Hcs Hks Hresp Hreq Hsp.
    destruct Hwait as (_ & _ & Hnil); [congruence|].
    unfold step. rewrite Hcr1. unfold deliver. rewrite Hw.
    unfold settle, after_probe, in_try, seq, try_, lift, update. rewrite He.
    rewrite catch_block_unfold. rewrite cleaned_unfold.
    unfold footprint. forget_strings. open_world w1.
    injection Hres as ? ? ? ?. subst. unfold_world. simpl.
    rewrite !filter_app, Hresp, Hreq, Hsp. simpl.
    repeat split. }
  destruct Hstep as (Hin & Hfoot & Hcr).
  destruct (inert_run _ after Hin) as (_ & Hfinal & _).
  assert (Hw : w = run (step w1 (ProbeSettled r)) after).
  { unfold w, w1. rewrite run_app. reflexivity. }
  rewrite <- Hw, Hfoot in Hfinal. unfold footprint in Hfinal.
  injection Hfinal as Hres Hcs Hks Hresp Hreq Hsp.
  rewrite Hres, Hcs, Hks, Hresp, Hreq, Hsp.
  repeat split.
  assert (Hcons := consistent_reachable P (Some u) (before ++ ProbeSettled r :: after)).
  apply Hcons.
Qed.

(** *** The disconnection of the client *)

(** The listener for the disconnection of the client records it and
    writes a line: it calls no [kill] and leaves the engine and the response
    as they are. *)
Lemma close_only_recorded (w : world) :
  on_close w = (Ok tt, emit (Console log_client_disconnected) (set_connected false w))
  /\ footprint (step w ClientClose) = footprint w
  /\ alive (step w ClientClose) = alive w.
Proof.
  split; [reflexivity|]. unfold step, deliver, settle.
  destruct (crashed w); [auto|].
  destruct (on_close_registered w); [|auto].
  rewrite on_close_unfold. unfold footprint, alive. unfold_world.
  rewrite !filter_snoc_out by reflexivity. auto.
Qed.

(** *** The response and its trace *)

Lemma replay_snoc (r : response) (es : list effect) (e : effect) :
  replay r (es ++ [e])
  = match replay r es with Some r' => replay_effect r' e | None => None end.
Proof. unfold replay. rewrite fold_left_app. reflexivity. Qed.

Lemma orderly_emit (e : effect) (w : world) :
  on_response e = false -> orderly w -> orderly (emit e w).
Proof.
  unfold orderly. intros He H. cbn [emit out res]. rewrite replay_snoc, H.
  destruct e; try discriminate; reflexivity.
Qed.

Lemma orderly_cleaned (w : world) : orderly w -> orderly (cleaned w).
Proof.
  intros H. rewrite cleaned_unfold. destruct (ffmpegCommand w) as [h|]; [|assumption].
  cbv zeta. destruct (kill_throws (env w) (status_of h w)).
  - apply orderly_emit; [reflexivity | exact H].
  - destruct (status_of h w); exact H.
Qed.

Lemma orderly_answered (code : nat) (body : jsstring) (w : world) :
  orderly w -> orderly (answered code body w).
Proof.
  unfold answered, orderly. intros H. destruct (headersSent (res w)) eqn:Hs; [assumption|].
  cbn [emit set_res out res]. rewrite replay_snoc, H. cbn [replay_effect]. rewrite Hs.
  reflexivity.
Qed.

Lemma orderly_stderr_logged (stderr : option jsstring) (w : world) :
  orderly w -> orderly (stderr_logged stderr w).
Proof.
  intros H. unfold stderr_logged. destruct stderr as [t|]; [|assumption].
  destruct (truthy_string t); [|assumption]. apply orderly_emit; [reflexivity | assumption].
Qed.

Lemma orderly_catch_block (e : exn) :
  triple orderly (catch_block e) (fun _ => orderly) (fun _ => orderly).
Proof.
  intros w H. rewrite catch_block_unfold.
  apply orderly_answered, orderly_cleaned, orderly_emit; [reflexivity | assumption].
Qed.

Lemma orderly_setHeader (name value : jsstring) :
  triple orderly (setHeader name value) (fun _ => orderly) (fun _ => orderly).
Proof.
  intros w H. unfold setHeader. cbv zeta.
  destruct (headersSent (res w)) eqn:Hs; [assumption|].
  destruct (existsb invalid_header_unit value); [assumption|].
  unfold orderly in *. cbn [emit set_res out res]. rewrite replay_snoc, H.
  cbn [replay_effect]. rewrite Hs. reflexivity.
Qed.

Lemma orderly_ffmpeg : triple orderly ffmpeg (fun _ => orderly) (fun _ => orderly).
Proof. intros w H. unfold ffmpeg. destruct (ffmpeg_fault (env w)); exact H. Qed.

Lemma orderly_pipe (h : handle) (end_ : bool) :
  triple orderly (pipe h end_) (fun _ => orderly) (fun _ => orderly).
Proof.
  intros w H. unfold pipe. destruct (pipe_fault (env w)); [exact H|].
  apply orderly_emit; [reflexivity | exact H].
Qed.

Lemma orderly_after_probe (u : jsstring) (r : reply) :
  triple orderly (after_probe u r) (fun _ => orderly) (fun _ => orderly).
Proof.
  unfold after_probe, in_try.
  apply triple_seq with (Mid := fun _ => orderly); [apply triple_update; auto|].
  intros _. apply triple_try with (Caught := fun _ => orderly); [|apply orderly_catch_block].
  apply triple_seq with (Mid := fun _ => orderly).
  { apply triple_lift. intros w H. destruct (axios_settle 5000 r); assumption. }
  intros hs. apply triple_seq with (Mid := fun _ => orderly); [intros w H; exact H|].
  intros P. apply triple_seq with (Mid := fun _ => orderly).
  { apply triple_lift. intros w H. destruct (getFileName _ _ _); assumption. }
  intros n. apply triple_seq with (Mid := fun _ => orderly).
  { apply triple_update. intros w H. apply orderly_emit; [reflexivity | assumption]. }
  intros _. apply triple_update. auto.
Qed.

Lemma orderly_after_open (u n : jsstring) (r : reply) :
  triple orderly (after_open u n r) (fun _ => orderly) (fun _ => orderly).
Proof.
  unfold after_open, in_try.
  apply triple_seq with (Mid := fun _ => orderly); [apply triple_update; auto|].
  intros _. apply triple_try with (Caught := fun _ => orderly); [|apply orderly_catch_block].
  apply triple_seq with (Mid := fun _ => orderly).
  { apply triple_lift. intros w H. destruct (axios_settle 0 r); assumption. }
  intros hs. apply triple_seq with (Mid := fun _ => orderly); [apply orderly_setHeader|].
  intros _. apply triple_seq with (Mid := fun _ => orderly); [apply orderly_setHeader|].
  intros _. apply triple_seq with (Mid := fun _ => orderly); [apply triple_update; auto|].
  intros _. apply triple_seq with (Mid := fun _ => orderly); [apply orderly_ffmpeg|].
  intros h. apply triple_seq with (Mid := fun _ => orderly); [apply triple_update; auto|].
  intros _. apply triple_seq with (Mid := fun _ => orderly); [apply triple_update; auto|].
  intros _. apply orderly_pipe.
Qed.

Lemma orderly_settle (m : M unit) (w : world) :
  triple orderly m (fun _ => orderly) (fun _ => orderly) -> orderly w -> orderly (settle m w).
Proof.
  intros Hm H. specialize (Hm w H). unfold settle.
  destruct (m w) as [[a|e] w']; exact Hm.
Qed.

Lemma orderly_step (w : world) (ev : event) : orderly w -> orderly (step w ev).
Proof.
  intros H. unfold step. destruct (crashed w); [assumption|].
  destruct ev; unfold deliver.
  - destruct (waiting w); try assumption.
    apply orderly_settle; [apply orderly_after_probe | assumption].
  - destruct (waiting w); try assumption.
    apply orderly_settle; [apply orderly_after_open | assumption].
  - destruct (on_close_registered w); [|assumption].
    unfold settle. rewrite on_close_unfold. apply orderly_emit; [reflexivity | exact H].
  - destruct (on_input_registered w); [|assumption].
    unfold settle. rewrite on_input_error_unfold.
    apply orderly_answered, orderly_cleaned, orderly_emit; [reflexivity | assumption].
  - destruct (on_engine_registered w); [|assumption].
    apply orderly_emit; [reflexivity | assumption].
  - destruct (on_engine_registered w); [|assumption].
    destruct (on_progress_cases w p) as (w' & Hrun & [->|(x & _ & _ & ->)]);
      unfold settle; rewrite Hrun; [assumption|].
    apply orderly_emit; [reflexivity | assumption].
  - destruct (on_engine_registered w); [|assumption].
    unfold settle. rewrite on_engine_error_unfold. apply orderly_cleaned.
    destruct (isClientConnected w).
    + apply orderly_answered, orderly_stderr_logged, orderly_emit; [reflexivity | assumption].
    + apply orderly_emit; [reflexivity | assumption].
  - destruct (on_engine_registered w); [|assumption].
    unfold settle. rewrite on_end_unfold.
    apply orderly_cleaned, orderly_emit; [reflexivity | assumption].
  - unfold settle, forward. destruct (piped w) as [[h b]|]; [|assumption].
    destruct (proc_status_eqb (status_of h w) Running); [|assumption].
    destruct (finished (res w)) eqn:Hf; [assumption|]. cbn [negb andb].
    unfold orderly in *. cbn [emit set_res out res]. rewrite replay_snoc, H.
    cbn [replay_effect]. rewrite Hf. reflexivity.
  - unfold settle, exits. destruct (piped w) as [[h b]|]; [|assumption].
    destruct (proc_status_eqb (status_of h w) Running); assumption.
  - unfold settle, output_ends. destruct (piped w) as [[h [|]]|]; try assumption.
    destruct (proc_status_eqb (status_of h w) Exited || proc_status_eqb (status_of h w) Killed);
      [|assumption].
    destruct (finished (res w)) eqn:Hf; [assumption|]. cbn [negb andb].
    unfold orderly in *. cbn [emit set_res out res]. rewrite replay_snoc, H.
    cbn [replay_effect]. rewrite Hf. reflexivity.
Qed.

Lemma orderly_serve (P : platform) (url : option jsstring) : orderly (serve P url).
Proof.
  unfold serve, compress. destruct (truthy url); cbn [negb]; [|reflexivity].
  reflexivity.
Qed.

Lemma orderly_run (w : world) (evs : list event) : orderly w -> orderly (run w evs).
Proof.
  revert w. induction evs as [|ev evs IH]; intros w H; simpl; [assumption|].
  apply IH, orderly_step, H.
Qed.

Lemma replay_cons (r : response) (e : effect) (es : list effect) :
  replay r (e :: es)
  = match replay_effect r e with Some r1 => replay r1 es | None => None end.
Proof.
  unfold replay. cbn [fold_left]. destruct (replay_effect r e); [reflexivity|].
  induction es as [|a es IH]; [reflexivity | exact IH].
Qed.

(** What an accepted trace says of the answers in it. *)
Lemma replay_after_end (es : list effect) : forall r r',
  finished r = true -> headersSent r = true -> replay r es = Some r' ->
  r' = r /\ filter on_response es = [].
Proof.
  induction es as [|e es IH] using rev_ind; intros r r' Hf Hs H.
  - injection H as <-. auto.
  - rewrite replay_snoc in H. destruct (replay r es) as [r1|] eqn:H1; [|discriminate].
    destruct (IH r r1 Hf Hs H1) as (-> & Hnone).
    rewrite filter_app, Hnone. cbn [app filter].
    destruct e; cbn [replay_effect] in H; rewrite ?Hf, ?Hs in H; try discriminate;
      injection H as <-; auto.
Qed.

Lemma replay_after_headers (es : list effect) : forall r r',
  headersSent r = true -> replay r es = Some r' ->
  headersSent r' = true /\ statusCode r' = statusCode r /\ filter is_send es = [].
Proof.
  induction es as [|e es IH] using rev_ind; intros r r' Hs H.
  - injection H as <-. auto.
  - rewrite replay_snoc in H. destruct (replay r es) as [r1|] eqn:H1; [|discriminate].
    destruct (IH r r1 Hs H1) as (Hs1 & Hc1 & Hnone).
    rewrite filter_app, Hnone. cbn [app filter].
    destruct e; cbn [replay_effect] in H; rewrite ?Hs1 in H; try discriminate.
    all: try (injection H as <-; auto; fail).
    all: destruct (finished r1); try discriminate; injection H as <-; auto.
Qed.

Lemma replay_answers (es : list effect) : forall r r',
  headersSent r = false -> replay r es = Some r' ->
  (filter is_send es = [] /\ statusCode r' = statusCode r)
  \/ (exists code body,
        filter is_send es = [Send code body] /\ filter is_body es = []
        /\ statusCode r' = code /\ headersSent r' = true /\ finished r' = true).
Proof.
  induction es as [|e es IH]; intros r r' Hs H.
  - injection H as <-. auto.
  - rewrite replay_cons in H.
    destruct (replay_effect r e) as [r1|] eqn:He; [|discriminate].
    destruct e; cbn [replay_effect] in He; rewrite ?Hs in He.
    all: try (injection He as <-; cbn [filter is_send is_body]; apply (IH r r' Hs H)).
    + injection He as <-. cbn [filter is_send is_body].
      match type of H with replay ?r1 es = _ =>
        destruct (IH r1 r' eq_refl H) as [(H1 & H2)|H1] end; [left; auto | right; assumption].
    + injection He as <-. right. exists status, body.
      match type of H with replay ?r1 es = _ =>
        destruct (replay_after_end es r1 r' eq_refl eq_refl H) as (-> & Hnone) end.
      cbn [filter is_send is_body].
      assert (Hsub : forall f, (forall e, f e = true -> on_response e = true) ->
                               filter f es = []).
      { intros f Hf. clear -Hnone Hf. induction es as [|a es IH]; [reflexivity|].
        cbn [filter] in *. destruct (on_response a) eqn:Ha; [discriminate|].
        destruct (f a) eqn:Hfa; [rewrite (Hf a Hfa) in Ha; discriminate|]. auto. }
      rewrite (Hsub is_send), (Hsub is_body); auto.
      all: intros [] ?; try discriminate; reflexivity.
    + left. destruct (finished r); [discriminate|]. injection He as <-.
      cbn [filter is_send].
      match type of H with replay ?r1 es = _ =>
        destruct (replay_after_headers es r1 r' eq_refl H) as (_ & Hc & Hnone) end. auto.
    + left. destruct (finished r); [discriminate|]. injection He as <-.
      cbn [filter is_send].
      match type of H with replay ?r1 es = _ =>
        destruct (replay_after_headers es r1 r' eq_refl H) as (_ & Hc & Hnone) end. auto.
Qed.

(** X6: nothing a request goes through takes the server down: whatever
    the upstream servers answer, whatever the engine reports, whichever
    library call fails, no exception leaves the handler or a callback. *)
Theorem server_never_crashes (P : platform) (url : option jsstring) (evs : list event) :
  crashed (run (serve P url) evs) = None.
Proof. apply (consistent_reachable P url evs). Qed.

(** X7: the handler never misuses the response.  The trace of a request
    replays from a new response (status 200, nothing sent) without a refused
    effect, and leads to the response object as it stands: no header is set
    and no answer is sent after the headers went out, nothing is written or
    ended after the end, and the status, the headers and the two flags are
    the ones the trace accounts for. *)
Theorem response_follows_trace (P : platform) (url : option jsstring) (evs : list event) :
  replay (Response 200 false false []) (out (run (serve P url) evs))
  = Some (res (run (serve P url) evs)).
Proof. apply orderly_run, orderly_serve. Qed.

(** X8: a request is answered at most once, and an answered request is
    never streamed.  Either no answer was sent and the status is still 200,
    or exactly one was, the response carries its status and has ended, and
    no chunk was written to it and no end of stream reached it. *)
Theorem answered_at_most_once (P : platform) (url : option jsstring) (evs : list event) :
  let w := run (serve P url) evs in
  (filter is_send (out w) = [] /\ statusCode (res w) = 200)
  \/ (exists code body,
        filter is_send (out w) = [Send code body] /\ filter is_body (out w) = []
        /\ statusCode (res w) = code /\ headersSent (res w) = true
        /\ finished (res w) = true).
Proof.
  intros w.
  exact (replay_answers (out w) (Response 200 false false []) (res w) eq_refl
           (orderly_run _ evs (orderly_serve P url))).
Qed.

(** *** The order of the requests and of the engine *)

Lemma upstream_emit (e : effect) (w : world) :
  upstream (out (emit e w))
  = upstream (out w) ++ (if is_request e || is_spawn e then [e] else []).
Proof.
  unfold upstream. cbn [emit out]. rewrite filter_app. cbn [filter].
  destruct (is_request e || is_spawn e); reflexivity.
Qed.

Lemma upstream_cleaned (w : world) : upstream (out (cleaned w)) = upstream (out w).
Proof.
  rewrite cleaned_unfold. destruct (ffmpegCommand w) as [h|]; [|reflexivity].
  cbv zeta. destruct (kill_throws (env w) (status_of h w)).
  - rewrite upstream_emit. apply app_nil_r.
  - destruct (status_of h w); reflexivity.
Qed.

Lemma upstream_answered (code : nat) (body : jsstring) (w : world) :
  upstream (out (answered code body w)) = upstream (out w)
  /\ waiting (answered code body w) = waiting w.
Proof.
  unfold answered. destruct (headersSent (res w)); [auto|].
  rewrite upstream_emit. split; [apply app_nil_r | reflexivity].
Qed.

Lemma upstream_stderr_logged (stderr : option jsstring) (w : world) :
  upstream (out (stderr_logged stderr w)) = upstream (out w)
  /\ waiting (stderr_logged stderr w) = waiting w.
Proof.
  unfold stderr_logged. destruct stderr as [t|]; [|auto].
  destruct (truthy_string t); [|auto].
  rewrite upstream_emit. split; [apply app_nil_r | reflexivity].
Qed.

Lemma on_plan_same (u : jsstring) (w w' : world) :
  waiting w' = waiting w -> upstream (out w') = upstream (out w) ->
  on_plan u w -> on_plan u w'.
Proof. unfold on_plan. intros -> ->. auto. Qed.

Lemma at_stage_on_plan (k : nat) (u : jsstring) (w : world) :
  at_stage k u w -> on_plan u w.
Proof. intros (Hw & Hu). unfold on_plan. rewrite Hw. eauto. Qed.

Lemma at_stage_catch_block (k : nat) (u : jsstring) (e : exn) :
  triple (at_stage k u) (catch_block e) (fun _ => on_plan u) (fun _ _ => False).
Proof.
  intros w (Hw & Hu). rewrite catch_block_unfold.
  apply (at_stage_on_plan k). split.
  - rewrite (proj2 (upstream_answered _ _ _)), waiting_cleaned. exact Hw.
  - rewrite (proj1 (upstream_answered _ _ _)), upstream_cleaned, upstream_emit.
    rewrite app_nil_r. exact Hu.
Qed.

Lemma on_plan_after_probe (u : jsstring) (r : reply) :
  triple (fun w => upstream (out w) = firstn 1 (upstream_plan u))
    (after_probe u r) (fun _ => on_plan u) (fun _ _ => False).
Proof.
  unfold after_probe, in_try.
  apply triple_seq with (Mid := fun _ => at_stage 1 u).
  { apply triple_update. intros w H. split; [reflexivity | exact H]. }
  intros _. apply triple_try with (Caught := fun _ => at_stage 1 u);
    [|apply at_stage_catch_block].
  apply triple_seq with (Mid := fun _ => at_stage 1 u).
  { apply triple_lift. intros w H. destruct (axios_settle 5000 r); assumption. }
  intros hs. apply triple_seq with (Mid := fun _ => at_stage 1 u); [intros w H; exact H|].
  intros P. apply triple_seq with (Mid := fun _ => at_stage 1 u).
  { apply triple_lift. intros w H. destruct (getFileName _ _ _); assumption. }
  intros n. apply triple_seq with (Mid := fun _ => at_stage 2 u).
  { apply triple_update. intros w (Hw & Hu). split; [exact Hw|].
    rewrite upstream_emit, Hu. reflexivity. }
  intros _. apply triple_update. intros w (Hw & Hu).
  unfold on_plan. cbn [set_waiting waiting out]. auto.
Qed.

Lemma at_stage_setHeader (k : nat) (u name value : jsstring) :
  triple (fun w => at_stage k u w /\ commands w = [])
    (setHeader name value)
    (fun _ w => at_stage k u w /\ commands w = []) (fun _ => at_stage k u).
Proof.
  intros w ((Hw & Hu) & Hc). unfold setHeader. cbv zeta.
  destruct (headersSent (res w)); [split; assumption|].
  destruct (existsb invalid_header_unit value); [split; assumption|].
  split; [split|]; try assumption.
  rewrite upstream_emit. cbn [is_request is_spawn orb]. rewrite app_nil_r. exact Hu.
Qed.

Lemma on_plan_after_open (u n : jsstring) (r : reply) :
  triple (fun w => upstream (out w) = firstn 2 (upstream_plan u) /\ commands w = [])
    (after_open u n r) (fun _ => on_plan u) (fun _ _ => False).
Proof.
  unfold after_open, in_try.
  apply triple_seq with (Mid := fun _ w => at_stage 2 u w /\ commands w = []).
  { apply triple_update. intros w (H & Hc). repeat split; assumption. }
  intros _. apply triple_try
    with (Caught := fun _ w => at_stage 2 u w); [|apply at_stage_catch_block].
  apply triple_seq with (Mid := fun _ w => at_stage 2 u w /\ commands w = []).
  { apply triple_lift. intros w H. destruct (axios_settle 0 r); [assumption | apply H]. }
  intros hs. apply triple_seq with (Mid := fun _ w => at_stage 2 u w /\ commands w = []);
    [apply at_stage_setHeader|].
  intros _. apply triple_seq with (Mid := fun _ w => at_stage 2 u w /\ commands w = []);
    [apply at_stage_setHeader|].
  intros _. apply triple_seq with (Mid := fun _ w => at_stage 2 u w /\ commands w = []).
  { apply triple_update. auto. }
  intros _. apply triple_seq with (Mid := fun h w => h = 0 /\ at_stage 2 u w).
  { intros w (H & Hc). unfold ffmpeg. destruct (ffmpeg_fault (env w)); [exact H|].
    rewrite Hc. split; [reflexivity | exact H]. }
  intros h. apply triple_seq with (Mid := fun _ w => h = 0 /\ at_stage 2 u w).
  { apply triple_update. auto. }
  intros _. apply triple_seq with (Mid := fun _ w => h = 0 /\ at_stage 2 u w).
  { apply triple_update. auto. }
  intros _ w (-> & Hw & Hu). unfold pipe. destruct (pipe_fault (env w)); [split; assumption|].
  apply (at_stage_on_plan 3). split; [exact Hw|].
  rewrite upstream_emit. change (upstream (out (set_piped _ (set_status 0 Running w))))
    with (upstream (out w)). rewrite Hu. reflexivity.
Qed.

Lemma on_plan_step (u : jsstring) (w : world) (ev : event) :
  consistent w -> on_plan u w -> on_plan u (step w ev).
Proof.
  intros Hc H. unfold step. destruct (crashed w); [assumption|].
  destruct ev; unfold deliver.
  - destruct (waiting w) as [u'| |] eqn:Hw; try assumption.
    unfold on_plan in H. rewrite Hw in H. destruct H as (-> & Hu).
    generalize (on_plan_after_probe u r w Hu). unfold settle.
    destruct (after_probe u r w) as [[a|e] w']; [auto | contradiction].
  - destruct (waiting w) as [|u' n|] eqn:Hw; try assumption.
    unfold on_plan in H. rewrite Hw in H. destruct H as (-> & Hu).
    assert (Hcs : commands w = []).
    { destruct Hc as (_ & Hwait & _). apply Hwait. congruence. }
    generalize (on_plan_after_open u n r w (conj Hu Hcs)). unfold settle.
    destruct (after_open u n r w) as [[a|e] w']; [auto | contradiction].
  - destruct (on_close_registered w); [|assumption].
    unfold settle. rewrite on_close_unfold. revert H. apply on_plan_same; [reflexivity|].
    rewrite upstream_emit. apply app_nil_r.
  - destruct (on_input_registered w); [|assumption].
    unfold settle. rewrite on_input_error_unfold. revert H. apply on_plan_same.
    + rewrite (proj2 (upstream_answered _ _ _)), waiting_cleaned. reflexivity.
    + rewrite (proj1 (upstream_answered _ _ _)), upstream_cleaned, upstream_emit.
      apply app_nil_r.
  - destruct (on_engine_registered w); [|assumption].
    revert H. apply on_plan_same; [reflexivity|].
    unfold settle, on_start, console, update. rewrite upstream_emit. apply app_nil_r.
  - destruct (on_engine_registered w); [|assumption].
    destruct (on_progress_cases w p) as (w' & Hrun & [->|(x & _ & _ & ->)]);
      unfold settle; rewrite Hrun; [assumption|].
    revert H. apply on_plan_same; [reflexivity|]. rewrite upstream_emit. apply app_nil_r.
  - destruct (on_engine_registered w); [|assumption].
    unfold settle. rewrite on_engine_error_unfold. revert H. apply on_plan_same.
    + rewrite waiting_cleaned. destruct (isClientConnected w); [|reflexivity].
      rewrite (proj2 (upstream_answered _ _ _)), (proj2 (upstream_stderr_logged _ _)).
      reflexivity.
    + rewrite upstream_cleaned. destruct (isClientConnected w).
      * rewrite (proj1 (upstream_answered _ _ _)), (proj1 (upstream_stderr_logged _ _)).
        rewrite upstream_emit. apply app_nil_r.
      * rewrite upstream_emit. apply app_nil_r.
  - destruct (on_engine_registered w); [|assumption].
    unfold settle. rewrite on_end_unfold. revert H. apply on_plan_same.
    + rewrite waiting_cleaned. reflexivity.
    + rewrite upstream_cleaned, upstream_emit. apply app_nil_r.
  - unfold settle, forward. destruct (piped w) as [[h b]|]; [|assumption].
    destruct (proc_status_eqb (status_of h w) Running && negb (finished (res w)));
      [|assumption].
    revert H. apply on_plan_same; [reflexivity|]. rewrite upstream_emit. apply app_nil_r.
  - unfold settle, exits. destruct (piped w) as [[h b]|]; [|assumption].
    destruct (proc_status_eqb (status_of h w) Running); assumption.
  - unfold settle, output_ends. destruct (piped w) as [[h [|]]|]; try assumption.
    destruct ((proc_status_eqb (status_of h w) Exited
               || proc_status_eqb (status_of h w) Killed) && negb (finished (res w)));
      [|assumption].
    revert H. apply on_plan_same; [reflexivity|]. rewrite upstream_emit. apply app_nil_r.
Qed.

Lemma on_plan_serve (P : platform) (url : option jsstring) :
  on_plan (videoUrl_of url) (serve P url).
Proof.
  unfold serve, compress. destruct (truthy url) eqn:Hurl; cbn [negb].
  - unfold on_plan. cbn. auto.
  - unfold on_plan. cbn. exists 0. reflexivity.
Qed.

(** X9: the steps of a request come in one order and at most once each.
    What a request has asked of the upstream server and of the engine is
    always a beginning of: the HEAD request for the URL with a timeout of 5000
    ms, the GET request for the same URL with no timeout, the start of the one
    engine command with the output options of the handler.  So no request is
    repeated, nothing is fetched before the probe and no engine is started
    before the stream was opened. *)
Theorem steps_in_order (P : platform) (url : option jsstring) (evs : list event) :
  exists k,
    upstream (out (run (serve P url) evs)) = firstn k (upstream_plan (videoUrl_of url)).
Proof.
  assert (H : forall evs w, consistent w -> on_plan (videoUrl_of url) w ->
                            on_plan (videoUrl_of url) (run w evs)).
  { clear evs. induction evs as [|ev evs IH]; intros w Hc H; simpl; [assumption|].
    apply IH; [apply consistent_step, Hc | apply on_plan_step; assumption]. }
  specialize (H evs (serve P url) (consistent_serve P url) (on_plan_serve P url)).
  unfold on_plan in H. destruct (waiting _); [destruct H; eauto | destruct H; eauto | exact H].
Qed.

(** *** From the request to the running engine *)

#[local] Transparent invalid_header_unit.

Lemma disposition_valid (name : jsstring) :
  existsb invalid_header_unit name = false ->
  existsb invalid_header_unit (disposition name) = false.
Proof.
  intros H. unfold disposition. rewrite !existsb_app, H. reflexivity.
Qed.

(** While the opening of the stream is awaited, whatever happens other
    than its answer leaves the footprint as it is. *)
Lemma awaiting_open_step (u n : jsstring) (w : world) (ev : event) :
  awaiting_open u n w -> is_open_settled ev = false ->
  awaiting_open u n (step w ev) /\ footprint (step w ev) = footprint w.
Proof.
  intros (Hw & Hi & He & Hp & Hc) Hev. unfold step.
  destruct (crashed w) eqn:Hcr; [repeat split; auto|].
  open_world w.
  destruct ev; try discriminate; unfold deliver; simpl; try (repeat split; auto; fail).
  destruct wlc; [|repeat split; auto].
  unfold settle. rewrite on_close_unfold. unfold footprint. unfold_world.
  rewrite !filter_snoc_out by reflexivity.
  repeat split; auto.
Qed.

Lemma awaiting_open_run (u n : jsstring) (w : world) (evs : list event) :
  awaiting_open u n w -> Forall (fun ev => is_open_settled ev = false) evs ->
  awaiting_open u n (run w evs) /\ footprint (run w evs) = footprint w.
Proof.
  revert w. induction evs as [|ev evs IH]; intros w H Hall; simpl; [auto|].
  inversion Hall as [|? ? Hev Hrest]; subst.
  destruct (awaiting_open_step u n w ev H Hev) as (H1 & H2).
  destruct (IH _ H1 Hrest) as (H3 & H4).
  split; [assumption | congruence].
Qed.

(** The probe answered: the name is resolved and the stream is asked for. *)
Lemma probe_answered (u name : jsstring) (status : nat) (hs : upstream_headers) (w : world) :
  crashed w = None -> awaiting_probe u w ->
  status < 400 ->
  getFileName (URL_pathname (env w)) (content_disposition hs) u = Ok name ->
  step w (ProbeSettled (Answer status hs))
  = set_waiting (AwaitOpen u name) (emit (Request GET u 0) w).
Proof.
  intros Hcr (Hw & _) Hs Hn. unfold step. rewrite Hcr. unfold deliver. rewrite Hw.
  unfold settle, after_probe, in_try, seq, try_, lift, update, read.
  cbv [axios_settle validateStatus]. destruct (Nat.ltb_spec status 400); [|lia].
  cbn [set_waiting env]. rewrite Hn. destruct w; reflexivity.
Qed.

(** The stream was opened: the headers are set, the listeners registered,
    the command built and started. *)
Lemma stream_opened (u name : jsstring) (status : nat) (hs : upstream_headers) (w : world) :
  crashed w = None -> awaiting_open u name w ->
  status < 400 ->
  headersSent (res w) = false -> commands w = [] ->
  existsb invalid_header_unit name = false ->
  ffmpeg_fault (env w) = None -> pipe_fault (env w) = None ->
  step w (OpenSettled (Answer status hs))
  = World (env w) (isClientConnected w) (Some 0) Returned (on_close_registered w) true true
      (Response (statusCode (res w)) false (finished (res w))
         (headers (res w)
          ++ [("Content-Disposition" : jsstring, disposition name);
              ("Content-Type" : jsstring, "video/mp4" : jsstring)]))
      [Running] (Some (0, true))
      (out w ++ [SetHeader "Content-Disposition" (disposition name);
                 SetHeader "Content-Type" "video/mp4";
                 Spawn 0 outputOptions])
      (kills w) None.
Proof.
  intros Hcr (Hw & Hi & He & Hp & Hc) Hs Hsent Hcs Hname Hff Hpf.
  unfold step. rewrite Hcr. unfold deliver. rewrite Hw.
  assert (Hd := disposition_valid name Hname). unfold disposition in *.
  destruct w as [wP wconn wcmd wt wlc wli wle [rcode rsent rfin rhs] wcs wpp wo wks wcr].
  cbn [env isClientConnected ffmpegCommand waiting on_close_registered
       on_input_registered on_engine_registered res commands piped out kills crashed
       statusCode headersSent finished headers] in *.
  subst.
  unfold settle, after_open, in_try, seq at 1, update, set_waiting.
  cbn [env isClientConnected ffmpegCommand waiting on_close_registered
       on_input_registered on_engine_registered res commands piped out kills crashed].
  unfold try_, seq at 1, lift. cbv [axios_settle validateStatus].
  destruct (Nat.ltb_spec status 400); [|lia].
  unfold seq at 1, setHeader.
  cbn [res headersSent]. rewrite Hd.
  unfold seq at 1. cbn [emit set_res res headersSent statusCode finished headers
       env isClientConnected ffmpegCommand waiting on_close_registered
       on_input_registered on_engine_registered commands piped out kills crashed].
  change (existsb invalid_header_unit "video/mp4") with false. cbv iota.
  unfold seq, update, ffmpeg, pipe.
  cbn [emit set_res set_listeners set_commands set_ffmpegCommand set_piped set_status
       res headersSent statusCode finished headers
       env isClientConnected ffmpegCommand waiting on_close_registered
       on_input_registered on_engine_registered commands piped out kills crashed
       app length replace_nth].
  rewrite Hff. cbn [emit set_res set_listeners set_commands set_ffmpegCommand set_piped
       set_status res headersSent statusCode finished headers
       env isClientConnected ffmpegCommand waiting on_close_registered
       on_input_registered on_engine_registered commands piped out kills crashed
       app length replace_nth].
  rewrite Hpf. cbn [emit set_res set_listeners set_commands set_ffmpegCommand set_piped
       set_status res headersSent statusCode finished headers
       env isClientConnected ffmpegCommand waiting on_close_registered
       on_input_registered on_engine_registered commands piped out kills crashed
       app length replace_nth].
  cbv beta iota delta
      [emit set_piped set_status set_ffmpegCommand set_listeners set_commands set_res
       res headersSent statusCode finished headers
       env isClientConnected ffmpegCommand waiting on_close_registered
       on_input_registered on_engine_registered commands piped out kills crashed
       replace_nth].
  rewrite <- !app_assoc. reflexivity.
Qed.


(** While the function is suspended and nothing is piped, an event that
    is not the answer it waits for is ignored, or is the disconnection of the
    client and is recorded. *)
Lemma suspended_step (w : world) (ev : event) :
  on_input_registered w = false -> on_engine_registered w = false -> piped w = None ->
  match ev, waiting w with
  | ProbeSettled _, AwaitProbe _ | OpenSettled _, AwaitOpen _ _ => False
  | _, _ => True
  end ->
  step w ev = w
  \/ step w ev = emit (Console log_client_disconnected) (set_connected false w).
Proof.
  intros Hi He Hp Hev. unfold step. destruct (crashed w); [auto|].
  destruct ev; unfold deliver; rewrite ?Hi, ?He; auto.
  - destruct (waiting w); [contradiction | auto | auto].
  - destruct (waiting w); [auto | contradiction | auto].
  - destruct (on_close_registered w); [right; reflexivity | auto].
  - left. unfold settle, forward. rewrite Hp. reflexivity.
  - left. unfold settle, exits. rewrite Hp. reflexivity.
  - left. unfold settle, output_ends. rewrite Hp. reflexivity.
Qed.

Lemma awaiting_probe_env (u : jsstring) (w : world) (evs : list event) :
  awaiting_probe u w -> Forall (fun ev => is_probe_settled ev = false) evs ->
  env (run w evs) = env w.
Proof.
  revert w. induction evs as [|ev evs IH]; intros w H Hall; simpl; [reflexivity|].
  inversion Hall as [|? ? Hev Hrest]; subst.
  destruct (awaiting_probe_step u w ev H Hev) as (H1 & _).
  rewrite (IH _ H1 Hrest).
  destruct H as (Hw & Hi & He & Hp & _).
  destruct (suspended_step w ev Hi He Hp) as [-> | ->]; try reflexivity.
  rewrite Hw. destruct ev; try exact I. discriminate.
Qed.

Lemma awaiting_open_env (u n : jsstring) (w : world) (evs : list event) :
  awaiting_open u n w -> Forall (fun ev => is_open_settled ev = false) evs ->
  env (run w evs) = env w.
Proof.
  revert w. induction evs as [|ev evs IH]; intros w H Hall; simpl; [reflexivity|].
  inversion Hall as [|? ? Hev Hrest]; subst.
  destruct (awaiting_open_step u n w ev H Hev) as (H1 & _).
  rewrite (IH _ H1 Hrest).
  destruct H as (Hw & Hi & He & Hp & _).
  destruct (suspended_step w ev Hi He Hp) as [-> | ->]; try reflexivity.
  rewrite Hw. destruct ev; try exact I. discriminate.
Qed.

(** The handler waits for the stream: the probe was answered, the name
    resolved and the stream asked for, whatever else happened meanwhile. *)
Lemma stream_awaited (P : platform) (u name : jsstring) (s1 : nat) (hs1 : upstream_headers)
    (before between : list event) :
  truthy (Some u) = true ->
  s1 < 400 ->
  getFileName (URL_pathname P) (content_disposition hs1) u = Ok name ->
  Forall (fun ev => is_probe_settled ev = false) before ->
  Forall (fun ev => is_open_settled ev = false) between ->
  let w := run (serve P (Some u)) (before ++ ProbeSettled (Answer s1 hs1) :: between) in
  awaiting_open u name w /\ env w = P
  /\ footprint w
     = (Response 200 false false [], [], [], [],
        [Request HEAD u 5000; Request GET u 0], []).
Proof.
  intros Hurl Hs1 Hname Hbefore Hbetween w.
  assert (H0 : serve P (Some u)
               = set_waiting (AwaitProbe u)
                   (emit (Request HEAD u 5000)
                      (set_listeners true false false (fresh P)))).
  { unfold serve, compress. rewrite Hurl. reflexivity. }
  assert (Ha0 : awaiting_probe u (serve P (Some u))) by (rewrite H0; repeat split).
  destruct (awaiting_probe_run u _ before Ha0 Hbefore) as (Ha1 & Hf1).
  assert (He1 := awaiting_probe_env u _ before Ha0 Hbefore).
  assert (Hc1 := consistent_reachable P (Some u) before).
  set (w1 := run (serve P (Some u)) before) in *.
  rewrite H0 in Hf1, He1. cbn [env set_waiting emit set_listeners fresh] in He1.
  assert (Hstep1 : step w1 (ProbeSettled (Answer s1 hs1))
                   = set_waiting (AwaitOpen u name) (emit (Request GET u 0) w1)).
  { apply probe_answered; try assumption; [apply Hc1 | rewrite He1; assumption]. }
  set (w2 := step w1 (ProbeSettled (Answer s1 hs1))) in *.
  assert (Ha2 : awaiting_open u name w2).
  { rewrite Hstep1. destruct Ha1 as (_ & Hi & He & Hp & Hc). repeat split; assumption. }
  assert (Hf2 : footprint w2
                = (Response 200 false false [], [], [], [],
                   [Request HEAD u 5000; Request GET u 0], [])).
  { rewrite Hstep1. unfold footprint in *. cbn [set_waiting emit res commands kills out].
    injection Hf1 as Hres Hcs Hks Hresp Hreq Hsp.
    rewrite !filter_app, Hres, Hcs, Hks, Hresp, Hreq, Hsp. reflexivity. }
  assert (He2 : env w2 = P) by (rewrite Hstep1; exact He1).
  destruct (awaiting_open_run u name w2 between Ha2 Hbetween) as (Ha3 & Hf3).
  assert (He3 := awaiting_open_env u name w2 between Ha2 Hbetween).
  assert (Hw : w = run w2 between).
  { unfold w. rewrite run_app. reflexivity. }
  rewrite Hw. split; [assumption|]. split; congruence.
Qed.

(** The stream could not be opened: the [catch] block runs. *)
Lemma open_refused (u n : jsstring) (r : reply) (e : exn) (w : world) :
  crashed w = None -> waiting w = AwaitOpen u n -> axios_settle 0 r = Throw e ->
  step w (OpenSettled r)
  = answered 500 ("Failed to process video: " ++ message e)
      (cleaned (emit (Console (error_caught (message e))) (set_waiting Returned w))).
Proof.
  intros Hcr Hw He. unfold step. rewrite Hcr. unfold deliver. rewrite Hw.
  unfold settle, after_open, in_try, seq at 1, update.
  unfold try_, seq at 1, lift. rewrite He. rewrite catch_block_unfold. reflexivity.
Qed.

(** The engine could not be built or started: the [catch] block runs,
    after the headers were set and the listeners registered. *)
Lemma engine_refused (u name : jsstring) (status : nat) (hs : upstream_headers) (e : exn)
    (w : world) :
  crashed w = None -> awaiting_open u name w ->
  status < 400 ->
  headersSent (res w) = false -> commands w = [] ->
  existsb invalid_header_unit name = false ->
  (ffmpeg_fault (env w) = Some e
   \/ (ffmpeg_fault (env w) = None /\ pipe_fault (env w) = Some e)) ->
  let w' := step w (OpenSettled (Answer status hs)) in
  res w' = Response 500 true true
             (headers (res w)
              ++ [("Content-Disposition" : jsstring, disposition name);
                  ("Content-Type" : jsstring, "video/mp4" : jsstring)])
  /\ filter on_response (out w')
     = filter on_response (out w)
       ++ [SetHeader "Content-Disposition" (disposition name);
           SetHeader "Content-Type" "video/mp4";
           Send 500 ("Failed to process video: " ++ message e)]
  /\ filter is_request (out w') = filter is_request (out w)
  /\ filter is_spawn (out w') = filter is_spawn (out w)
  /\ alive w' = 0 /\ piped w' = None /\ crashed w' = None
  /\ (ffmpeg_fault (env w) = Some e -> commands w' = [] /\ kills w' = kills w)
  /\ (ffmpeg_fault (env w) = None ->
      commands w' = [NotStarted] /\ kills w' = kills w ++ [(0, "SIGKILL" : jsstring)]).
Proof.
  intros Hcr (Hw & Hi & He & Hp & Hc) Hs Hsent Hcs Hname Hfault w'. unfold w'. clear w'.
  unfold step. rewrite Hcr. unfold deliver. rewrite Hw.
  assert (Hd := disposition_valid name Hname). unfold disposition in *.
  destruct w as [wP wconn wcmd wt wlc wli wle [rcode rsent rfin rhs] wcs wpp wo wks wcr].
  cbn [env isClientConnected ffmpegCommand waiting on_close_registered
       on_input_registered on_engine_registered res commands piped out kills crashed
       statusCode headersSent finished headers] in *.
  subst.
  unfold settle, after_open, in_try, seq at 1, update, set_waiting.
  cbn [env isClientConnected ffmpegCommand waiting on_close_registered
       on_input_registered on_engine_registered res commands piped out kills crashed].
  unfold try_, seq at 1, lift. cbv [axios_settle validateStatus].
  destruct (Nat.ltb_spec status 400); [|lia].
  unfold seq at 1, setHeader.
  cbn [res headersSent]. rewrite Hd.
  unfold seq at 1. cbn [emit set_res res headersSent statusCode finished headers
       env isClientConnected ffmpegCommand waiting on_close_registered
       on_input_registered on_engine_registered commands piped out kills crashed].
  change (existsb invalid_header_unit "video/mp4") with false. cbv iota.
  unfold seq, update, ffmpeg, pipe.
  cbv beta iota delta
      [emit set_piped set_status set_ffmpegCommand set_listeners set_commands set_res
       res headersSent statusCode finished headers
       env isClientConnected ffmpegCommand waiting on_close_registered
       on_input_registered on_engine_registered commands piped out kills crashed].
  destruct Hfault as [Hff|(Hff & Hpf)]; rewrite Hff; [|rewrite Hpf].
  all: rewrite catch_block_unfold, cleaned_unfold; unfold answered, alive.
  all: cbv beta iota zeta delta
      [emit note_kill set_status set_commands set_res status_of
       res headersSent statusCode finished headers
       env isClientConnected ffmpegCommand waiting on_close_registered
       on_input_registered on_engine_registered commands piped out kills crashed].
  all: cbn [app length nth replace_nth].
  2: destruct (kill_throws wP NotStarted).
  all: cbv beta iota zeta delta
      [emit note_kill set_status set_commands set_res status_of
       res headersSent statusCode finished headers
       env isClientConnected ffmpegCommand waiting on_close_registered
       on_input_registered on_engine_registered commands piped out kills crashed].
  all: cbn [app length nth replace_nth].
  all: rewrite <- ?app_assoc, !filter_app.
  all: cbn [filter on_response is_request is_spawn proc_status_eqb length app];
    rewrite ?app_nil_r.
  all: repeat split; try reflexivity; try discriminate; intros; try congruence.
Qed.

(** X10: a request whose two upstream requests are answered with a status
    below 400 gets its engine command.  Whatever else happens while the
    handler waits (the client may even have gone away), when the library
    calls do not throw and the resolved name holds no code unit a header
    refuses, the handler has set the two headers of the download and done
    nothing else on the response, whose status is 200 with nothing sent yet;
    the two requests went out in order; one engine command was built with
    the output options, is held in [ffmpegCommand] and was handed to [pipe]
    with [end: true], its listeners and the listener of the input stream
    registered; no [kill] was called. *)
Theorem engine_started (P : platform) (u name : jsstring) (s1 s2 : nat)
    (hs1 hs2 : upstream_headers) (before between : list event) :
  truthy (Some u) = true ->
  s1 < 400 -> s2 < 400 ->
  getFileName (URL_pathname P) (content_disposition hs1) u = Ok name ->
  existsb invalid_header_unit name = false ->
  ffmpeg_fault P = None -> pipe_fault P = None ->
  Forall (fun ev => is_probe_settled ev = false) before ->
  Forall (fun ev => is_open_settled ev = false) between ->
  let w := run (serve P (Some u))
             ((before ++ ProbeSettled (Answer s1 hs1) :: between)
                ++ [OpenSettled (Answer s2 hs2)]) in
  statusCode (res w) = 200 /\ headersSent (res w) = false
  /\ filter on_response (out w)
     = [SetHeader "Content-Disposition" (disposition name);
        SetHeader "Content-Type" "video/mp4"]
  /\ filter is_request (out w) = [Request HEAD u 5000; Request GET u 0]
  /\ filter is_spawn (out w) = [Spawn 0 outputOptions]
  /\ length (commands w) = 1 /\ ffmpegCommand w = Some 0 /\ piped w = Some (0, true)
  /\ on_input_registered w = true /\ on_engine_registered w = true
  /\ kills w = [] /\ crashed w = None.
Proof.
  intros Hurl Hs1 Hs2 Hname Hvalid Hff Hpf Hbefore Hbetween w.
  destruct (stream_awaited P u name s1 hs1 before between Hurl Hs1 Hname Hbefore Hbetween)
    as (Ha3 & He3 & Hf3).
  assert (Hc3 := consistent_reachable P (Some u)
                   (before ++ ProbeSettled (Answer s1 hs1) :: between)).
  set (w3 := run (serve P (Some u)) (before ++ ProbeSettled (Answer s1 hs1) :: between)) in *.
  unfold footprint in Hf3. injection Hf3 as Hres Hcs Hks Hresp Hreq Hsp.
  assert (Hw : w = step w3 (OpenSettled (Answer s2 hs2))) by apply run_snoc.
  rewrite Hw, (stream_opened u name s2 hs2 w3); try assumption.
  - cbn [res commands kills out ffmpegCommand piped crashed on_input_registered
         on_engine_registered statusCode headersSent length].
    rewrite !filter_app, Hres, Hks, Hresp, Hreq, Hsp. repeat split.
  - apply Hc3.
  - rewrite Hres. reflexivity.
  - rewrite He3. assumption.
  - rewrite He3. assumption.
Qed.

(** X13: when the stream cannot be opened (the GET request throws or is
    answered with a status of 400 or more) after a successful probe, the
    request is answered with status 500 and the message of the error; that
    answer is the only thing ever written to the response; the two requests
    are the only ones sent; and no engine command is ever created, started or
    killed, whatever events follow. *)
Theorem open_failure (P : platform) (u name : jsstring) (s1 : nat) (hs1 : upstream_headers)
    (r : reply) (before between after : list event) :
  truthy (Some u) = true ->
  s1 < 400 ->
  getFileName (URL_pathname P) (content_disposition hs1) u = Ok name ->
  probe_fails r = true ->
  Forall (fun ev => is_probe_settled ev = false) before ->
  Forall (fun ev => is_open_settled ev = false) between ->
  let w := run (serve P (Some u))
             ((before ++ ProbeSettled (Answer s1 hs1) :: between)
                ++ OpenSettled r :: after) in
  exists e,
    axios_settle 0 r = Throw e
    /\ statusCode (res w) = 500
    /\ filter on_response (out w)
       = [Send 500 ("Failed to process video: " ++ message e)]
    /\ filter is_request (out w) = [Request HEAD u 5000; Request GET u 0]
    /\ filter is_spawn (out w) = []
    /\ commands w = [] /\ kills w = [] /\ crashed w = None.
Proof.
  intros Hurl Hs1 Hname Hfail Hbefore Hbetween w.
  assert (He : exists e, axios_settle 0 r = Throw e).
  { destruct r as [e| |status hs]; cbv [axios_settle]; [eauto | eauto |].
    unfold validateStatus. cbv [probe_fails] in Hfail.
    apply Nat.leb_le in Hfail. destruct (Nat.ltb_spec status 400); [lia | eauto]. }
  destruct He as [e He]. exists e. split; [assumption|].
  destruct (stream_awaited P u name s1 hs1 before between Hurl Hs1 Hname Hbefore Hbetween)
    as (Ha3 & He3 & Hf3).
  assert (Hc3 := consistent_reachable P (Some u)
                   (before ++ ProbeSettled (Answer s1 hs1) :: between)).
  set (w3 := run (serve P (Some u)) (before ++ ProbeSettled (Answer s1 hs1) :: between)) in *.
  assert (Hstep : inert (step w3 (OpenSettled r))
                  /\ footprint (step w3 (OpenSettled r))
                     = (Response 500 true true [], [], [],
                        [Send 500 ("Failed to process video: " ++ message e)],
                        [Request HEAD u 5000; Request GET u 0], [])).
  { destruct Ha3 as (Hw & Hi & Hen & Hp & Hcmd).
    rewrite (open_refused u name r e w3 (proj1 Hc3) Hw He), cleaned_unfold.
    unfold footprint in *. injection Hf3 as Hres Hcs Hks Hresp Hreq Hsp.
    unfold answered. forget_strings. clear Hc3 He3. open_world w3.
    injection Hres as ? ? ? ?. subst.
    cbv beta iota zeta delta
      [emit set_res set_waiting res headersSent statusCode finished headers
       env isClientConnected ffmpegCommand waiting on_close_registered
       on_input_registered on_engine_registered commands piped out kills crashed].
    rewrite <- ?app_assoc, !filter_app, Hresp, Hreq, Hsp. repeat split. }
  destruct Hstep as (Hin & Hfoot).
  destruct (inert_run _ after Hin) as (_ & Hfinal & _).
  assert (Hw : w = run (step w3 (OpenSettled r)) after).
  { unfold w, w3. rewrite run_app. reflexivity. }
  rewrite <- Hw, Hfoot in Hfinal. unfold footprint in Hfinal.
  injection Hfinal as Hres Hcs Hks Hresp Hreq Hsp.
  rewrite Hres, Hcs, Hks, Hresp, Hreq, Hsp.
  repeat split.
  apply (consistent_reachable P (Some u)
           ((before ++ ProbeSettled (Answer s1 hs1) :: between) ++ OpenSettled r :: after)).
Qed.

(** X14: when the engine command cannot be built, or [pipe] throws, after
    both upstream requests succeeded, the request is answered with status 500
    and the message of the error, which ends the response, and that answer
    comes after the handler set the two headers of the download.  Nothing is
    piped; a command that was built gets one [kill], a command that was never
    built gets none. *)
Theorem start_failure (P : platform) (u name : jsstring) (s1 s2 : nat)
    (hs1 hs2 : upstream_headers) (e : exn) (before between : list event) :
  truthy (Some u) = true ->
  s1 < 400 -> s2 < 400 ->
  getFileName (URL_pathname P) (content_disposition hs1) u = Ok name ->
  existsb invalid_header_unit name = false ->
  (ffmpeg_fault P = Some e \/ (ffmpeg_fault P = None /\ pipe_fault P = Some e)) ->
  Forall (fun ev => is_probe_settled ev = false) before ->
  Forall (fun ev => is_open_settled ev = false) between ->
  let w := run (serve P (Some u))
             ((before ++ ProbeSettled (Answer s1 hs1) :: between)
                ++ [OpenSettled (Answer s2 hs2)]) in
  statusCode (res w) = 500 /\ headersSent (res w) = true /\ finished (res w) = true
  /\ filter on_response (out w)
     = [SetHeader "Content-Disposition" (disposition name);
        SetHeader "Content-Type" "video/mp4";
        Send 500 ("Failed to process video: " ++ message e)]
  /\ filter is_request (out w) = [Request HEAD u 5000; Request GET u 0]
  /\ filter is_spawn (out w) = []
  /\ piped w = None /\ crashed w = None
  /\ (ffmpeg_fault P = Some e -> length (commands w) = 0 /\ kills w = [])
  /\ (ffmpeg_fault P = None ->
      length (commands w) = 1 /\ kills w = [(0, "SIGKILL" : jsstring)]).
Proof.
  intros Hurl Hs1 Hs2 Hname Hvalid Hfault Hbefore Hbetween w.
  destruct (stream_awaited P u name s1 hs1 before between Hurl Hs1 Hname Hbefore Hbetween)
    as (Ha3 & He3 & Hf3).
  assert (Hc3 := consistent_reachable P (Some u)
                   (before ++ ProbeSettled (Answer s1 hs1) :: between)).
  set (w3 := run (serve P (Some u)) (before ++ ProbeSettled (Answer s1 hs1) :: between)) in *.
  unfold footprint in Hf3. injection Hf3 as Hres Hcs Hks Hresp Hreq Hsp.
  assert (Hw : w = step w3 (OpenSettled (Answer s2 hs2))) by apply run_snoc.
  rewrite <- He3 in Hfault.
  assert (Hsent : headersSent (res w3) = false) by (rewrite Hres; reflexivity).
  destruct (engine_refused u name s2 hs2 e w3 (proj1 Hc3) Ha3 Hs2 Hsent Hcs Hvalid Hfault)
    as (H1 & H2 & H3 & H4 & _ & H6 & H7 & H8 & H9).
  rewrite <- Hw in H1, H2, H3, H4, H6, H7, H8, H9.
  rewrite Hresp in H2. rewrite Hreq in H3. rewrite Hsp in H4. rewrite Hks, He3 in H8, H9.
  rewrite H1. cbn [statusCode headersSent finished].
  do 8 (split; [first [reflexivity | assumption] |]).
  split.
  - intros Hf. destruct (H8 Hf) as (-> & ->). split; reflexivity.
  - intros Hf. destruct (H9 Hf) as (-> & ->). split; reflexivity.
Qed.

(** *** Natural completion *)

Lemma engine_exits (w : world) :
  crashed w = None -> piped w = Some (0, true) -> commands w = [Running] ->
  step w EngineExit = set_status 0 Exited w.
Proof.
  intros Hcr Hp Hcs. unfold step. rewrite Hcr. unfold deliver, settle, exits.
  rewrite Hp. unfold status_of. rewrite Hcs. reflexivity.
Qed.

Lemma output_ended (w : world) :
  crashed w = None -> piped w = Some (0, true) -> commands w = [Exited] ->
  finished (res w) = false ->
  step w OutputEnd
  = emit EndResponse
      (set_res (Response (statusCode (res w)) true true (headers (res w))) w).
Proof.
  intros Hcr Hp Hcs Hf. unfold step. rewrite Hcr. unfold deliver, settle, output_ends.
  rewrite Hp. unfold status_of. rewrite Hcs, Hf. reflexivity.
Qed.

Lemma end_delivered (w : world) :
  crashed w = None -> on_engine_registered w = true ->
  step w EngineEnd = cleaned (emit (Console log_finished) w).
Proof.
  intros Hcr Hr. unfold step. rewrite Hcr. unfold deliver, settle.
  rewrite Hr, on_end_unfold. reflexivity.
Qed.

(** X11: when a running engine exits on its own, its output ends and its
    [end] event is delivered, all with the client still connected, the
    response is ended with the status and the headers it had, and the handler
    calls [kill] once on the command that has already exited, leaving no
    process alive.  The response was not ended before and the engine was
    running. *)
Theorem natural_completion_ends_response (P : platform) (url : option jsstring)
    (evs : list event) :
  let w := run (serve P url) evs in
  isClientConnected w = true ->
  commands w = [Running] -> finished (res w) = false ->
  let w' := run w [EngineExit; OutputEnd; EngineEnd] in
  commands w' = [Exited]
  /\ res w' = Response (statusCode (res w)) true true (headers (res w))
  /\ filter on_response (out w') = filter on_response (out w) ++ [EndResponse]
  /\ filter is_send (out w') = filter is_send (out w)
  /\ kills w' = kills w ++ [(0, "SIGKILL" : jsstring)]
  /\ alive w' = 0 /\ crashed w' = None.
Proof.
  intros w _ Hcs Hfin. assert (Hc := consistent_reachable P url evs). fold w in Hc.
  clearbody w. intros w'. unfold w'. clear w'.
  open_consistent w Hc; try discriminate.
  injection Hcs as ->. clear Hwait. subst rfin.
  cbn [run fold_left].
  rewrite engine_exits by reflexivity.
  rewrite output_ended by reflexivity.
  rewrite end_delivered by reflexivity.
  rewrite cleaned_unfold.
  cbv beta iota zeta delta [emit note_kill set_status set_commands set_res status_of nth
    replace_nth env isClientConnected ffmpegCommand waiting on_close_registered
    on_input_registered on_engine_registered res commands piped out kills crashed
    statusCode headers].
  unfold alive.
  destruct (kill_throws wP Exited).
  all: cbv beta iota zeta delta [emit note_kill set_status set_commands status_of nth
    replace_nth env isClientConnected ffmpegCommand waiting on_close_registered
    on_input_registered on_engine_registered res commands piped out kills crashed
    statusCode headers].
  all: rewrite !filter_app; cbn [filter on_response is_send proc_status_eqb length];
    rewrite ?app_nil_r.
  all: repeat split.
Qed.


(** *** After the disconnection of the client *)

Lemma silent_emit (L : list effect) (e : effect) (w : world) :
  is_engine_report e = false -> silent L w -> silent L (emit e w).
Proof.
  intros He (Hc & Hr). split; [exact Hc|].
  unfold engine_reports. cbn [emit out]. rewrite filter_app. cbn [filter]. rewrite He.
  rewrite app_nil_r. exact Hr.
Qed.

Lemma silent_cleaned (L : list effect) (w : world) : silent L w -> silent L (cleaned w).
Proof.
  intros H. rewrite cleaned_unfold. destruct (ffmpegCommand w) as [h|]; [|assumption].
  cbv zeta. destruct (kill_throws (env w) (status_of h w)).
  - apply silent_emit; [reflexivity | exact H].
  - destruct (status_of h w); exact H.
Qed.

Lemma silent_answered (L : list effect) (code : nat) (body : jsstring) (w : world) :
  silent L w -> silent L (answered code body w).
Proof.
  intros H. unfold answered. destruct (headersSent (res w)); [assumption|].
  apply silent_emit; [reflexivity | exact H].
Qed.

Lemma silent_catch_block (L : list effect) (e : exn) :
  triple (silent L) (catch_block e) (fun _ => silent L) (fun _ => silent L).
Proof.
  intros w H. rewrite catch_block_unfold.
  apply silent_answered, silent_cleaned, silent_emit; [reflexivity | assumption].
Qed.

Lemma silent_setHeader (L : list effect) (name value : jsstring) :
  triple (silent L) (setHeader name value) (fun _ => silent L) (fun _ => silent L).
Proof.
  intros w H. unfold setHeader. cbv zeta.
  destruct (headersSent (res w)); [assumption|].
  destruct (existsb invalid_header_unit value); [assumption|].
  apply silent_emit; [reflexivity | exact H].
Qed.

Lemma silent_after_probe (L : list effect) (u : jsstring) (r : reply) :
  triple (silent L) (after_probe u r) (fun _ => silent L) (fun _ => silent L).
Proof.
  unfold after_probe, in_try.
  apply triple_seq with (Mid := fun _ => silent L); [apply triple_update; auto|].
  intros _. apply triple_try with (Caught := fun _ => silent L); [|apply silent_catch_block].
  apply triple_seq with (Mid := fun _ => silent L).
  { apply triple_lift. intros w H. destruct (axios_settle 5000 r); assumption. }
  intros hs. apply triple_seq with (Mid := fun _ => silent L); [intros w H; exact H|].
  intros P. apply triple_seq with (Mid := fun _ => silent L).
  { apply triple_lift. intros w H. destruct (getFileName _ _ _); assumption. }
  intros n. apply triple_seq with (Mid := fun _ => silent L).
  { apply triple_update. intros w H. apply silent_emit; [reflexivity | assumption]. }
  intros _. apply triple_update. auto.
Qed.

Lemma silent_after_open (L : list effect) (u n : jsstring) (r : reply) :
  triple (silent L) (after_open u n r) (fun _ => silent L) (fun _ => silent L).
Proof.
  unfold after_open, in_try.
  apply triple_seq with (Mid := fun _ => silent L); [apply triple_update; auto|].
  intros _. apply triple_try with (Caught := fun _ => silent L); [|apply silent_catch_block].
  apply triple_seq with (Mid := fun _ => silent L).
  { apply triple_lift. intros w H. destruct (axios_settle 0 r); assumption. }
  intros hs. apply triple_seq with (Mid := fun _ => silent L); [apply silent_setHeader|].
  intros _. apply triple_seq with (Mid := fun _ => silent L); [apply silent_setHeader|].
  intros _. apply triple_seq with (Mid := fun _ => silent L); [apply triple_update; auto|].
  intros _. apply triple_seq with (Mid := fun _ => silent L).
  { intros w H. unfold ffmpeg. destruct (ffmpeg_fault (env w)); exact H. }
  intros h. apply triple_seq with (Mid := fun _ => silent L); [apply triple_update; auto|].
  intros _. apply triple_seq with (Mid := fun _ => silent L); [apply triple_update; auto|].
  intros _ w H. unfold pipe. destruct (pipe_fault (env w)); [exact H|].
  apply silent_emit; [reflexivity | exact H].
Qed.

Lemma silent_settle (L : list effect) (m : M unit) (w : world) :
  triple (silent L) m (fun _ => silent L) (fun _ => silent L) ->
  silent L w -> silent L (settle m w).
Proof.
  intros Hm H. specialize (Hm w H). unfold settle.
  destruct (m w) as [[a|e] w']; exact Hm.
Qed.

Lemma silent_step (L : list effect) (w : world) (ev : event) :
  silent L w -> silent L (step w ev).
Proof.
  intros H. unfold step. destruct (crashed w); [assumption|].
  destruct ev; unfold deliver.
  - destruct (waiting w); try assumption.
    apply silent_settle; [apply silent_after_probe | assumption].
  - destruct (waiting w); try assumption.
    apply silent_settle; [apply silent_after_open | assumption].
  - destruct (on_close_registered w); [|assumption].
    unfold settle. rewrite on_close_unfold.
    apply silent_emit; [reflexivity|]. split; [reflexivity | apply H].
  - destruct (on_input_registered w); [|assumption].
    unfold settle. rewrite on_input_error_unfold.
    apply silent_answered, silent_cleaned, silent_emit; [reflexivity | assumption].
  - destruct (on_engine_registered w); [|assumption].
    apply silent_emit; [reflexivity | assumption].
  - destruct (on_engine_registered w); [|assumption].
    destruct (on_progress_cases w p) as (w' & Hrun & [->|(x & _ & Hconn & ->)]);
      unfold settle; rewrite Hrun; [assumption|].
    destruct H as (Hc & _). congruence.
  - destruct (on_engine_registered w); [|assumption].
    unfold settle. rewrite on_engine_error_unfold. apply silent_cleaned.
    rewrite (proj1 H). apply silent_emit; [reflexivity | assumption].
  - destruct (on_engine_registered w); [|assumption].
    unfold settle. rewrite on_end_unfold.
    apply silent_cleaned, silent_emit; [reflexivity | assumption].
  - unfold settle, forward. destruct (piped w) as [[h b]|]; [|assumption].
    destruct (proc_status_eqb (status_of h w) Running && negb (finished (res w)));
      [|assumption].
    apply silent_emit; [reflexivity | exact H].
  - unfold settle, exits. destruct (piped w) as [[h b]|]; [|assumption].
    destruct (proc_status_eqb (status_of h w) Running); assumption.
  - unfold settle, output_ends. destruct (piped w) as [[h [|]]|]; try assumption.
    destruct ((proc_status_eqb (status_of h w) Exited
               || proc_status_eqb (status_of h w) Killed) && negb (finished (res w)));
      [|assumption].
    apply silent_emit; [reflexivity | exact H].
Qed.

(** X12: once the client is gone, the log says no more about the engine.
    The flag [isClientConnected] never comes back to true, and whatever
    happens afterwards adds no progress line, no engine error line and no
    line of the engine's diagnostic output to the console. *)
Theorem silent_after_disconnect (w : world) (evs : list event) :
  isClientConnected w = false ->
  isClientConnected (run w evs) = false
  /\ engine_reports (out (run w evs)) = engine_reports (out w).
Proof.
  intros Hc. assert (H : silent (engine_reports (out w)) w) by (split; auto).
  clear Hc. revert H. generalize (engine_reports (out w)) as L.
  revert w. induction evs as [|ev evs IH]; intros w L H; simpl; [exact H|].
  apply IH, silent_step, H.
Qed.


(** *** The calls of [kill] *)

Lemma kills_accounted_cleaned (w : world) : kills_accounted w -> kills_accounted (cleaned w).
Proof.
  intros (Hall & Hcmd). unfold kills_accounted.
  destruct (cleaned_fields w) as (Hk & _ & _ & _ & Hf & _). rewrite Hk, Hf.
  unfold kills_after_cleanup. destruct (ffmpegCommand w) as [h|].
  - subst h. split; [|reflexivity]. apply Forall_app. split; [assumption|].
    constructor; [reflexivity | constructor].
  - rewrite app_nil_r. split; assumption.
Qed.

Lemma kills_accounted_answered (code : nat) (body : jsstring) (w : world) :
  kills_accounted w -> kills_accounted (answered code body w).
Proof.
  intros H. unfold kills_accounted.
  destruct (answered_fields code body w) as (-> & _ & _ & -> & _). exact H.
Qed.

Lemma kills_accounted_stderr_logged (stderr : option jsstring) (w : world) :
  kills_accounted w -> kills_accounted (stderr_logged stderr w).
Proof.
  intros H. unfold kills_accounted.
  destruct (stderr_logged_fields stderr w) as (-> & _ & _ & -> & _). exact H.
Qed.

Lemma kills_accounted_catch_block (e : exn) :
  triple kills_accounted (catch_block e) (fun _ => kills_accounted) (fun _ _ => False).
Proof.
  intros w H. rewrite catch_block_unfold.
  apply kills_accounted_answered, kills_accounted_cleaned. exact H.
Qed.

Lemma kills_accounted_setHeader (name value : jsstring) :
  triple (fun w => kills_accounted w /\ commands w = []) (setHeader name value)
    (fun _ w => kills_accounted w /\ commands w = []) (fun _ => kills_accounted).
Proof.
  intros w (H & Hc). unfold setHeader. cbv zeta.
  destruct (headersSent (res w)); [assumption|].
  destruct (existsb invalid_header_unit value); [assumption|]. split; assumption.
Qed.

Lemma kills_accounted_after_probe (u : jsstring) (r : reply) :
  triple kills_accounted (after_probe u r) (fun _ => kills_accounted) (fun _ _ => False).
Proof.
  unfold after_probe, in_try.
  apply triple_seq with (Mid := fun _ => kills_accounted); [apply triple_update; auto|].
  intros _. apply triple_try with (Caught := fun _ => kills_accounted);
    [|apply kills_accounted_catch_block].
  apply triple_seq with (Mid := fun _ => kills_accounted).
  { apply triple_lift. intros w H. destruct (axios_settle 5000 r); assumption. }
  intros hs. apply triple_seq with (Mid := fun _ => kills_accounted); [intros w H; exact H|].
  intros P. apply triple_seq with (Mid := fun _ => kills_accounted).
  { apply triple_lift. intros w H. destruct (getFileName _ _ _); assumption. }
  intros n. apply triple_seq with (Mid := fun _ => kills_accounted);
    [apply triple_update; auto|].
  intros _. apply triple_update. auto.
Qed.

Lemma kills_accounted_after_open (u n : jsstring) (r : reply) :
  triple (fun w => kills_accounted w /\ commands w = [])
    (after_open u n r) (fun _ => kills_accounted) (fun _ _ => False).
Proof.
  unfold after_open, in_try.
  apply triple_seq with (Mid := fun _ w => kills_accounted w /\ commands w = []);
    [apply triple_update; auto|].
  intros _. apply triple_try with (Caught := fun _ => kills_accounted);
    [|apply kills_accounted_catch_block].
  apply triple_seq with (Mid := fun _ w => kills_accounted w /\ commands w = []).
  { apply triple_lift. intros w H. destruct (axios_settle 0 r); [assumption | apply H]. }
  intros hs.
  apply triple_seq with (Mid := fun _ w => kills_accounted w /\ commands w = []);
    [apply kills_accounted_setHeader|].
  intros _.
  apply triple_seq with (Mid := fun _ w => kills_accounted w /\ commands w = []);
    [apply kills_accounted_setHeader|].
  intros _.
  apply triple_seq with (Mid := fun _ w => kills_accounted w /\ commands w = []);
    [apply triple_update; auto|].
  intros _. apply triple_seq with (Mid := fun h w => h = 0 /\ kills_accounted w).
  { intros w (H & Hc). unfold ffmpeg. destruct (ffmpeg_fault (env w)); [exact H|].
    rewrite Hc. split; [reflexivity | exact H]. }
  intros h. apply triple_seq with (Mid := fun _ w => h = 0 /\ kills_accounted w);
    [apply triple_update; auto|].
  intros _. apply triple_seq with (Mid := fun _ w => kills_accounted w).
  { apply triple_update. intros w (-> & Hall & _). split; [exact Hall | reflexivity]. }
  intros _ w H. unfold pipe. destruct (pipe_fault (env w)); exact H.
Qed.

Lemma kills_accounted_step (w : world) (ev : event) :
  consistent w -> kills_accounted w -> kills_accounted (step w ev).
Proof.
  intros Hc H. unfold step. destruct (crashed w); [assumption|].
  destruct ev; unfold deliver.
  - destruct (waiting w) as [u'| |] eqn:Hw; try assumption.
    generalize (kills_accounted_after_probe u' r w H). unfold settle.
    destruct (after_probe u' r w) as [[a|e] w']; [auto | contradiction].
  - destruct (waiting w) as [|u' n|] eqn:Hw; try assumption.
    assert (Hcs : commands w = []).
    { destruct Hc as (_ & Hwait & _). apply Hwait. congruence. }
    generalize (kills_accounted_after_open u' n r w (conj H Hcs)). unfold settle.
    destruct (after_open u' n r w) as [[a|e] w']; [auto | contradiction].
  - destruct (on_close_registered w); [|assumption]. exact H.
  - destruct (on_input_registered w); [|assumption].
    unfold settle. rewrite on_input_error_unfold.
    apply kills_accounted_answered, kills_accounted_cleaned. exact H.
  - destruct (on_engine_registered w); [|assumption]. exact H.
  - destruct (on_engine_registered w); [|assumption].
    destruct (on_progress_cases w p) as (w' & Hrun & [->|(x & _ & _ & ->)]);
      unfold settle; rewrite Hrun; exact H.
  - destruct (on_engine_registered w); [|assumption].
    unfold settle. rewrite on_engine_error_unfold. apply kills_accounted_cleaned.
    destruct (isClientConnected w); [|exact H].
    apply kills_accounted_answered, kills_accounted_stderr_logged. exact H.
  - destruct (on_engine_registered w); [|assumption].
    unfold settle. rewrite on_end_unfold. apply kills_accounted_cleaned. exact H.
  - unfold settle, forward. destruct (piped w) as [[h b]|]; [|assumption].
    destruct (proc_status_eqb (status_of h w) Running && negb (finished (res w)));
      exact H.
  - unfold settle, exits. destruct (piped w) as [[h b]|]; [|assumption].
    destruct (proc_status_eqb (status_of h w) Running); exact H.
  - unfold settle, output_ends. destruct (piped w) as [[h [|]]|]; try assumption.
    destruct ((proc_status_eqb (status_of h w) Exited
               || proc_status_eqb (status_of h w) Killed) && negb (finished (res w)));
      exact H.
Qed.

Lemma kills_accounted_serve (P : platform) (url : option jsstring) :
  kills_accounted (serve P url).
Proof.
  unfold serve, compress. destruct (truthy url); cbn [negb]; split; constructor.
Qed.

(** X16: the handler kills nothing but its own command, and only with
    SIGKILL.  In every state a request goes through, every call of [kill] so
    far was [kill('SIGKILL')] on the one engine command of the request, and
    none was made before that command was built. *)
Theorem kills_only_the_command (P : platform) (url : option jsstring) (evs : list event) :
  let w := run (serve P url) evs in
  Forall (fun k => k = (0, "SIGKILL" : jsstring)) (kills w)
  /\ (commands w = [] -> kills w = []).
Proof.
  assert (H : forall evs w, consistent w -> kills_accounted w ->
                            kills_accounted (run w evs)).
  { clear evs. induction evs as [|ev evs IH]; intros w Hc H; simpl; [assumption|].
    apply IH; [apply consistent_step, Hc | apply kills_accounted_step; assumption]. }
  intros w.
  destruct (H evs (serve P url) (consistent_serve P url) (kills_accounted_serve P url))
    as (Hall & Hcmd).
  fold w in Hall, Hcmd. split; [exact Hall|].
  intros Hcs. assert (Hc := consistent_reachable P url evs). fold w in Hc.
  destruct (consistent_commands w Hc) as [(_ & Hnone)|(st & Hst & _)]; [|congruence].
  rewrite Hnone in Hcmd. exact Hcmd.
Qed.

(** *** Every way a request ends *)

Lemma caught_emit (e : effect) (w : world) :
  caught (emit e w) = caught w + (if is_caught e then 1 else 0).
Proof.
  unfold caught. cbn [emit out]. rewrite filter_app, length_app. cbn [filter].
  destruct (is_caught e); reflexivity.
Qed.

Lemma caught_cleaned (w : world) : caught (cleaned w) = caught w.
Proof.
  rewrite cleaned_unfold. destruct (ffmpegCommand w) as [h|]; [|reflexivity].
  cbv zeta. destruct (kill_throws (env w) (status_of h w)).
  - rewrite caught_emit. cbn [is_caught]. apply Nat.add_0_r.
  - destruct (status_of h w); reflexivity.
Qed.

Lemma caught_answered (code : nat) (body : jsstring) (w : world) :
  caught (answered code body w) = caught w.
Proof.
  unfold answered. destruct (headersSent (res w)); [reflexivity|].
  rewrite caught_emit. cbn [is_caught]. apply Nat.add_0_r.
Qed.

Lemma caught_stderr_logged (stderr : option jsstring) (w : world) :
  caught (stderr_logged stderr w) = caught w.
Proof.
  unfold stderr_logged. destruct stderr as [t|]; [|reflexivity].
  destruct (truthy_string t); [|reflexivity].
  rewrite caught_emit. cbn [is_caught]. apply Nat.add_0_r.
Qed.

(** A run of the [catch] block: one more line, one call of [cleanup]. *)
Lemma tally_catch_block (K : list (handle * jsstring)) (c : nat) (e : exn) :
  triple (tally K c) (catch_block e) (fun _ => settled_since K c) (fun _ _ => False).
Proof.
  intros w (Hk & Hc). rewrite catch_block_unfold. right.
  set (w1 := emit (Console (error_caught (message e))) w).
  split.
  - rewrite caught_answered, caught_cleaned. unfold w1. rewrite caught_emit, Hc.
    cbn [is_caught]. lia.
  - destruct (answered_fields 500 ("Failed to process video: " ++ message e) (cleaned w1))
      as (-> & _ & _ & -> & _).
    destruct (cleaned_fields w1) as (-> & _ & _ & _ & -> & _).
    unfold kills_after_cleanup, w1. cbn [emit kills ffmpegCommand]. rewrite Hk. reflexivity.
Qed.

Lemma tally_setHeader (K : list (handle * jsstring)) (c : nat) (name value : jsstring) :
  triple (tally K c) (setHeader name value) (fun _ => tally K c) (fun _ => tally K c).
Proof.
  intros w (Hk & Hc). unfold setHeader. cbv zeta.
  destruct (headersSent (res w)); [split; assumption|].
  destruct (existsb invalid_header_unit value); [split; assumption|].
  split; [exact Hk|]. rewrite caught_emit. cbn [is_caught]. rewrite Nat.add_0_r. exact Hc.
Qed.

Lemma tally_after_probe (K : list (handle * jsstring)) (c : nat) (u : jsstring) (r : reply) :
  triple (tally K c) (after_probe u r) (fun _ => settled_since K c) (fun _ _ => False).
Proof.
  unfold after_probe, in_try.
  apply triple_seq with (Mid := fun _ => tally K c); [apply triple_update; auto|].
  intros _. apply triple_try with (Caught := fun _ => tally K c);
    [|apply tally_catch_block].
  apply triple_seq with (Mid := fun _ => tally K c).
  { apply triple_lift. intros w H. destruct (axios_settle 5000 r); assumption. }
  intros hs. apply triple_seq with (Mid := fun _ => tally K c); [intros w H; exact H|].
  intros P. apply triple_seq with (Mid := fun _ => tally K c).
  { apply triple_lift. intros w H. destruct (getFileName _ _ _); assumption. }
  intros n. apply triple_seq with (Mid := fun _ => tally K c).
  { apply triple_update. intros w (Hk & Hc). split; [exact Hk|].
    rewrite caught_emit, Hc. cbn [is_caught]. apply Nat.add_0_r. }
  intros _. apply triple_update. intros w H. left. exact H.
Qed.

Lemma tally_after_open (K : list (handle * jsstring)) (c : nat) (u n : jsstring) (r : reply) :
  triple (tally K c) (after_open u n r) (fun _ => settled_since K c) (fun _ _ => False).
Proof.
  unfold after_open, in_try.
  apply triple_seq with (Mid := fun _ => tally K c); [apply triple_update; auto|].
  intros _. apply triple_try with (Caught := fun _ => tally K c);
    [|apply tally_catch_block].
  apply triple_seq with (Mid := fun _ => tally K c).
  { apply triple_lift. intros w H. destruct (axios_settle 0 r); assumption. }
  intros hs. apply triple_seq with (Mid := fun _ => tally K c); [apply tally_setHeader|].
  intros _. apply triple_seq with (Mid := fun _ => tally K c); [apply tally_setHeader|].
  intros _. apply triple_seq with (Mid := fun _ => tally K c); [apply triple_update; auto|].
  intros _. apply triple_seq with (Mid := fun _ => tally K c).
  { intros w H. unfold ffmpeg. destruct (ffmpeg_fault (env w)); exact H. }
  intros h. apply triple_seq with (Mid := fun _ => tally K c); [apply triple_update; auto|].
  intros _. apply triple_seq with (Mid := fun _ => tally K c); [apply triple_update; auto|].
  intros _ w (Hk & Hc). unfold pipe. destruct (pipe_fault (env w)); [split; assumption|].
  left. split; [exact Hk|]. rewrite caught_emit. cbn [is_caught]. rewrite Nat.add_0_r.
  exact Hc.
Qed.

(** Whatever happens, the [catch] block runs at most once more, and when
    it runs [cleanup] is called. *)
Lemma caught_step (w : world) (ev : event) :
  caught (step w ev) = S (caught w) -> cleanup_called w (step w ev).
Proof.
  unfold step. destruct (crashed w); [intros H; lia|].
  assert (Hsettled : forall m,
            triple (tally (kills w) (caught w)) m
              (fun _ => settled_since (kills w) (caught w)) (fun _ _ => False) ->
            caught (settle m w) = S (caught w) -> cleanup_called w (settle m w)).
  { intros m Hm. specialize (Hm w (conj eq_refl eq_refl)). unfold settle.
    destruct (m w) as [[a|e] w']; [|contradiction].
    destruct Hm as [(_ & Hc)|(_ & Hk)]; intros H; [lia | exact Hk]. }
  destruct ev; unfold deliver.
  - destruct (waiting w); try (intros H; lia). apply Hsettled, tally_after_probe.
  - destruct (waiting w); try (intros H; lia). apply Hsettled, tally_after_open.
  - destruct (on_close_registered w); [|intros H; lia].
    unfold settle. rewrite on_close_unfold, caught_emit. cbn [is_caught].
    change (caught (set_connected false w)) with (caught w). lia.
  - destruct (on_input_registered w); [|intros H; lia].
    unfold settle. rewrite on_input_error_unfold, caught_answered, caught_cleaned, caught_emit.
    cbn [is_caught]. lia.
  - destruct (on_engine_registered w); [|intros H; lia].
    unfold settle, on_start, console, update. rewrite caught_emit. cbn [is_caught]. lia.
  - destruct (on_engine_registered w); [|intros H; lia].
    destruct (on_progress_cases w p) as (w' & Hrun & [->|(x & _ & _ & ->)]);
      unfold settle; rewrite Hrun; [lia|].
    rewrite caught_emit. cbn [is_caught]. lia.
  - destruct (on_engine_registered w); [|intros H; lia].
    unfold settle. rewrite on_engine_error_unfold, caught_cleaned.
    destruct (isClientConnected w).
    + rewrite caught_answered, caught_stderr_logged, caught_emit. cbn [is_caught]. lia.
    + rewrite caught_emit. cbn [is_caught]. lia.
  - destruct (on_engine_registered w); [|intros H; lia].
    unfold settle. rewrite on_end_unfold, caught_cleaned, caught_emit. cbn [is_caught]. lia.
  - unfold settle, forward. destruct (piped w) as [[h b]|]; [|intros H; lia].
    destruct (proc_status_eqb (status_of h w) Running && negb (finished (res w)));
      [|intros H; lia].
    rewrite caught_emit. cbn [is_caught].
    match goal with |- caught ?x + 0 = _ -> _ => change (caught x) with (caught w) end. lia.
  - unfold settle, exits. destruct (piped w) as [[h b]|]; [|intros H; lia].
    destruct (proc_status_eqb (status_of h w) Running); [|intros H; lia].
    change (caught (set_status h Exited w)) with (caught w). lia.
  - unfold settle, output_ends. destruct (piped w) as [[h [|]]|]; try (intros H; lia).
    destruct ((proc_status_eqb (status_of h w) Exited
               || proc_status_eqb (status_of h w) Killed) && negb (finished (res w)));
      [|intros H; lia].
    rewrite caught_emit. cbn [is_caught].
    match goal with |- caught ?x + 0 = _ -> _ => change (caught x) with (caught w) end. lia.
Qed.

Lemma failing_reply (timeout_ms : nat) (r : reply) :
  probe_fails r = true -> exists e, axios_settle timeout_ms r = Throw e.
Proof.
  intros Hfail. destruct r as [e| |status hs]; cbv [axios_settle]; [eauto | eauto |].
  unfold validateStatus. cbv [probe_fails] in Hfail.
  apply Nat.leb_le in Hfail. destruct (Nat.ltb_spec status 400); [lia | eauto].
Qed.

(** The probe could not be made: the [catch] block runs. *)
Lemma probe_refused (u : jsstring) (r : reply) (e : exn) (w : world) :
  crashed w = None -> waiting w = AwaitProbe u -> axios_settle 5000 r = Throw e ->
  step w (ProbeSettled r)
  = answered 500 ("Failed to process video: " ++ message e)
      (cleaned (emit (Console (error_caught (message e))) (set_waiting Returned w))).
Proof.
  intros Hcr Hw He. unfold step. rewrite Hcr. unfold deliver. rewrite Hw.
  unfold settle, after_probe, in_try, seq at 1, update.
  unfold try_, seq at 1, lift. rewrite He. rewrite catch_block_unfold. reflexivity.
Qed.

(** C1, as amended, for the handler with [cleanup]: a request has at most
    one engine command, the one held in [ffmpegCommand], so at most one
    process is alive.  Every way the request ends calls [cleanup] once, which
    calls [kill('SIGKILL')] on that command when it has been built, and takes
    nothing down, whether or not [kill] throws: the [end] event, an error
    event of the engine and an error of the input stream, delivered to the
    listeners; and the [catch] block, whenever it runs.  A failed upstream
    request, the probe or the opening of the stream, runs the [catch]
    block. *)
Theorem kill_on_every_termination_path (P : platform) (url : option jsstring)
    (evs : list event) :
  let w := run (serve P url) evs in
  length (commands w) <= 1 /\ alive w <= 1
  /\ (forall h, h < length (commands w) -> ffmpegCommand w = Some h)
  /\ (forall ev m, deliver ev w = Some m -> termination_path m ->
        crashed (step w ev) = None /\ cleanup_called w (step w ev))
  /\ (forall ev, caught (step w ev) = S (caught w) ->
        crashed (step w ev) = None /\ cleanup_called w (step w ev))
  /\ (forall r, (exists u, waiting w = AwaitProbe u) -> probe_fails r = true ->
        caught (step w (ProbeSettled r)) = S (caught w))
  /\ (forall r, (exists u n, waiting w = AwaitOpen u n) -> probe_fails r = true ->
        caught (step w (OpenSettled r)) = S (caught w)).
Proof.
  intros w. assert (Hc := consistent_reachable P url evs). fold w in Hc. clearbody w.
  assert (Hcr : forall ev, crashed (step w ev) = None).
  { intros ev. apply (consistent_step w ev Hc). }
  split; [|split; [|split; [|split; [|split; [|split]]]]].
  - destruct (consistent_commands w Hc) as [(-> & _)|(st & -> & _)]; cbn [length]; lia.
  - unfold alive.
    destruct (consistent_commands w Hc) as [(-> & _)|(st & -> & _)]; cbn [filter length];
      [lia|]. destruct (proc_status_eqb st Running); cbn [length]; lia.
  - intros h Hh.
    destruct (consistent_commands w Hc) as [(Hcs & _)|(st & Hcs & Hcmd)];
      rewrite Hcs in Hh; cbn [length] in Hh; [lia|].
    rewrite Hcmd. f_equal. lia.
  - intros ev m Hev Hm. split; [apply Hcr|].
    unfold step. rewrite (proj1 Hc), Hev.
    destruct (termination_path_cleans m w Hm) as (w' & Hrun & Hk & _ & _).
    unfold settle. rewrite Hrun. unfold cleanup_called. rewrite Hk.
    unfold kills_after_cleanup. f_equal.
    assert (Hf : ffmpegCommand w' = ffmpegCommand w).
    { clear -Hm Hrun. destruct Hm as [ |err stderr|e|e].
      - rewrite on_end_unfold in Hrun. injection Hrun as <-.
        apply (cleaned_fields (emit (Console log_finished) w)).
      - rewrite on_engine_error_unfold in Hrun. injection Hrun as <-.
        match goal with |- ffmpegCommand (cleaned ?x) = _ =>
          rewrite (proj1 (proj2 (proj2 (proj2 (proj2 (cleaned_fields x)))))) end.
        destruct (isClientConnected w); [|reflexivity].
        match goal with |- ffmpegCommand (answered ?c ?b ?x) = _ =>
          rewrite (proj1 (proj2 (proj2 (proj2 (answered_fields c b x))))) end.
        rewrite (proj1 (proj2 (proj2 (proj2 (stderr_logged_fields stderr _))))).
        reflexivity.
      - rewrite on_input_error_unfold in Hrun. injection Hrun as <-.
        match goal with |- ffmpegCommand (answered ?c ?b ?x) = _ =>
          rewrite (proj1 (proj2 (proj2 (proj2 (answered_fields c b x))))) end.
        apply (cleaned_fields (emit (Console (error_input_stream e)) w)).
      - rewrite catch_block_unfold in Hrun. injection Hrun as <-.
        match goal with |- ffmpegCommand (answered ?c ?b ?x) = _ =>
          rewrite (proj1 (proj2 (proj2 (proj2 (answered_fields c b x))))) end.
        apply (cleaned_fields (emit (Console (error_caught (message e))) w)). }
    rewrite Hf. reflexivity.
  - intros ev H. split; [apply Hcr | apply caught_step, H].
  - intros r (u & Hw) Hfail. destruct (failing_reply 5000 r Hfail) as (e & He).
    rewrite (probe_refused u r e w (proj1 Hc) Hw He).
    rewrite caught_answered, caught_cleaned, caught_emit. cbn [is_caught].
    change (caught (set_waiting Returned w)) with (caught w). lia.
  - intros r (u & n & Hw) Hfail. destruct (failing_reply 0 r Hfail) as (e & He).
    rewrite (open_refused u n r e w (proj1 Hc) Hw He).
    rewrite caught_answered, caught_cleaned, caught_emit. cbn [is_caught].
    change (caught (set_waiting Returned w)) with (caught w). lia.
Qed.

(** *** Where the headers of a response come from *)

Lemma headers_accounted_cleaned (w : world) :
  consistent w -> headers_accounted w -> headers_accounted (cleaned w).
Proof.
  intros Hc H. unfold headers_accounted in *.
  destruct (cleaned_fields w) as (_ & Hcs & _ & -> & _ & -> & _).
  destruct H as [H|[H|(Hp & Hs)]]; [auto | auto |].
  right. right. split; [exact Hp|].
  unfold status_of in *. rewrite Hcs. unfold commands_after_cleanup.
  destruct (consistent_commands w Hc) as [(Hnil & ->)|(st & Hst & ->)]; [exact Hs|].
  unfold status_of. rewrite Hst in *. cbn [nth] in *.
  destruct (kill_throws (env w) st); [exact Hs|].
  destruct st; cbn [replace_nth nth]; try exact Hs. discriminate.
Qed.

Lemma headers_accounted_answered (code : nat) (body : jsstring) (w : world) :
  headers_accounted w -> headers_accounted (answered code body w).
Proof.
  intros H. unfold answered. destruct (headersSent (res w)); [exact H|].
  right. left. reflexivity.
Qed.

Lemma headers_accounted_stderr_logged (stderr : option jsstring) (w : world) :
  headers_accounted w -> headers_accounted (stderr_logged stderr w).
Proof.
  intros H. unfold stderr_logged. destruct stderr as [t|]; [|exact H].
  destruct (truthy_string t); exact H.
Qed.

Lemma unsent_catch_block (e : exn) :
  triple unsent (catch_block e) (fun _ => headers_accounted) (fun _ _ => False).
Proof.
  intros w H. rewrite catch_block_unfold. unfold answered.
  destruct (cleaned_fields (emit (Console (error_caught (message e))) w))
    as (_ & _ & _ & Hres & _).
  rewrite Hres. cbn [emit res]. unfold unsent in H. rewrite H. right. left. reflexivity.
Qed.

Lemma unsent_setHeader (name value : jsstring) :
  triple unsent (setHeader name value) (fun _ => unsent) (fun _ => unsent).
Proof.
  intros w H. unfold setHeader. cbv zeta. unfold unsent in *. rewrite H.
  destruct (existsb invalid_header_unit value); [exact H | reflexivity].
Qed.

Lemma unsent_after_probe (u : jsstring) (r : reply) :
  triple unsent (after_probe u r) (fun _ => headers_accounted) (fun _ _ => False).
Proof.
  unfold after_probe, in_try.
  apply triple_seq with (Mid := fun _ => unsent); [apply triple_update; auto|].
  intros _. apply triple_try with (Caught := fun _ => unsent); [|apply unsent_catch_block].
  apply triple_seq with (Mid := fun _ => unsent).
  { apply triple_lift. intros w H. destruct (axios_settle 5000 r); assumption. }
  intros hs. apply triple_seq with (Mid := fun _ => unsent); [intros w H; exact H|].
  intros P. apply triple_seq with (Mid := fun _ => unsent).
  { apply triple_lift. intros w H. destruct (getFileName _ _ _); assumption. }
  intros n. apply triple_seq with (Mid := fun _ => unsent); [apply triple_update; auto|].
  intros _. apply triple_update. intros w H. left. exact H.
Qed.

Lemma unsent_after_open (u n : jsstring) (r : reply) :
  triple unsent (after_open u n r) (fun _ => headers_accounted) (fun _ _ => False).
Proof.
  unfold after_open, in_try.
  apply triple_seq with (Mid := fun _ => unsent); [apply triple_update; auto|].
  intros _. apply triple_try with (Caught := fun _ => unsent); [|apply unsent_catch_block].
  apply triple_seq with (Mid := fun _ => unsent).
  { apply triple_lift. intros w H. destruct (axios_settle 0 r); assumption. }
  intros hs. apply triple_seq with (Mid := fun _ => unsent); [apply unsent_setHeader|].
  intros _. apply triple_seq with (Mid := fun _ => unsent); [apply unsent_setHeader|].
  intros _. apply triple_seq with (Mid := fun _ => unsent); [apply triple_update; auto|].
  intros _. apply triple_seq with (Mid := fun _ => unsent).
  { intros w H. unfold ffmpeg. destruct (ffmpeg_fault (env w)); exact H. }
  intros h. apply triple_seq with (Mid := fun _ => unsent); [apply triple_update; auto|].
  intros _. apply triple_seq with (Mid := fun _ => unsent); [apply triple_update; auto|].
  intros _ w H. unfold pipe. destruct (pipe_fault (env w)); [exact H|]. left. exact H.
Qed.

Lemma headers_accounted_step (w : world) (ev : event) :
  consistent w -> headers_accounted w -> headers_accounted (step w ev).
Proof.
  intros Hc H. unfold step. rewrite (proj1 Hc).
  assert (Hsusp : waiting w <> Returned -> unsent w).
  { intros Hw. destruct Hc as (_ & Hwait & _). apply (Hwait Hw). }
  destruct ev; unfold deliver.
  - destruct (waiting w) as [u| |] eqn:Hw; try assumption.
    generalize (unsent_after_probe u r w (Hsusp ltac:(discriminate))). unfold settle.
    destruct (after_probe u r w) as [[a|e] w']; [auto | contradiction].
  - destruct (waiting w) as [|u n|] eqn:Hw; try assumption.
    generalize (unsent_after_open u n r w (Hsusp ltac:(discriminate))). unfold settle.
    destruct (after_open u n r w) as [[a|e] w']; [auto | contradiction].
  - destruct (on_close_registered w); [|assumption]. exact H.
  - destruct (on_input_registered w); [|assumption].
    unfold settle. rewrite on_input_error_unfold.
    apply headers_accounted_answered, headers_accounted_cleaned; [|exact H].
    apply consistent_emit, Hc.
  - destruct (on_engine_registered w); [|assumption]. exact H.
  - destruct (on_engine_registered w); [|assumption].
    destruct (on_progress_cases w p) as (w' & Hrun & [->|(x & _ & _ & ->)]);
      unfold settle; rewrite Hrun; exact H.
  - destruct (on_engine_registered w) eqn:Hr; [|assumption].
    unfold settle. rewrite on_engine_error_unfold.
    destruct (isClientConnected w).
    + apply headers_accounted_cleaned.
      * apply consistent_answered.
        -- apply consistent_stderr_logged, consistent_emit, Hc.
        -- assert (Hw := registered_means_returned w Hc (or_intror Hr)).
           unfold stderr_logged. destruct stderr as [t|]; [|assumption].
           destruct (truthy_string t); assumption.
      * apply headers_accounted_answered, headers_accounted_stderr_logged. exact H.
    + apply headers_accounted_cleaned; [apply consistent_emit, Hc | exact H].
  - destruct (on_engine_registered w); [|assumption].
    unfold settle. rewrite on_end_unfold.
    apply headers_accounted_cleaned; [apply consistent_emit, Hc | exact H].
  - unfold headers_accounted in *. open_consistent w Hc; unfold_body; split_matches;
      simpl; intuition (try discriminate; try congruence).
    all: right; right; split; [reflexivity|]; destruct st; simpl in *;
      try discriminate; congruence.
  - unfold headers_accounted in *. open_consistent w Hc; unfold_body; split_matches;
      simpl; intuition (try discriminate; try congruence).
  - unfold headers_accounted in *. open_consistent w Hc; unfold_body; split_matches;
      simpl; intuition (try discriminate; try congruence).
Qed.

Lemma headers_accounted_reachable (P : platform) (url : option jsstring) (evs : list event) :
  headers_accounted (run (serve P url) evs).
Proof.
  assert (H : forall evs w, consistent w -> headers_accounted w ->
                            headers_accounted (run w evs)).
  { clear evs. induction evs as [|ev evs IH]; intros w Hc H; simpl; [assumption|].
    apply IH; [apply consistent_step, Hc | apply headers_accounted_step; assumption]. }
  apply H; [apply consistent_serve|].
  unfold serve, compress. destruct (truthy url); cbn [negb].
  - left. reflexivity.
  - right. left. reflexivity.
Qed.

(** *** An error of the engine *)

Lemma sends_emit (e : effect) (w : world) :
  filter is_send (out (emit e w))
  = filter is_send (out w) ++ (if is_send e then [e] else []).
Proof. cbn [emit out]. apply sends_snoc. Qed.

Lemma sends_cleaned (w : world) : filter is_send (out (cleaned w)) = filter is_send (out w).
Proof.
  rewrite cleaned_unfold. destruct (ffmpegCommand w) as [h|]; [|reflexivity].
  cbv zeta. destruct (kill_throws (env w) (status_of h w)).
  - rewrite sends_emit. apply app_nil_r.
  - destruct (status_of h w); reflexivity.
Qed.

Lemma sends_stderr_logged (stderr : option jsstring) (w : world) :
  filter is_send (out (stderr_logged stderr w)) = filter is_send (out w).
Proof.
  unfold stderr_logged. destruct stderr as [t|]; [|reflexivity].
  destruct (truthy_string t); [|reflexivity]. rewrite sends_emit. apply app_nil_r.
Qed.

Lemma console_lines_cleaned (w : world) (l : line) :
  In l (console_lines (out (cleaned w))) ->
  In l (console_lines (out w)) \/ exists e, l = error_killing e.
Proof.
  rewrite cleaned_unfold. destruct (ffmpegCommand w) as [h|]; [|auto].
  cbv zeta. destruct (kill_throws (env w) (status_of h w)) as [e|].
  - cbn [emit out]. rewrite console_lines_snoc, in_app_iff. cbn [In note_kill out].
    intros [H|[<-|[]]]; eauto.
  - destruct (status_of h w); auto.
Qed.

(** The end of the output of an engine that has exited or was killed ends
    the response, with the status it has. *)
Lemma output_ends_finishes (w : world) :
  crashed w = None ->
  finished (res w) = true
  \/ (piped w = Some (0, true) /\ (status_of 0 w = Exited \/ status_of 0 w = Killed)) ->
  finished (res (step w OutputEnd)) = true
  /\ statusCode (res (step w OutputEnd)) = statusCode (res w)
  /\ filter is_send (out (step w OutputEnd)) = filter is_send (out w).
Proof.
  intros Hcr H. unfold step. rewrite Hcr. unfold deliver, settle, output_ends.
  destruct (finished (res w)) eqn:Hf.
  - destruct (piped w) as [[h [|]]|]; try (rewrite Hf; auto).
    rewrite andb_false_r. rewrite Hf. auto.
  - destruct H as [H|(Hp & Hs)]; [discriminate|]. rewrite Hp.
    assert (Hst : proc_status_eqb (status_of 0 w) Exited
                  || proc_status_eqb (status_of 0 w) Killed = true).
    { destruct Hs as [-> | ->]; reflexivity. }
    rewrite Hst. cbn [negb andb]. cbn [emit set_res res finished statusCode].
    split; [reflexivity|]. split; [reflexivity|].
    rewrite sends_emit. apply app_nil_r.
Qed.

(** C3, as amended, for the handler that tracks the client: an error
    event of the engine, delivered to its listener, takes nothing down and
    calls [kill] on the command.
    - If the headers were already sent, the callback leaves the response as
      it is and sends no answer; the connection is then terminated by the
      pipe: with the client still connected and the engine stopped (it had
      stopped, or the signal is delivered), the end of the engine's output
      ends the response, with the status it had.
    - If the headers were not sent and the client is connected, it answers
      with status 500, which ends the response.
    - If the client has disconnected, the error is suppressed: the response
      is left as it is, no answer is sent and no error of the engine is
      reported; the only lines written are the note of the disconnection and
      a failure of [kill]. *)
Theorem engine_error_response (P : platform) (url : option jsstring) (evs : list event)
    (err : exn) (stderr : option jsstring) :
  let w := run (serve P url) evs in
  on_engine_registered w = true ->
  let w1 := step w (EngineError err stderr) in
  crashed w1 = None
  /\ kills w1 = kills w ++ [(0, "SIGKILL" : jsstring)]
  /\ (headersSent (res w) = true ->
      res w1 = res w
      /\ filter is_send (out w1) = filter is_send (out w)
      /\ (isClientConnected w = true ->
          (status_of 0 w = Running -> kill_throws (env w) Running = None) ->
          let w2 := step w1 OutputEnd in
          finished (res w2) = true
          /\ statusCode (res w2) = statusCode (res w)
          /\ filter is_send (out w2) = filter is_send (out w)))
  /\ (headersSent (res w) = false -> isClientConnected w = true ->
      statusCode (res w1) = 500 /\ finished (res w1) = true
      /\ filter is_send (out w1)
         = filter is_send (out w) ++ [Send 500 ("Compression failed" : jsstring)])
  /\ (isClientConnected w = false ->
      res w1 = res w
      /\ filter is_send (out w1) = filter is_send (out w)
      /\ forall l, In l (console_lines (out w1)) ->
                   In l (console_lines (out w))
                   \/ l = log_terminated_by_disconnect
                   \/ exists e, l = error_killing e).
Proof.
  intros w Hreg.
  assert (Hc := consistent_reachable P url evs).
  assert (Ha := headers_accounted_reachable P url evs).
  fold w in Hc, Ha. clearbody w.
  assert (Hc1 := consistent_step w (EngineError err stderr) Hc).
  (* the command of the request *)
  assert (Hcmd : exists st, commands w = [st] /\ ffmpegCommand w = Some 0
                            /\ (piped w = Some (0, true)
                                \/ (piped w = None /\ finished (res w) = true))).
  { destruct Hc as (_ & _ & [(_ & _ & _ & He)|(st & Hcs & Hf & _ & _ & Hp)]);
      [congruence|].
    exists st. split; [assumption|]. split; [assumption|].
    destruct Hp as [Hp|(Hp & _ & Hfin)]; auto. }
  destruct Hcmd as (st & Hcs & Hf & Hp).
  (* the callback *)
  set (body := if isClientConnected w
               then answered 500 "Compression failed"
                      (stderr_logged stderr (emit (Console (error_ffmpeg (message err))) w))
               else emit (Console log_terminated_by_disconnect) w).
  assert (Hstep : step w (EngineError err stderr) = cleaned body).
  { unfold step. rewrite (proj1 Hc). unfold deliver. rewrite Hreg.
    unfold settle. rewrite on_engine_error_unfold. reflexivity. }
  assert (Hbody : kills body = kills w /\ commands body = commands w /\ env body = env w
                  /\ ffmpegCommand body = ffmpegCommand w /\ piped body = piped w).
  { unfold body. destruct (isClientConnected w); [|repeat split].
    destruct (answered_fields 500 "Compression failed"
                (stderr_logged stderr (emit (Console (error_ffmpeg (message err))) w)))
      as (-> & -> & -> & -> & -> & _).
    destruct (stderr_logged_fields stderr (emit (Console (error_ffmpeg (message err))) w))
      as (-> & -> & -> & -> & -> & _).
    repeat split. }
  destruct Hbody as (Hbk & Hbc & Hbe & Hbf & Hbp).
  destruct (cleaned_fields body) as (Hk1 & Hcs1 & _ & Hres1 & _ & Hp1 & _).
  cbv zeta. rewrite Hstep in *.
  split; [apply Hc1|].
  split.
  { rewrite Hk1. unfold kills_after_cleanup. rewrite Hbk, Hbf, Hf. reflexivity. }
  split; [|split].
  - (* the headers were sent *)
    intros Hsent.
    assert (Hrb : res body = res w /\ filter is_send (out body) = filter is_send (out w)).
    { unfold body. destruct (isClientConnected w).
      - unfold answered.
        rewrite (proj1 (proj2 (proj2 (proj2 (proj2 (proj2
                   (stderr_logged_fields stderr _))))))).
        cbn [emit res]. rewrite Hsent.
        rewrite (proj1 (proj2 (proj2 (proj2 (proj2 (proj2
                   (stderr_logged_fields stderr _))))))).
        rewrite sends_stderr_logged, sends_emit. cbn [emit res is_send].
        rewrite app_nil_r. auto.
      - rewrite sends_emit. cbn [emit res is_send]. rewrite app_nil_r. auto. }
    destruct Hrb as (Hrb & Hsb).
    split; [rewrite Hres1; exact Hrb|].
    split; [rewrite sends_cleaned; exact Hsb|].
    intros Hconn Hkill.
    destruct (output_ends_finishes (cleaned body) (proj1 Hc1)) as (H1 & H2 & H3).
    + rewrite Hres1, Hrb, Hp1, Hbp.
      destruct (finished (res w)) eqn:Hfin; [auto|]. right.
      destruct Hp as [Hp|(_ & Hp)]; [|discriminate]. split; [exact Hp|].
      destruct Ha as [Ha|[Ha|(_ & Hst)]]; [congruence | congruence |].
      unfold status_of in *. rewrite Hcs1. unfold commands_after_cleanup, status_of.
      rewrite Hbf, Hf, Hbc, Hbe, Hcs in *. cbn [nth] in *.
      destruct st; try contradiction.
      * rewrite (Hkill eq_refl). right. reflexivity.
      * destruct (kill_throws (env w) Exited); left; reflexivity.
      * destruct (kill_throws (env w) Killed); right; reflexivity.
    + rewrite H1, H2, H3, Hres1, Hrb, sends_cleaned, Hsb. auto.
  - (* the headers were not sent, the client is connected *)
    intros Hsent Hconn. rewrite Hres1, sends_cleaned. unfold body. rewrite Hconn.
    unfold answered.
    rewrite (proj1 (proj2 (proj2 (proj2 (proj2 (proj2
               (stderr_logged_fields stderr _))))))).
    cbn [emit res]. rewrite Hsent. cbn [emit set_res res statusCode finished out].
    rewrite sends_snoc. cbn [is_send].
    rewrite sends_stderr_logged, sends_emit. cbn [is_send]. rewrite app_nil_r. auto.
  - (* the client has disconnected *)
    intros Hconn. rewrite Hres1, sends_cleaned. unfold body. rewrite Hconn.
    rewrite sends_emit. cbn [emit res is_send]. rewrite app_nil_r.
    split; [reflexivity|]. split; [reflexivity|].
    intros l Hl. apply console_lines_cleaned in Hl as [Hl|Hl]; [|auto].
    cbn [emit out] in Hl. rewrite console_lines_snoc, in_app_iff in Hl. cbn [In] in Hl.
    destruct Hl as [Hl|[<-|[]]]; auto.
Qed.

End RelayFacts.

(** ** The earlier variant of the handler *)

Module BasicFacts.

Import Relay.

(** Its callbacks that end a request never call [kill]. *)
Lemma termination_without_kill (m : M unit) (w : world) :
  Basic.termination_path m ->
  kills (snd (m w)) = kills w /\ commands (snd (m w)) = commands w.
Proof.
  intros [ |err stderr|e|e];
    unfold Basic.on_end, Basic.on_engine_error, Basic.on_input_error, Basic.catch_block,
      console, status_send, seq, update, read, when, ret;
    simpl; try destruct (headersSent (res w)) eqn:H; simpl; try rewrite H; simpl; auto.
Qed.

(** Its progress callback throws on a missing payload, and tolerates a
    payload without a [percent] field. *)
Lemma progress_without_guard (w : world) :
  (exists e, Basic.on_progress None w = (Throw e, w))
  /\ Basic.on_progress (Some (Progress None)) w
     = (Ok tt, emit (Console (log_percent None)) w).
Proof. split; [eexists|]; reflexivity. Qed.

(** Its error callback answers whether the client is connected or not. *)
Lemma engine_error_without_flag (err : exn) (stderr : option jsstring) (w : world) :
  headersSent (res w) = false ->
  exists w', Basic.on_engine_error err stderr w = (Ok tt, w')
             /\ statusCode (res w') = 500.
Proof.
  intros H. unfold Basic.on_engine_error, console, status_send, seq, update, read, when.
  simpl. rewrite H. simpl. rewrite H. eexists. split; reflexivity.
Qed.

Import RelayFacts.

#[local] Opaque axios_settle getFileName.

(** *** The handler of the earlier variant *)

Lemma triple_read {A} (Pre : world -> Prop) (f : world -> A)
    (Post : A -> world -> Prop) (Exc : exn -> world -> Prop) :
  (forall w, Pre w -> Post (f w) w) -> triple Pre (read f) Post Exc.
Proof. intros H w Hw. apply H, Hw. Qed.

Lemma triple_ret {A} (Pre : world -> Prop) (a : A)
    (Post : A -> world -> Prop) (Exc : exn -> world -> Prop) :
  (forall w, Pre w -> Post a w) -> triple Pre (ret a) Post Exc.
Proof. intros H w Hw. apply H, Hw. Qed.

Lemma running_after_append (h : handle) (cs more : list proc_status) :
  nth h cs NotStarted = Running -> nth h (cs ++ more) NotStarted = Running.
Proof.
  intros H. destruct (Nat.lt_ge_cases h (length cs)) as [Hlt|Hge].
  - rewrite app_nth1; assumption.
  - rewrite nth_overflow in H by assumption. discriminate.
Qed.

Lemma running_after_start (h h' : handle) (cs : list proc_status) :
  nth h cs NotStarted = Running -> nth h (replace_nth h' Running cs) NotStarted = Running.
Proof.
  revert h h'. induction cs as [|c cs IH]; intros h h' H; [destruct h; discriminate|].
  destruct h' as [|h']; destruct h as [|h]; cbn [replace_nth nth] in *; auto.
Qed.

Section Unstopped.

Variable estimate : jsstring -> jsstring.
Variable h : handle.
Variable K : list (handle * jsstring).

Lemma held_seq {A B} (m : M A) (k : A -> M B) :
  Basic.keeps (Basic.still_running h K) m ->
  (forall a, Basic.keeps (Basic.still_running h K) (k a)) ->
  Basic.keeps (Basic.still_running h K) (seq m k).
Proof.
  intros Hm Hk. apply triple_seq with (Mid := fun _ => Basic.still_running h K); assumption.
Qed.

Lemma held_update (f : world -> world) :
  (forall w, Basic.still_running h K w -> Basic.still_running h K (f w)) ->
  Basic.keeps (Basic.still_running h K) (update f).
Proof. intros H. apply triple_update. exact H. Qed.

Lemma held_console (l : line) : Basic.keeps (Basic.still_running h K) (console l).
Proof. apply held_update. intros w H. exact H. Qed.

Lemma held_answer (code : nat) (body : jsstring) :
  Basic.keeps (Basic.still_running h K)
    (sent <~ read (fun w => headersSent (res w)) ;; when (negb sent) (status_send code body)).
Proof.
  intros w H. unfold seq, read, when, status_send.
  destruct (headersSent (res w)) eqn:Hs; cbn [negb]; [exact H|].
  unfold ret. cbv zeta. cbn [res set_res headersSent]. rewrite Hs. exact H.
Qed.

Lemma held_catch_block (e : exn) : Basic.keeps (Basic.still_running h K) (Basic.catch_block e).
Proof. apply held_seq; [apply held_console | intros _; apply held_answer]. Qed.

Lemma held_in_try {A} (body : M A) (otherwise : A) :
  Basic.keeps (Basic.still_running h K) body ->
  Basic.keeps (Basic.still_running h K) (Basic.in_try body otherwise).
Proof.
  intros Hb. unfold Basic.in_try. apply held_seq; [apply held_update; auto|].
  intros _. apply triple_try with (Caught := fun _ => Basic.still_running h K); [exact Hb|].
  intros e. apply held_seq; [apply held_catch_block|].
  intros _. apply triple_ret. auto.
Qed.

Lemma held_lift {A} (r : result A) : Basic.keeps (Basic.still_running h K) (lift r).
Proof. apply triple_lift. intros w H. destruct r; exact H. Qed.

Lemma held_setHeader (name value : jsstring) :
  Basic.keeps (Basic.still_running h K) (setHeader name value).
Proof.
  intros w H. unfold setHeader. cbv zeta.
  destruct (headersSent (res w)); [exact H|].
  destruct (existsb invalid_header_unit value); exact H.
Qed.

Lemma held_after_probe (u : jsstring) (r : reply) :
  Basic.keeps (Basic.still_running h K) (Basic.after_probe u r).
Proof.
  unfold Basic.after_probe. apply held_in_try.
  apply held_seq; [apply held_lift|]. intros hs.
  apply held_seq; [intros w H; exact H|]. intros P.
  apply held_seq; [apply held_lift|]. intros n.
  apply held_seq; [apply held_update; auto|]. intros _.
  apply held_seq; [apply held_update; auto|]. intros _.
  apply triple_ret. auto.
Qed.

Lemma held_after_open (u n : jsstring) (len : option jsstring) (r : reply) :
  Basic.keeps (Basic.still_running h K) (Basic.after_open estimate u n len r).
Proof.
  unfold Basic.after_open. apply held_in_try.
  apply held_seq; [apply held_lift|]. intros hs.
  apply held_seq; [apply held_setHeader|]. intros _.
  apply held_seq; [apply held_setHeader|]. intros _.
  apply held_seq.
  { unfold Basic.size_headers. destruct len as [c|]; [|apply triple_ret; auto].
    destruct (truthy_string c); [|apply triple_ret; auto].
    apply held_seq; [apply held_setHeader | intros _; apply held_setHeader]. }
  intros _. apply held_seq; [apply held_update; auto|]. intros _.
  apply held_seq.
  { intros w (Hr & Hk). unfold ffmpeg. destruct (ffmpeg_fault (env w)); [split; assumption|].
    split; [|exact Hk]. apply running_after_append. exact Hr. }
  intros h0. apply held_seq; [apply held_update; auto|]. intros _.
  intros w (Hr & Hk). unfold Basic.pipe. destruct (pipe_fault (env w)); [split; assumption|].
  split; [|exact Hk]. apply running_after_start. exact Hr.
Qed.

Lemma held_keep (len : option jsstring) (m : M unit) :
  Basic.keeps (Basic.still_running h K) m ->
  Basic.keeps (Basic.still_running h K) (Basic.keep len m).
Proof. intros H. apply held_seq; [exact H | intros _; apply triple_ret; auto]. Qed.

Lemma held_settle (m : M (option jsstring)) (s : Basic.state) :
  Basic.keeps (Basic.still_running h K) m ->
  (Basic.still_running h K) (Basic.base s) ->
  (Basic.still_running h K) (Basic.base (Basic.settle m s)).
Proof.
  intros Hm H. specialize (Hm _ H). unfold Basic.settle.
  destruct (m (Basic.base s)) as [[a|e] w']; exact Hm.
Qed.

Lemma held_step (s : Basic.state) (ev : event) :
  ev <> EngineExit ->
  (Basic.still_running h K) (Basic.base s) ->
  (Basic.still_running h K) (Basic.base (Basic.step estimate s ev)).
Proof.
  intros Hev H. unfold Basic.step. destruct (crashed (Basic.base s)); [assumption|].
  destruct ev; unfold Basic.deliver; cbv zeta.
  - destruct (waiting (Basic.base s)); try assumption.
    apply held_settle; [apply held_after_probe | assumption].
  - destruct (waiting (Basic.base s)); try assumption.
    apply held_settle; [apply held_keep, held_after_open | assumption].
  - assumption.
  - destruct (on_input_registered (Basic.base s)); [|assumption].
    apply held_settle; [|assumption]. apply held_keep.
    apply held_seq; [apply held_console | intros _; apply held_answer].
  - destruct (on_engine_registered (Basic.base s)); [|assumption].
    apply held_settle; [|assumption]. apply held_keep, held_console.
  - destruct (on_engine_registered (Basic.base s)); [|assumption].
    apply held_settle; [|assumption]. apply held_keep.
    apply held_seq; [apply held_lift | intros pc; apply held_console].
  - destruct (on_engine_registered (Basic.base s)); [|assumption].
    apply held_settle; [|assumption]. apply held_keep.
    apply held_seq; [apply held_console|]. intros _.
    apply held_seq; [apply held_console | intros _; apply held_answer].
  - destruct (on_engine_registered (Basic.base s)); [|assumption].
    apply held_settle; [|assumption]. apply held_keep, held_console.
  - apply held_settle; [|assumption]. apply held_keep.
    intros w Hw. unfold forward. destruct (piped w) as [[h0 b]|]; [|exact Hw].
    destruct (proc_status_eqb (status_of h0 w) Running && negb (finished (res w))); exact Hw.
  - contradiction.
  - apply held_settle; [|assumption]. apply held_keep.
    intros w Hw. unfold output_ends. destruct (piped w) as [[h0 [|]]|]; try exact Hw.
    destruct ((proc_status_eqb (status_of h0 w) Exited
               || proc_status_eqb (status_of h0 w) Killed) && negb (finished (res w)));
      exact Hw.
Qed.

Lemma held_run (s : Basic.state) (evs : list event) :
  Forall (fun ev => ev <> EngineExit) evs ->
  (Basic.still_running h K) (Basic.base s) ->
  (Basic.still_running h K) (Basic.base (Basic.run estimate s evs)).
Proof.
  revert s. induction evs as [|ev evs IH]; intros s Hall H; [exact H|].
  inversion Hall as [|? ? Hev Hrest]; subst. cbn [Basic.run fold_left].
  apply IH; [assumption|]. apply held_step; assumption.
Qed.

End Unstopped.

(** X17: in the earlier variant nothing the handler does stops an engine.
    From any state of a request, as long as the engine process does not exit
    on its own, a running engine is still running and no [kill] has been
    called, whatever happens: an error of the input stream, an error or the
    end reported by the engine, a failed request, the client going away. *)
Theorem engine_never_stopped (estimate : jsstring -> jsstring) (s : Basic.state)
    (evs : list event) (h : handle) :
  Forall (fun ev => ev <> EngineExit) evs ->
  status_of h (Basic.base s) = Running ->
  status_of h (Basic.base (Basic.run estimate s evs)) = Running
  /\ kills (Basic.base (Basic.run estimate s evs)) = kills (Basic.base s).
Proof.
  intros Hall Hr. apply (held_run estimate h (kills (Basic.base s)) s evs Hall).
  split; [exact Hr | reflexivity].
Qed.

(** X18: in the earlier variant a progress event without a payload takes
    the server down: the callback reads [progress.percent] without a guard,
    and nothing catches the [TypeError]. *)
Theorem progress_takes_server_down (estimate : jsstring -> jsstring) (s : Basic.state) :
  crashed (Basic.base s) = None ->
  on_engine_registered (Basic.base s) = true ->
  crashed (Basic.base (Basic.step estimate s (EngineProgress None)))
  = Some (TypeError "Cannot read properties of undefined (reading 'percent')").
Proof.
  intros Hcr Hr. unfold Basic.step. rewrite Hcr. unfold Basic.deliver. cbv zeta.
  rewrite Hr. reflexivity.
Qed.




Lemma engine_never_stopped_witness :
  let estimate := fun _ : jsstring => ("734003" : jsstring) in
  let s := Basic.run estimate (Basic.serve Sample.cooperative (Some Sample.url))
             [ProbeSettled Sample.found; OpenSettled Sample.found] in
  let evs := [ClientClose; InputError (Error "aborted");
              EngineError Sample.killed None; EngineEnd] in
  status_of 0 (Basic.base (Basic.run estimate s evs)) = Running
  /\ kills (Basic.base (Basic.run estimate s evs)) = kills (Basic.base s).
Proof.
  intros estimate s evs.
  refine (engine_never_stopped estimate s evs 0 _ _).
  - repeat constructor; discriminate.
  - vm_compute. reflexivity.
Defined.

Lemma progress_takes_server_down_witness :
  let estimate := fun _ : jsstring => ("734003" : jsstring) in
  let s := Basic.run estimate (Basic.serve Sample.cooperative (Some Sample.url))
             [ProbeSettled Sample.found; OpenSettled Sample.found] in
  crashed (Basic.base (Basic.step estimate s (EngineProgress None)))
  = Some (TypeError "Cannot read properties of undefined (reading 'percent')").
Proof.
  intros estimate s.
  refine (progress_takes_server_down estimate s _ _); vm_compute; reflexivity.
Defined.

End BasicFacts.

(** ** The handler on concrete requests *)

Module Runs.

Import Relay Sample.

Example streaming_run :
  out (run (serve cooperative (Some url)) streaming)
  = [ Request HEAD url 5000;
      Request GET url 0;
      SetHeader "Content-Disposition"
        ("attachment; filename=" ++ quoted "compressed_movie.webm");
      SetHeader "Content-Type" "video/mp4";
      Spawn 0 outputOptions;
      Console (log_started "ffmpeg -i pipe:0");
      Write "ftyp" ].
Proof. vm_compute. reflexivity. Qed.

Example interrupted_run :
  let w := run (serve cooperative (Some url)) (interrupted ++ [EngineError killed None]) in
  commands w = [Killed]
  /\ kills w = [(0, "SIGKILL" : jsstring)]
  /\ res w = Response 200 true false
               [("Content-Disposition" : jsstring,
                 "attachment; filename=" ++ quoted "compressed_movie.webm");
                ("Content-Type" : jsstring, "video/mp4" : jsstring)]
  /\ console_lines (out w)
     = [log_started "ffmpeg -i pipe:0"; log_client_disconnected;
        log_terminated_by_disconnect].
Proof. vm_compute. repeat split; reflexivity. Qed.

(** C1 as stated fails on the earlier variant of the handler, which has no
    [cleanup]: with an engine command started for the request, neither the
    [end] event, nor an error of the engine, nor an error of the input
    stream calls [kill]. *)
Lemma kill_on_every_termination_path_counterexample :
  let estimate := fun _ : jsstring => ("734003" : jsstring) in
  let s := Basic.run estimate (Basic.serve cooperative (Some url))
             [ProbeSettled found; OpenSettled found; EngineStart "ffmpeg -i pipe:0";
              EngineData "ftyp"] in
  length (commands (Basic.base s)) = 1
  /\ on_engine_registered (Basic.base s) = true
  /\ on_input_registered (Basic.base s) = true
  /\ kills (Basic.base (Basic.step estimate s EngineEnd)) = []
  /\ kills (Basic.base (Basic.step estimate s (EngineError killed None))) = []
  /\ kills (Basic.base (Basic.step estimate s (InputError (Error "socket hang up")))) = [].
Proof. vm_compute. repeat split; reflexivity. Qed.

Lemma kill_on_every_termination_path_witness :
  let w := run (serve cooperative (Some url)) streaming in
  crashed (step w EngineEnd) = None
  /\ kills (step w EngineEnd) = kills w ++ [(0, "SIGKILL" : jsstring)].
Proof.
  intros w. subst w.
  destruct (RelayFacts.kill_on_every_termination_path cooperative (Some url) streaming)
    as (_ & _ & _ & Hpaths & _).
  set (w := run (serve cooperative (Some url)) streaming) in *.
  assert (Hd : deliver EngineEnd w = Some on_end) by (vm_compute; reflexivity).
  assert (Hf : ffmpegCommand (step w EngineEnd) = Some 0) by (vm_compute; reflexivity).
  destruct (Hpaths EngineEnd on_end Hd natural_completion) as (Hcr & Hk).
  unfold cleanup_called in Hk. rewrite Hf in Hk.
  split; [exact Hcr | exact Hk].
Defined.

(** C3 as stated fails on the earlier variant of the handler, which does
    not track the client: after the client has gone away, an error of the
    engine is still reported and still answered with status 500. *)
Lemma engine_error_response_counterexample :
  let estimate := fun _ : jsstring => ("734003" : jsstring) in
  let s := Basic.run estimate (Basic.serve cooperative (Some url))
             [ProbeSettled found; OpenSettled found; EngineStart "ffmpeg -i pipe:0";
              ClientClose] in
  let s' := Basic.step estimate s (EngineError killed (Some ("Conversion failed!" : jsstring))) in
  headersSent (res (Basic.base s)) = false
  /\ statusCode (res (Basic.base s')) = 500
  /\ filter is_send (out (Basic.base s')) = [Send 500 ("Compression failed" : jsstring)]
  /\ console_lines (out (Basic.base s'))
     = console_lines (out (Basic.base s))
       ++ [error_ffmpeg_value killed;
           error_ffmpeg_stderr_value (Some ("Conversion failed!" : jsstring))].
Proof. vm_compute. repeat split; reflexivity. Qed.

Lemma engine_error_response_witness :
  let w := run (serve cooperative (Some url)) streaming in
  let w1 := step w (EngineError killed None) in
  let w2 := step w1 OutputEnd in
  on_engine_registered w = true
  /\ headersSent (res w) = true
  /\ isClientConnected w = true
  /\ kills w1 = kills w ++ [(0, "SIGKILL" : jsstring)]
  /\ res w1 = res w
  /\ filter is_send (out w1) = filter is_send (out w)
  /\ finished (res w2) = true
  /\ statusCode (res w2) = statusCode (res w)
  /\ filter is_send (out w2) = filter is_send (out w).
Proof.
  intros w w1 w2. subst w2 w1 w.
  assert (Hreg : on_engine_registered (run (serve cooperative (Some url)) streaming) = true)
    by (vm_compute; reflexivity).
  assert (Hsent : headersSent (res (run (serve cooperative (Some url)) streaming)) = true)
    by (vm_compute; reflexivity).
  assert (Hconn : isClientConnected (run (serve cooperative (Some url)) streaming) = true)
    by (vm_compute; reflexivity).
  destruct (RelayFacts.engine_error_response cooperative (Some url) streaming killed None Hreg)
    as (_ & Hkills & Hafter & _ & _).
  destruct (Hafter Hsent) as (Hres & Hsends & Hend).
  destruct (Hend Hconn (fun _ => eq_refl)) as (Hfin & Hcode & Hsends2).
  split; [exact Hreg|]. split; [exact Hsent|]. split; [exact Hconn|].
  split; [exact Hkills|]. split; [exact Hres|]. split; [exact Hsends|].
  split; [exact Hfin|]. split; [exact Hcode | exact Hsends2].
Defined.

Lemma missing_url_rejected_witness :
  truthy None = false
  /\ let w := run (serve cooperative None)
                [ClientClose; ProbeSettled TimedOut; EngineEnd] in
     statusCode (res w) = 400
     /\ out w = [Send 400 ("Missing video URL" : jsstring)]
     /\ filter is_request (out w) = []
     /\ commands w = [] /\ kills w = [] /\ crashed w = None.
Proof.
  split; [reflexivity|].
  apply (RelayFacts.missing_url_rejected cooperative None
           [ClientClose; ProbeSettled TimedOut; EngineEnd]).
  reflexivity.
Defined.

Lemma probe_failure_witness :
  truthy (Some url) = true
  /\ probe_fails unavailable = true
  /\ Forall (fun ev => is_probe_settled ev = false) [ClientClose; EngineEnd]
  /\ let w := run (serve cooperative (Some url))
                ([ClientClose; EngineEnd] ++ ProbeSettled unavailable
                   :: [OpenSettled found; EngineData "ftyp"]) in
     exists videoUrl e,
       Some url = Some videoUrl /\ axios_settle 5000 unavailable = Throw e
       /\ statusCode (res w) = 500
       /\ filter on_response (out w)
          = [Send 500 ("Failed to process video: " ++ message e)]
       /\ filter is_request (out w) = [Request HEAD videoUrl 5000]
       /\ filter is_spawn (out w) = []
       /\ commands w = [] /\ kills w = [] /\ crashed w = None.
Proof.
  assert (Hbefore : Forall (fun ev => is_probe_settled ev = false) [ClientClose; EngineEnd])
    by (repeat constructor).
  split; [reflexivity|]. split; [reflexivity|]. split; [exact Hbefore|].
  apply (RelayFacts.probe_failure cooperative (Some url) unavailable
           [ClientClose; EngineEnd] [OpenSettled found; EngineData "ftyp"]).
  - reflexivity.
  - reflexivity.
  - exact Hbefore.
Defined.

Example probe_failure_answer :
  out (run (serve cooperative (Some url)) [ProbeSettled unavailable; OpenSettled found])
  = [ Request HEAD url 5000;
      Console (error_caught "Request failed with status code 503");
      Send 500 "Failed to process video: Request failed with status code 503" ].
Proof. vm_compute. reflexivity. Qed.

Lemma cleanup_idempotent_witness :
  let w := run (serve cooperative (Some url)) streaming in
  safe_when_down (env w)
  /\ exists w1 w2,
       cleanup w = (Ok tt, w1) /\ cleanup w1 = (Ok tt, w2)
       /\ commands w1 = [Killed]
       /\ forget_kills w2 = forget_kills w1.
Proof.
  intros w.
  assert (Hsafe : safe_when_down (env w)) by (intros st _; reflexivity).
  destruct (RelayFacts.cleanup_idempotent w) as (w1 & w2 & H1 & H2 & Hsame).
  destruct (Hsame Hsafe) as (Htwice & _).
  assert (Hw1 : w1 = cleaned w) by exact (eq_sym (f_equal snd H1)).
  split; [exact Hsafe|].
  exists w1, w2. split; [exact H1|]. split; [exact H2|]. split.
  - rewrite Hw1. vm_compute. reflexivity.
  - apply Htwice. intros h Hh. rewrite Hw1.
    assert (Hh0 : h = 0) by (vm_compute in Hh; congruence).
    subst h. vm_compute. discriminate.
Defined.

(** When the signal cannot be delivered, [cleanup] still returns normally
    and the failure is logged. *)
Example cleanup_logs_refusal :
  let w := run (serve refusing (Some url)) streaming in
  cleanup w = (Ok tt, emit (Console (error_killing (Error "kill EPERM")))
                        (note_kill 0 "SIGKILL" w)).
Proof. vm_compute. reflexivity. Qed.

Lemma engine_started_witness :
  let w := run (serve cooperative (Some url))
             (([ClientClose] ++ ProbeSettled found :: [ClientClose; EngineEnd])
                ++ [OpenSettled found]) in
  statusCode (res w) = 200 /\ headersSent (res w) = false
  /\ filter on_response (out w)
     = [SetHeader "Content-Disposition" (disposition "movie.webm");
        SetHeader "Content-Type" "video/mp4"]
  /\ filter is_request (out w) = [Request HEAD url 5000; Request GET url 0]
  /\ filter is_spawn (out w) = [Spawn 0 outputOptions]
  /\ length (commands w) = 1 /\ ffmpegCommand w = Some 0 /\ piped w = Some (0, true)
  /\ on_input_registered w = true /\ on_engine_registered w = true
  /\ kills w = [] /\ crashed w = None.
Proof.
  refine (RelayFacts.engine_started cooperative url "movie.webm" 200 200
            (UpstreamHeaders (Some ("1048576" : jsstring)) (Some ("video/webm" : jsstring)) None)
            (UpstreamHeaders (Some ("1048576" : jsstring)) (Some ("video/webm" : jsstring)) None)
            [ClientClose] [ClientClose; EngineEnd] _ _ _ _ _ _ _ _ _).
  - reflexivity.
  - lia.
  - lia.
  - vm_compute. reflexivity.
  - vm_compute. reflexivity.
  - reflexivity.
  - reflexivity.
  - repeat constructor.
  - repeat constructor.
Defined.

Lemma natural_completion_ends_response_witness :
  let w := run (serve cooperative (Some url)) streaming in
  let w' := run w [EngineExit; OutputEnd; EngineEnd] in
  commands w' = [Exited]
  /\ res w' = Response (statusCode (res w)) true true (headers (res w))
  /\ filter on_response (out w') = filter on_response (out w) ++ [EndResponse]
  /\ filter is_send (out w') = filter is_send (out w)
  /\ kills w' = kills w ++ [(0, "SIGKILL" : jsstring)]
  /\ alive w' = 0 /\ crashed w' = None.
Proof.
  refine (RelayFacts.natural_completion_ends_response cooperative (Some url) streaming _ _ _).
  - vm_compute. reflexivity.
  - vm_compute. reflexivity.
  - vm_compute. reflexivity.
Defined.

Lemma silent_after_disconnect_witness :
  let w := run (serve cooperative (Some url)) interrupted in
  let evs := [EngineProgress (Some (Progress (Some (Double 0))));
              EngineError killed (Some ("Conversion failed!" : jsstring)); EngineEnd] in
  isClientConnected (run w evs) = false
  /\ engine_reports (out (run w evs)) = engine_reports (out w).
Proof.
  refine (RelayFacts.silent_after_disconnect _ _ _).
  vm_compute. reflexivity.
Defined.

Lemma open_failure_witness :
  let w := run (serve cooperative (Some url))
             (([ClientClose] ++ ProbeSettled found :: [EngineEnd])
                ++ OpenSettled unavailable :: [EngineData "ftyp"; EngineEnd]) in
  exists e,
    axios_settle 0 unavailable = Throw e
    /\ statusCode (res w) = 500
    /\ filter on_response (out w)
       = [Send 500 ("Failed to process video: " ++ message e)]
    /\ filter is_request (out w) = [Request HEAD url 5000; Request GET url 0]
    /\ filter is_spawn (out w) = []
    /\ commands w = [] /\ kills w = [] /\ crashed w = None.
Proof.
  refine (RelayFacts.open_failure cooperative url "movie.webm" 200
            (UpstreamHeaders (Some ("1048576" : jsstring)) (Some ("video/webm" : jsstring)) None)
            unavailable [ClientClose] [EngineEnd] [EngineData "ftyp"; EngineEnd]
            _ _ _ _ _ _).
  - reflexivity.
  - lia.
  - vm_compute. reflexivity.
  - reflexivity.
  - repeat constructor.
  - repeat constructor.
Defined.

Lemma start_failure_witness :
  let w := run (serve unstartable (Some url)) (([] ++ ProbeSettled found :: [])
                                                 ++ [OpenSettled found]) in
  statusCode (res w) = 500 /\ headersSent (res w) = true /\ finished (res w) = true
  /\ filter on_response (out w)
     = [SetHeader "Content-Disposition" (disposition "movie.webm");
        SetHeader "Content-Type" "video/mp4";
        Send 500 ("Failed to process video: "
                  ++ message (Error "Only one output stream is supported"))]
  /\ filter is_request (out w) = [Request HEAD url 5000; Request GET url 0]
  /\ filter is_spawn (out w) = []
  /\ piped w = None /\ crashed w = None
  /\ (ffmpeg_fault unstartable = Some (Error "Only one output stream is supported") ->
      length (commands w) = 0 /\ kills w = [])
  /\ (ffmpeg_fault unstartable = None ->
      length (commands w) = 1 /\ kills w = [(0, "SIGKILL" : jsstring)]).
Proof.
  refine (RelayFacts.start_failure unstartable url "movie.webm" 200 200
            (UpstreamHeaders (Some ("1048576" : jsstring)) (Some ("video/webm" : jsstring)) None)
            (UpstreamHeaders (Some ("1048576" : jsstring)) (Some ("video/webm" : jsstring)) None)
            (Error "Only one output stream is supported") [] [] _ _ _ _ _ _ _ _).
  - reflexivity.
  - lia.
  - lia.
  - vm_compute. reflexivity.
  - vm_compute. reflexivity.
  - right. split; reflexivity.
  - constructor.
  - constructor.
Defined.

End Runs.
